(** * WebSketch IR: a shallow embedding of the hashing, diffing and
    validation core, and the properties its specification states.

    Conventions of the embedding.
    - A JavaScript string is the list of its UTF-16 code units ([jsstring]);
      [lit] injects an ASCII literal of the source.
    - A JavaScript number that the code uses as a 32-bit integer is a [Z]
      with the wrap-around of [ToInt32] / [ToUint32] written out; a length,
      an index or a counter of the code is a [nat] or a [Z].
    - Every other number (bounding boxes, similarity scores, thresholds,
      limits, the numbers of a JSON value) is an IEEE 754 double: a
      primitive [float], with the rounding, the infinities, [NaN] and [-0]
      of the language. The conversions between numbers and decimal text
      ([toFixed], [Number::toString], the number literals of JSON) are
      computed on the exact rational value of the double.
    - [Array.prototype.sort] is a stable sort; it is embedded as the stable
      insertion sort [js_sort].
    - [String.prototype.toLowerCase] belongs to the runtime: the functions
      that call it take it as a parameter. [parseCapture] takes [JSON.parse]
      as a parameter; [JSON_parse] and [JSON_stringify] embed the two
      functions of the runtime.

    The definitions come first, file by file of the source; the proofs
    follow. *)

From Stdlib Require Import String Ascii.
From Stdlib Require Import ZArith QArith Qround.
From Stdlib Require Import Floats.
From Stdlib Require Import List Bool Lia.
From Stdlib Require Import Permutation.
Import ListNotations.

#[local] Set Warnings "-inexact-float".

Local Open Scope Z_scope.

(* ===================================================================== *)
(** * JavaScript primitives *)
(* ===================================================================== *)

Module JS.

(** A string is its sequence of UTF-16 code units. *)
Definition jsstring := list Z.

(** An ASCII literal of the source as a [jsstring]. *)
Definition lit (s : string) : jsstring :=
  List.map (fun a => Z.of_nat (nat_of_ascii a)) (list_ascii_of_string s).
Arguments lit s%_string.

Definition str_eqb (a b : jsstring) : bool :=
  if list_eq_dec Z.eq_dec a b then true else false.

(** Truthiness of a string: [""] is falsy. *)
Definition truthy_str (s : jsstring) : bool :=
  match s with [] => false | _ :: _ => true end.

(** Truthiness of an optional string ([undefined] is falsy). *)
Definition truthy (o : option jsstring) : bool :=
  match o with Some s => truthy_str s | None => false end.

(** [Array.prototype.join]. *)
Fixpoint join (sep : jsstring) (parts : list jsstring) : jsstring :=
  match parts with
  | [] => []
  | [p] => p
  | p :: rest => p ++ sep ++ join sep rest
  end.

(** [String.prototype.slice(0, n)]. *)
Definition slice0 (n : nat) (s : jsstring) : jsstring := firstn n s.

(** [ToUint32] and [ToInt32] on an integer-valued number. *)
Definition ToUint32 (x : Z) : Z := x mod 2 ^ 32.

Definition ToInt32 (x : Z) : Z :=
  let u := x mod 2 ^ 32 in if u <? 2 ^ 31 then u else u - 2 ^ 32.

(** [x << n], [x ^ y] and [x >>> n]. *)
Definition shl32 (x n : Z) : Z := ToInt32 (Z.shiftl (ToInt32 x) (n mod 32)).
Definition xor32 (x y : Z) : Z := ToInt32 (Z.lxor (ToInt32 x) (ToInt32 y)).
Definition ushr32 (x n : Z) : Z := Z.shiftr (ToUint32 x) (n mod 32).

(** One lowercase hexadecimal digit, as a code unit. *)
Definition hexDigit (d : Z) : Z :=
  if d <? 10 then 48 + d else 87 + d.

(** [Number.prototype.toString(16)] on a non-negative integer: the digits
    without leading zeros. *)
Fixpoint toHexDigits (fuel : nat) (n : Z) : jsstring :=
  match fuel with
  | O => []
  | S f =>
      if n <? 16 then [hexDigit n]
      else toHexDigits f (n / 16) ++ [hexDigit (n mod 16)]
  end.

Definition toString16 (n : Z) : jsstring :=
  toHexDigits (S (Z.to_nat (Z.log2 n))) n.

(** [String.prototype.padStart(width, "0")]. *)
Definition padStart0 (width : nat) (s : jsstring) : jsstring :=
  repeat 48 (width - length s) ++ s.

(** Decimal digits of a non-negative integer, without leading zeros. *)
Fixpoint toDecDigits (fuel : nat) (n : Z) : jsstring :=
  match fuel with
  | O => []
  | S f =>
      if n <? 10 then [48 + n]
      else toDecDigits f (n / 10) ++ [48 + n mod 10]
  end.

Definition natToString (n : Z) : jsstring :=
  toDecDigits (S (Z.to_nat (Z.log2 n))) n.

(** [String(n)] for an integer [n]. *)
Definition intToString (n : Z) : jsstring :=
  if n <? 0 then 45 :: natToString (- n) else natToString n.

End JS.

Import JS.

(* ===================================================================== *)
(** * Numbers: IEEE doubles, Math, toFixed, Number::toString, sort *)
(* ===================================================================== *)

Module Number.

(** A JavaScript number is an IEEE 754 double. *)
Definition number : Set := float.
Bind Scope float_scope with number.

Definition NaN : number := PrimFloat.nan.
Definition Infinity : number := PrimFloat.infinity.

(** The sign bit: set on negative numbers and on [-0]. *)
Definition signbit (x : number) : bool :=
  match Prim2SF x with
  | S754_zero s | S754_infinity s | S754_finite s _ _ => s
  | S754_nan => false
  end.

Definition isFinite (x : number) : bool :=
  match Prim2SF x with
  | S754_zero _ | S754_finite _ _ _ => true
  | S754_infinity _ | S754_nan => false
  end.

(** The mathematical value of a finite number. *)
Definition exact (x : number) : option Q :=
  match Prim2SF x with
  | S754_zero _ => Some 0%Q
  | S754_finite s m e =>
      let v := if 0 <=? e then inject_Z (Zpos m * 2 ^ e)
               else Qmake (Zpos m) (2 ^ Z.to_pos (- e)) in
      Some (if s then Qopp v else v)
  | S754_infinity _ | S754_nan => None
  end.

(** The double nearest to the positive rational [a / b], ties to the even
    mantissa; values from [2^1024 - 2^970] on round to infinity. *)
Definition nearestPos (a b : positive) : spec_float :=
  let e0 := Z.log2 (Zpos a) - Z.log2 (Zpos b) in
  let atLeast := if 0 <=? e0 then Zpos b * 2 ^ e0 <=? Zpos a
                 else Zpos b <=? Zpos a * 2 ^ (- e0) in
  let e := if atLeast then e0 else e0 - 1 in
  let shift := Z.max (e - 52) (-1074) in
  let num := if shift <? 0 then Zpos a * 2 ^ (- shift) else Zpos a in
  let den := if shift <? 0 then Zpos b else Zpos b * 2 ^ shift in
  let qu := num / den in
  let r := num mod den in
  let m := if 2 * r <? den then qu
           else if den <? 2 * r then qu + 1
           else if Z.even qu then qu else qu + 1 in
  let '(m, shift) := if m =? 2 ^ 53 then (2 ^ 52, shift + 1) else (m, shift) in
  if 971 <? shift then S754_infinity false
  else match m with
       | Zpos p => S754_finite false p shift
       | _ => S754_zero false
       end.

(** The number value of a rational: the nearest double. *)
Definition nearest (q : Q) : number :=
  match Qnum q with
  | Z0 => PrimFloat.zero
  | Zpos a => SF2Prim (nearestPos a (Qden q))
  | Zneg a => PrimFloat.opp (SF2Prim (nearestPos a (Qden q)))
  end.

(** An integer of the code (a length, an index, a counter) as a number. *)
Definition ofZ (n : Z) : number := nearest (inject_Z n).

Definition ofNat (n : nat) : number := ofZ (Z.of_nat n).


(** [Math.abs], [Math.max], [Math.min]. *)
Definition Math_abs (x : number) : number := PrimFloat.abs x.

Definition Math_max (a b : number) : number :=
  if PrimFloat.is_nan a || PrimFloat.is_nan b then NaN
  else if PrimFloat.ltb a b then b
  else if PrimFloat.ltb b a then a
  else if signbit a then b else a.

Definition Math_min (a b : number) : number :=
  if PrimFloat.is_nan a || PrimFloat.is_nan b then NaN
  else if PrimFloat.ltb a b then a
  else if PrimFloat.ltb b a then b
  else if signbit a then a else b.

(** A rational is an integer. *)
Definition isIntegral (q : Q) : bool := Qeq_bool (inject_Z (Qfloor q)) q.

(** [Math.round]: the nearest integer, ties towards +infinity; the sign of
    a zero result is that of the argument. *)
Definition Math_round (x : number) : number :=
  match exact x with
  | None => x
  | Some q =>
      if isIntegral q then x
      else
        let n := Qfloor (q + (1 # 2)) in
        if n =? 0 then (if signbit x then PrimFloat.neg_zero else PrimFloat.zero)
        else ofZ n
  end.

(** Ten to the power [n], for any integer [n]. *)
Definition pow10 (n : Z) : Q :=
  if 0 <=? n then inject_Z (10 ^ n) else Qmake 1 (10 ^ Z.to_pos (- n)).

(** The number of decimal digits of a positive integer. *)
Definition decimalLength (n : Z) : Z := Z.of_nat (length (natToString n)).

(** The [n] with [10^(n-1) <= q < 10^n], for a positive [q]. *)
Definition decimalExponent (q : Q) : Z :=
  let d := decimalLength (Qnum q) - decimalLength (Zpos (Qden q)) in
  if Qle_bool (pow10 d) q then d + 1 else d.

(** [s * 10^(n-k)] has the number value [x]. *)
Definition denotes (x : number) (s n k : Z) : bool :=
  PrimFloat.eqb (nearest (inject_Z s * pow10 (n - k))) x.

(** The digits of [Number::toString]: the least [k] and the [s] of [k]
    digits with [s * 10^(n-k)] of number value [x]; of two such [s] the one
    nearest to [x], and the even one when both are as near. The result is
    [(s, k, n)]. *)
Fixpoint shortestFrom (fuel : nat) (x : number) (q : Q) (n k : Z)
  : Z * Z * Z :=
  match fuel with
  | O => (Qfloor (q / pow10 (n - k)), k, n)
  | S fuel' =>
      let t := (q / pow10 (n - k))%Q in
      let lo := Qfloor t in
      let hi := lo + 1 in
      let okLo := denotes x lo n k in
      let okHi := denotes x hi n k in
      let twice := (2 * (t - inject_Z lo))%Q in
      let preferLo := match Qcompare twice 1 with
                      | Lt => true
                      | Gt => false
                      | Eq => Z.even lo
                      end in
      if okLo && (preferLo || negb okHi) then (lo, k, n)
      else if okHi then
             if hi =? 10 ^ k then (1, 1, n + 1) else (hi, k, n)
           else shortestFrom fuel' x q n (k + 1)
  end.

Definition shortest (x : number) (q : Q) : Z * Z * Z :=
  shortestFrom 17 x q (decimalExponent q) 1.

Definition zeros (n : Z) : jsstring := repeat 48 (Z.to_nat n).

(** [Number::toString] on a positive finite number. *)
Definition positiveToString (x : number) (q : Q) : jsstring :=
  let '(s, k, n) := shortest x q in
  let digits := natToString s in
  if (k <=? n) && (n <=? 21) then digits ++ zeros (n - k)
  else if (0 <? n) && (n <=? 21) then
    firstn (Z.to_nat n) digits ++ lit "." ++ skipn (Z.to_nat n) digits
  else if (-6 <? n) && (n <=? 0) then lit "0." ++ zeros (- n) ++ digits
  else
    let e := n - 1 in
    let exponent := (if e <? 0 then lit "e-" else lit "e+")
                    ++ natToString (Z.abs e) in
    if k =? 1 then digits ++ exponent
    else firstn 1 digits ++ lit "." ++ skipn 1 digits ++ exponent.

(** [Number::toString] (radix 10): what [String(x)] and a template literal
    write. *)
Definition Number_toString (x : number) : jsstring :=
  match exact x with
  | None =>
      if PrimFloat.is_nan x then lit "NaN"
      else if signbit x then lit "-Infinity" else lit "Infinity"
  | Some q =>
      match Qcompare q 0 with
      | Eq => lit "0"
      | Gt => positiveToString x q
      | Lt => lit "-" ++ positiveToString (PrimFloat.opp x) (Qopp q)
      end
  end.

(** [Number.prototype.toFixed(f)]: the integer [n] nearest to [|x| * 10^f]
    (the larger one on a tie), written with [f] fractional digits and the
    sign of [x]; numbers that are not finite or are at least [10^21] are
    written by [Number::toString]. *)
Definition toFixed (f : nat) (x : number) : jsstring :=
  match exact x with
  | None => Number_toString x
  | Some q =>
      let neg := match Qcompare q 0 with Lt => true | _ => false end in
      let ax := if neg then Qopp q else q in
      let m :=
        if Qle_bool (pow10 21) ax then Number_toString (PrimFloat.abs x)
        else
          let n := Qfloor (ax * inject_Z (10 ^ Z.of_nat f) + (1 # 2)) in
          let m := natToString n in
          if (f =? 0)%nat then m
          else
            let m := repeat 48 (S f - length m) ++ m in
            let k := length m in
            firstn (k - f) m ++ lit "." ++ skipn (k - f) m in
      if neg then lit "-" ++ m else m
  end.

(** [x || 0] on a number: [0], [-0] and [NaN] are falsy. *)
Definition orZero (x : number) : number :=
  if PrimFloat.eqb x PrimFloat.zero || PrimFloat.is_nan x then PrimFloat.zero
  else x.

(** [ToIntegerOrInfinity] on a finite number: truncation towards zero. *)
Definition truncate (q : Q) : Z :=
  if Qle_bool 0 q then Qfloor q else Qceiling q.

(** [Array.prototype.slice(0, end)]: a negative [end] counts from the end
    of the array, [NaN] is [0]. *)
Definition sliceTo {A : Type} (l : list A) (e : number) : list A :=
  match exact e with
  | Some q =>
      let t := truncate q in
      if t <? 0 then firstn (Z.to_nat (Z.of_nat (length l) + t)) l
      else firstn (Z.to_nat t) l
  | None =>
      if PrimFloat.is_nan e || signbit e then [] else l
  end.

(** [Array.prototype.sort(cmp)]: a stable sort; [cmp a b > 0] puts [a]
    after [b] (a comparator value [NaN] counts as [0]). *)
Fixpoint js_insert {A : Type} (cmp : A -> A -> number) (x : A) (l : list A)
  : list A :=
  match l with
  | [] => [x]
  | y :: l' =>
      if PrimFloat.ltb PrimFloat.zero (cmp x y) then y :: js_insert cmp x l'
      else x :: l
  end.

Definition js_sort {A : Type} (cmp : A -> A -> number) (l : list A) : list A :=
  fold_right (js_insert cmp) [] l.

End Number.
Import Number.

(* ===================================================================== *)
(** * grammar.ts: the data model *)
(* ===================================================================== *)

Module Grammar.

(** [BBox01]: the tuple [[x, y, w, h]]. *)
Record BBox01 : Type := mkBBox {
  bx : number; by_ : number; bw : number; bh : number
}.

Record ViewportMeta : Type := mkViewport {
  w_px : number;
  h_px : number;
  aspect : number;
  scroll_y01 : option number
}.

Inductive TextKind : Type :=
  | KNone | KShort | KSentence | KParagraph | KMixed.

Record TextSignal : Type := mkText {
  hash : option jsstring;
  len : option number;
  kind : TextKind
}.

Inductive UIRole : Type :=
  | PAGE | NAV | HEADER | FOOTER | SECTION | CARD | LIST | TABLE
  | MODAL | TOAST | DROPDOWN
  | FORM | INPUT | BUTTON | LINK | CHECKBOX | RADIO | ICON
  | IMAGE | TEXT
  | PAGINATION
  | UNKNOWN.

Definition roleName (r : UIRole) : jsstring :=
  match r with
  | PAGE => lit "PAGE" | NAV => lit "NAV" | HEADER => lit "HEADER"
  | FOOTER => lit "FOOTER" | SECTION => lit "SECTION" | CARD => lit "CARD"
  | LIST => lit "LIST" | TABLE => lit "TABLE"
  | MODAL => lit "MODAL" | TOAST => lit "TOAST" | DROPDOWN => lit "DROPDOWN"
  | FORM => lit "FORM" | INPUT => lit "INPUT" | BUTTON => lit "BUTTON"
  | LINK => lit "LINK" | CHECKBOX => lit "CHECKBOX" | RADIO => lit "RADIO"
  | ICON => lit "ICON"
  | IMAGE => lit "IMAGE" | TEXT => lit "TEXT"
  | PAGINATION => lit "PAGINATION"
  | UNKNOWN => lit "UNKNOWN"
  end.

Definition role_eqb (a b : UIRole) : bool :=
  match a, b with
  | PAGE, PAGE | NAV, NAV | HEADER, HEADER | FOOTER, FOOTER
  | SECTION, SECTION | CARD, CARD | LIST, LIST | TABLE, TABLE
  | MODAL, MODAL | TOAST, TOAST | DROPDOWN, DROPDOWN
  | FORM, FORM | INPUT, INPUT | BUTTON, BUTTON | LINK, LINK
  | CHECKBOX, CHECKBOX | RADIO, RADIO | ICON, ICON
  | IMAGE, IMAGE | TEXT, TEXT | PAGINATION, PAGINATION
  | UNKNOWN, UNKNOWN => true
  | _, _ => false
  end.

Record UINodeFlags : Type := mkFlags {
  sticky : option bool;
  scrollable : option bool;
  repeated : option bool
}.

(** [UINode]. Optional members are [option]s. *)
#[warnings="-register-all"]
Inductive UINode : Type := mkNode {
  id : jsstring;
  role : UIRole;
  semantic : option jsstring;
  name_hash : option jsstring;
  text : option TextSignal;
  bbox : BBox01;
  z : option number;
  interactive : bool;
  enabled : option bool;
  visible : bool;
  focusable : option bool;
  children : option (list UINode);
  flags : option UINodeFlags
}.

Record CompilerMeta : Type := mkCompiler {
  name : jsstring;
  cversion : jsstring;
  options_hash : jsstring
}.

Record WebSketchCapture : Type := mkCapture {
  version : jsstring;
  url : jsstring;
  timestamp_ms : number;
  viewport : ViewportMeta;
  compiler : CompilerMeta;
  root : UINode
}.

Definition BBOX_QUANT_STEP : number := 0.001%float.

(** [node.text?.hash]. *)
Definition text_hash (n : UINode) : option jsstring :=
  match text n with Some t => hash t | None => None end.

(** [node.children] read as a list: an absent member has no elements. *)
Definition childList (n : UINode) : list UINode :=
  match children n with Some cs => cs | None => [] end.

End Grammar.

Import Grammar.

(* ===================================================================== *)
(** * text.ts: the short digest, normalization, text signals *)
(* ===================================================================== *)

Module Text.

(** [djb2Hash]: the loop, on the signed 32-bit values JavaScript's [<<] and
    [^] produce. *)
Definition djb2_step (hash c : Z) : Z := xor32 (shl32 hash 5 + hash) c.

Definition djb2_loop (text : jsstring) : Z := fold_left djb2_step text 5381.

Definition djb2Hash (text : jsstring) : jsstring :=
  padStart0 8 (toString16 (ushr32 (djb2_loop text) 0)).

Definition sha256Sync (text : jsstring) : jsstring := djb2Hash text.

(** The fold as the specification words it: [h] starts at 5381 and becomes
    [((h << 5) + h) XOR c], all modulo 2^32. *)
Definition djb2_spec_step (h c : Z) : Z :=
  Z.lxor (Z.shiftl h 5 + h) c mod 2 ^ 32.

Definition djb2_spec_fold (text : jsstring) : Z :=
  fold_left djb2_spec_step text 5381.

(** A 32-bit value written with exactly eight lowercase hex digits. *)
Definition hex8 (n : Z) : jsstring :=
  List.map (fun k => hexDigit (n / 16 ^ k mod 16)) [7; 6; 5; 4; 3; 2; 1; 0].

Definition isLowerHex (c : Z) : Prop :=
  48 <= c <= 57 \/ 97 <= c <= 102.

(** [INVISIBLE_CHARS]. *)
Definition isInvisible (c : Z) : bool :=
  ((8203 <=? c) && (c <=? 8205))        (* U+200B..U+200D *)
  || (c =? 65279)                       (* U+FEFF *)
  || (c =? 173)                         (* U+00AD *)
  || (c =? 8288)                        (* U+2060 *)
  || (c =? 6158)                        (* U+180E *)
  || ((8234 <=? c) && (c <=? 8238))     (* U+202A..U+202E *)
  || ((8294 <=? c) && (c <=? 8297)).    (* U+2066..U+2069 *)

(** The class [\s] of a regular expression (and the characters [trim]
    removes): white space and line terminators. *)
Definition isSpace (c : Z) : bool :=
  ((9 <=? c) && (c <=? 13))             (* TAB, LF, VT, FF, CR *)
  || (c =? 32) || (c =? 160) || (c =? 5760)
  || ((8192 <=? c) && (c <=? 8202))     (* U+2000..U+200A *)
  || (c =? 8232) || (c =? 8233) || (c =? 8239) || (c =? 8287)
  || (c =? 12288) || (c =? 65279).

(** [.replace(INVISIBLE_CHARS, "")]. *)
Definition stripInvisible (s : jsstring) : jsstring :=
  filter (fun c => negb (isInvisible c)) s.

(** [.replace(/\s+/g, " ")]; [inRun] tells that the previous character was
    white space. *)
Fixpoint collapseFrom (inRun : bool) (s : jsstring) : jsstring :=
  match s with
  | [] => []
  | c :: s' =>
      if isSpace c then
        if inRun then collapseFrom true s' else 32 :: collapseFrom true s'
      else c :: collapseFrom false s'
  end.

Definition collapseWhitespace (s : jsstring) : jsstring := collapseFrom false s.

Fixpoint trimStart (s : jsstring) : jsstring :=
  match s with
  | c :: s' => if isSpace c then trimStart s' else s
  | [] => []
  end.

Definition trim (s : jsstring) : jsstring := rev (trimStart (rev (trimStart s))).

(** [toLowerCase] on the ASCII letters, for the examples. *)
Definition asciiLower (s : jsstring) : jsstring :=
  List.map (fun c => if (65 <=? c) && (c <=? 90) then c + 32 else c) s.

Definition SHORT : nat := 20.
Definition SENTENCE : nat := 150.

Definition classifyText (normalizedText : jsstring) : TextKind :=
  let len := length normalizedText in
  if (len =? 0)%nat then KNone
  else if (len <=? SHORT)%nat then KShort
  else if (len <=? SENTENCE)%nat then KSentence
  else KParagraph.

(** A match of [\n\s*\n] that starts at a line feed: the white-space run
    after it is taken whole and given back up to its last line feed.
    [best] is what follows the last line feed seen so far. *)
Fixpoint lastBreak (s : jsstring) (best : option jsstring) : option jsstring :=
  match s with
  | c :: s' =>
      if isSpace c then lastBreak s' (if c =? 10 then Some s' else best)
      else best
  | [] => best
  end.

(** [(rawText.match(/\n\s*\n/g) || []).length]: the matches are found from
    left to right, each search starting where the last match ended. *)
Fixpoint countBreaks (fuel : nat) (s : jsstring) : nat :=
  match fuel with
  | O => O
  | S fuel' =>
      match s with
      | [] => O
      | c :: s' =>
          match (if c =? 10 then lastBreak s' None else None) with
          | Some rest => S (countBreaks fuel' rest)
          | None => countBreaks fuel' s'
          end
      end
  end.

Definition isMixedContent (rawText : jsstring) : bool :=
  let lineBreaks := countBreaks (length rawText) rawText in
  (2 <=? lineBreaks)%nat.

Section Lower.

(** [String.prototype.toLowerCase] is the runtime's (it follows the Unicode
    case tables); the functions below are stated over it. *)
Variable toLowerCase : jsstring -> jsstring.

Definition normalizeText (text : jsstring) : jsstring :=
  toLowerCase (trim (collapseWhitespace (stripInvisible text))).

Definition createTextSignalSync (rawText : jsstring) : TextSignal :=
  let normalized := normalizeText rawText in
  let len := length normalized in
  if (len =? 0)%nat then mkText None None KNone
  else
    let kind := if isMixedContent rawText then KMixed
                else classifyText normalized in
    let hash := sha256Sync normalized in
    mkText (Some hash) (Some (ofNat len)) kind.

End Lower.

(** Two blank-line breaks around a zero-width space. *)
Definition blankLinesOnly : jsstring := [10; 10; 8203; 10; 10].

(** The exception as the specification states it: a raw string with two or
    more blank-line breaks is classified [mixed] regardless of length. *)
Definition statedMixedRule (toLowerCase : jsstring -> jsstring)
           (rawText : jsstring) : Prop :=
  isMixedContent rawText = true ->
  kind (createTextSignalSync toLowerCase rawText) = KMixed.

End Text.

Import Text.

(* ===================================================================== *)
(** * hash.ts: node hashing, fingerprints, similarity *)
(* ===================================================================== *)

Module Hash.

Local Open Scope float_scope.

Definition quantizeBbox (b : BBox01) (step : number) : BBox01 :=
  mkBBox (Math_round (bx b / step) * step)
         (Math_round (by_ b / step) * step)
         (Math_round (bw b / step) * step)
         (Math_round (bh b / step) * step).

Definition bboxToString (b : BBox01) (precision : nat) : jsstring :=
  join (lit ",") (List.map (toFixed precision) [bx b; by_ b; bw b; bh b]).

Record NodeHashInput : Type := mkHashInput {
  in_role : jsstring;
  in_bbox : jsstring;
  in_interactive : bool;
  in_visible : bool;
  in_enabled : option bool;
  in_semantic : option jsstring;
  in_text_hash : option jsstring;
  in_name_hash : option jsstring;
  in_z : option number
}.

Definition nodeToHashInput (node : UINode) : NodeHashInput :=
  let qbbox := quantizeBbox (bbox node) BBOX_QUANT_STEP in
  mkHashInput (roleName (role node)) (bboxToString qbbox 3)
              (interactive node) (visible node) (enabled node)
              (semantic node) (text_hash node) (name_hash node) (z node).

(** [HashOptions]: every member may be left out. *)
Record HashOptions : Type := mkHashOptions {
  includeText : option bool;
  includeName : option bool;
  includeZ : option bool
}.

Definition noOptions : HashOptions := mkHashOptions None None None.

(** [{ ...DEFAULT_HASH_OPTIONS, ...options }], member by member. *)
Definition optIncludeText (o : HashOptions) : bool :=
  match includeText o with Some b => b | None => true end.
Definition optIncludeName (o : HashOptions) : bool :=
  match includeName o with Some b => b | None => true end.
Definition optIncludeZ (o : HashOptions) : bool :=
  match includeZ o with Some b => b | None => false end.

Definition flag01 (b : bool) : jsstring := if b then lit "1" else lit "0".

Definition hashParts (input : NodeHashInput) (options : HashOptions)
  : list jsstring :=
  [ lit "r:" ++ in_role input;
    lit "b:" ++ in_bbox input;
    lit "i:" ++ flag01 (in_interactive input);
    lit "v:" ++ flag01 (in_visible input) ]
  ++ match in_enabled input with
     | Some e => [lit "e:" ++ flag01 e]
     | None => []
     end
  ++ match in_semantic input with
     | Some s => if truthy_str s then [lit "s:" ++ s] else []
     | None => []
     end
  ++ match in_text_hash input with
     | Some t =>
         if optIncludeText options && truthy_str t
         then [lit "t:" ++ slice0 16 t] else []
     | None => []
     end
  ++ match in_name_hash input with
     | Some n =>
         if optIncludeName options && truthy_str n
         then [lit "n:" ++ slice0 16 n] else []
     | None => []
     end
  ++ match in_z input with
     | Some zv =>
         if optIncludeZ options then [lit "z:" ++ Number_toString zv] else []
     | None => []
     end.

Definition hashNodeShallow (node : UINode) (options : HashOptions) : jsstring :=
  sha256Sync (join (lit "|") (hashParts (nodeToHashInput node) options)).

(** The comparator of the sort in [hashNodeDeep]. *)
Definition childCmp (a b : BBox01) : number :=
  let yDiff := by_ a - by_ b in
  if BBOX_QUANT_STEP <? Math_abs yDiff then yDiff
  else bx a - bx b.

Definition combineHashes (shallowHash : jsstring) (childHashes : list jsstring)
  : jsstring :=
  sha256Sync (shallowHash ++ lit "|c:[" ++ join (lit ",") childHashes ++ lit "]").

(** [hashNodeDeep]. The children are sorted by their bounding boxes and then
    hashed; here each child is paired with its deep hash before the sort so
    that the recursion is structural ([hashNodeDeep_unfold] below gives the
    equation in the order of the source). *)
Fixpoint hashNodeDeep (options : HashOptions) (node : UINode) : jsstring :=
  let shallowHash := hashNodeShallow node options in
  match children node with
  | None => shallowHash
  | Some [] => shallowHash
  | Some cs =>
      let keyed := List.map (fun c => (bbox c, hashNodeDeep options c)) cs in
      let sorted := js_sort (fun p q => childCmp (fst p) (fst q)) keyed in
      combineHashes shallowHash (List.map snd sorted)
  end.

Definition aspectKey (capture : WebSketchCapture) : jsstring :=
  toFixed 2 (aspect (viewport capture)).

Definition fingerprintCapture (capture : WebSketchCapture) : jsstring :=
  let rootHash := hashNodeDeep noOptions (root capture) in
  sha256Sync (rootHash ++ lit "|a:" ++ aspectKey capture).

Definition layoutOptions : HashOptions :=
  mkHashOptions (Some false) (Some false) None.

Definition fingerprintLayout (capture : WebSketchCapture) : jsstring :=
  let rootHash := hashNodeDeep layoutOptions (root capture) in
  sha256Sync (rootHash ++ lit "|a:" ++ aspectKey capture).

Definition bboxSimilarity (a b : BBox01) : number :=
  let x1 := Math_max (bx a) (bx b) in
  let y1 := Math_max (by_ a) (by_ b) in
  let x2 := Math_min (bx a + bw a) (bx b + bw b) in
  let y2 := Math_min (by_ a + bh a) (by_ b + bh b) in
  let intersection := Math_max 0 (x2 - x1) * Math_max 0 (y2 - y1) in
  let areaA := bw a * bh a in
  let areaB := bw b * bh b in
  let union := areaA + areaB - intersection in
  if union =? 0 then 0 else intersection / union.

(** [a && b && a === b] on two optional strings. *)
Definition bothTruthyEqual (a b : option jsstring) : bool :=
  match a, b with
  | Some x, Some y => truthy_str x && truthy_str y && str_eqb x y
  | _, _ => false
  end.

(** [nodeSimilarity]: the pair (score, weights) the function accumulates. *)
Definition similarityParts (a b : UINode) : number * number :=
  let score := 0 in
  let weights := 0 in
  let score := if role_eqb (role a) (role b) then score + 3 else score in
  let weights := weights + 3 in
  let bboxSim := bboxSimilarity (bbox a) (bbox b) in
  let score := score + bboxSim * 2 in
  let weights := weights + 2 in
  let score := if Bool.eqb (interactive a) (interactive b)
               then score + 1 else score in
  let weights := weights + 1 in
  let '(score, weights) :=
    if bothTruthyEqual (semantic a) (semantic b) then (score + 2, weights)
    else if truthy (semantic a) || truthy (semantic b)
         then (score, weights + 2)
         else (score, weights) in
  let score := if bothTruthyEqual (text_hash a) (text_hash b)
               then score + 1 else score in
  let weights := weights + 1 in
  (score, weights).

Definition nodeSimilarity (a b : UINode) : number :=
  let '(score, weights) := similarityParts a b in score / weights.

End Hash.

Import Hash.

(* ===================================================================== *)
(** * Trees: node-wise rewriting *)
(* ===================================================================== *)

Module Tree.

(** The node [n] with its [children] member replaced. *)
Definition withChildren (n : UINode) (cs : option (list UINode)) : UINode :=
  mkNode (id n) (role n) (semantic n) (name_hash n) (text n) (bbox n) (z n)
         (interactive n) (enabled n) (visible n) (focusable n) cs (flags n).

(** Rewrite every node of a tree with [g] (which looks at the members of
    the node itself), keeping the shape of the tree. *)
Fixpoint mapTree (g : UINode -> UINode) (n : UINode) : UINode :=
  withChildren (g n)
    (match children n with
     | Some cs => Some (List.map (mapTree g) cs)
     | None => None
     end).

Definition mapCapture (g : UINode -> UINode) (c : WebSketchCapture)
  : WebSketchCapture :=
  mkCapture (version c) (url c) (timestamp_ms c) (viewport c) (compiler c)
            (mapTree g (root c)).

End Tree.

Import Tree.

(* ===================================================================== *)
(** * diff.ts: the diff engine *)
(* ===================================================================== *)

Module Diff.

Local Open Scope float_scope.

Inductive ChangeType : Type :=
  | added | removed | moved | resized
  | text_changed | interactive_changed | role_changed | children_changed.

Record BboxDelta : Type := mkDelta {
  dx : number; dy : number; dw : number; dh : number
}.

Record NodeChange : Type := mkChange {
  ctype : ChangeType;
  nodeA : option UINode;
  nodeB : option UINode;
  similarity : option number;
  bboxDelta : option BboxDelta;
  description : jsstring
}.

(** [Record<ChangeType, number>]. *)
Record Counts : Type := mkCounts {
  n_added : nat;
  n_removed : nat;
  n_moved : nat;
  n_resized : nat;
  n_text_changed : nat;
  n_interactive_changed : nat;
  n_role_changed : nat;
  n_children_changed : nat
}.

Record DiffSummary : Type := mkSummary {
  counts : Counts;
  identical : bool;
  fingerprintsMatch : bool;
  layoutFingerprintsMatch : bool;
  nodeCountA : nat;
  nodeCountB : nat
}.

Record Metadata : Type := mkMetadata {
  urlChanged : bool;
  viewportChanged : bool;
  compilerVersionMatch : bool
}.

Record DiffResult : Type := mkResult {
  summary : DiffSummary;
  changes : list NodeChange;
  topChanges : list NodeChange;
  metadata : Metadata
}.

(** [DiffOptions]: every member may be left out. *)
Record DiffOptions : Type := mkDiffOptions {
  d_includeText : option bool;
  d_includeName : option bool;
  d_matchThreshold : option number;
  d_topChangesLimit : option number;
  d_moveThreshold : option number;
  d_resizeThreshold : option number
}.

(** [Required<DiffOptions>]. *)
Record Options : Type := mkOptions {
  o_includeText : bool;
  o_includeName : bool;
  matchThreshold : number;
  topChangesLimit : number;
  moveThreshold : number;
  resizeThreshold : number
}.

Definition DEFAULT_OPTIONS : Options :=
  mkOptions true true 0.5 10 0.01 0.01.

Definition orDefault {A} (o : option A) (d : A) : A :=
  match o with Some x => x | None => d end.

(** [{ ...DEFAULT_OPTIONS, ...options }]. *)
Definition mergeOptions (options : DiffOptions) : Options :=
  mkOptions
    (orDefault (d_includeText options) (o_includeText DEFAULT_OPTIONS))
    (orDefault (d_includeName options) (o_includeName DEFAULT_OPTIONS))
    (orDefault (d_matchThreshold options) (matchThreshold DEFAULT_OPTIONS))
    (orDefault (d_topChangesLimit options) (topChangesLimit DEFAULT_OPTIONS))
    (orDefault (d_moveThreshold options) (moveThreshold DEFAULT_OPTIONS))
    (orDefault (d_resizeThreshold options) (resizeThreshold DEFAULT_OPTIONS)).

Definition noDiffOptions : DiffOptions :=
  mkDiffOptions None None None None None None.

Record FlatNode : Type := mkFlat {
  node : UINode;
  depth : nat;
  path : jsstring;
  fhash : jsstring
}.

Fixpoint flattenTree (n : UINode) (depth : nat) (path : jsstring)
  : list FlatNode :=
  let currentPath :=
    if truthy_str path then path ++ lit "/" ++ roleName (role n)
    else roleName (role n) in
  let hash := hashNodeShallow n noOptions in
  mkFlat n depth currentPath hash ::
  match children n with
  | Some cs =>
      (fix each (l : list UINode) (i : nat) : list FlatNode :=
         match l with
         | [] => []
         | child :: l' =>
             let childPath :=
               currentPath ++ lit "[" ++ intToString (Z.of_nat i) ++ lit "]" in
             flattenTree child (S depth) childPath ++ each l' (S i)
         end) cs O
  | None => []
  end.

Fixpoint countNodes (n : UINode) : nat :=
  match children n with
  | Some cs => fold_left (fun count child => (count + countNodes child)%nat) cs 1%nat
  | None => 1%nat
  end.

Record Match : Type := mkMatch {
  m_nodeA : FlatNode;
  m_nodeB : FlatNode;
  m_similarity : number
}.

Record Candidate : Type := mkCandidate { ci : nat; cj : nat; sim : number }.

(** A list with the index of each element. *)
Fixpoint indexedFrom {A} (i : nat) (l : list A) : list (nat * A) :=
  match l with
  | [] => []
  | x :: l' => (i, x) :: indexedFrom (S i) l'
  end.

(** The body of the double loop for one pair [(i, j)]. *)
Definition candidateAt (options : Options) (i : nat) (a : FlatNode)
           (j : nat) (b : FlatNode) : list Candidate :=
  if negb (role_eqb (role (node a)) (role (node b)))
     && (bboxSimilarity (bbox (node a)) (bbox (node b)) <? 0.3)
  then []
  else
    let s := nodeSimilarity (node a) (node b) in
    if matchThreshold options <=? s then [mkCandidate i j s] else [].

Definition buildCandidates (nodesA nodesB : list FlatNode) (options : Options)
  : list Candidate :=
  flat_map (fun ia =>
              flat_map (fun jb => candidateAt options (fst ia) (snd ia)
                                              (fst jb) (snd jb))
                       (indexedFrom O nodesB))
           (indexedFrom O nodesA).

Definition has (s : list nat) (i : nat) : bool := existsb (Nat.eqb i) s.

Record MatchState : Type := mkState {
  matches : list Match;
  usedA : list nat;
  usedB : list nat
}.

(** One turn of the greedy loop. An index of a candidate always lies in its
    list; the lookup is [nodesA[i]], [nodesB[j]]. *)
Definition greedyStep (nodesA nodesB : list FlatNode) (st : MatchState)
           (c : Candidate) : MatchState :=
  if has (usedA st) (ci c) || has (usedB st) (cj c) then st
  else
    match nth_error nodesA (ci c), nth_error nodesB (cj c) with
    | Some a, Some b =>
        mkState (matches st ++ [mkMatch a b (sim c)])
                (ci c :: usedA st) (cj c :: usedB st)
    | _, _ => st
    end.

Definition unmatchedOf (nodes : list FlatNode) (used : list nat)
  : list FlatNode :=
  List.map snd (filter (fun ix => negb (has used (fst ix))) (indexedFrom O nodes)).

Record Matching : Type := mkMatching {
  r_matches : list Match;
  unmatchedA : list FlatNode;
  unmatchedB : list FlatNode
}.

Definition findMatches (nodesA nodesB : list FlatNode) (options : Options)
  : Matching :=
  let candidates := buildCandidates nodesA nodesB options in
  let candidates := js_sort (fun a b => sim b - sim a) candidates in
  let st := fold_left (greedyStep nodesA nodesB) candidates (mkState [] [] []) in
  mkMatching (matches st) (unmatchedOf nodesA (usedA st))
             (unmatchedOf nodesB (usedB st)).

Definition computeBboxDelta (a b : BBox01) : BboxDelta :=
  mkDelta (bx b - bx a) (by_ b - by_ a) (bw b - bw a) (bh b - bh a).

(** [a.role + (a.semantic ? ":" + a.semantic : "")]. *)
Definition label (a : UINode) : jsstring :=
  roleName (role a) ++
  (if truthy (semantic a) then lit ":" ++ orDefault (semantic a) [] else []).

Definition boolToString (b : bool) : jsstring :=
  if b then lit "true" else lit "false".

(** The arrow U+2192 of the descriptions. *)
Definition arrow : jsstring := [32; 8594; 32]%Z.

(** [a.text?.hash !== b.text?.hash]. *)
Definition optstr_eqb (a b : option jsstring) : bool :=
  match a, b with
  | Some x, Some y => str_eqb x y
  | None, None => true
  | _, _ => false
  end.

(** [a.text?.len || 0]. *)
Definition textLen (a : UINode) : number :=
  match text a with
  | Some t => match len t with Some l => orZero l | None => 0 end
  | None => 0
  end.

Definition childCount (a : UINode) : nat := length (childList a).

Definition classifyMatchChanges (m : Match) (options : Options)
  : list NodeChange :=
  let a := node (m_nodeA m) in
  let b := node (m_nodeB m) in
  let similarity := m_similarity m in
  let delta := computeBboxDelta (bbox a) (bbox b) in
  let moved_ := (moveThreshold options <? Math_abs (dx delta))
                || (moveThreshold options <? Math_abs (dy delta)) in
  let resized_ := (resizeThreshold options <? Math_abs (dw delta))
                  || (resizeThreshold options <? Math_abs (dh delta)) in
  (if moved_ then
     [mkChange moved (Some a) (Some b) (Some similarity) (Some delta)
        (label a ++ lit " moved by (" ++ toFixed 1 (dx delta * 100)
         ++ lit "%, " ++ toFixed 1 (dy delta * 100) ++ lit "%)")]
   else [])
  ++ (if resized_ then
        [mkChange resized (Some a) (Some b) (Some similarity) (Some delta)
           (label a ++ lit " resized by (" ++ toFixed 1 (dw delta * 100)
            ++ lit "%, " ++ toFixed 1 (dh delta * 100) ++ lit "%)")]
      else [])
  ++ (if negb (role_eqb (role a) (role b)) then
        [mkChange role_changed (Some a) (Some b) (Some similarity) None
           (lit "Role changed from " ++ roleName (role a) ++ lit " to "
            ++ roleName (role b))]
      else [])
  ++ (if o_includeText options && negb (optstr_eqb (text_hash a) (text_hash b))
      then
        [mkChange text_changed (Some a) (Some b) (Some similarity) None
           (label a ++ lit " text changed (" ++ Number_toString (textLen a)
            ++ arrow ++ Number_toString (textLen b) ++ lit " chars)")]
      else [])
  ++ (if negb (Bool.eqb (interactive a) (interactive b)) then
        [mkChange interactive_changed (Some a) (Some b) (Some similarity) None
           (label a ++ lit " interactive: " ++ boolToString (interactive a)
            ++ arrow ++ boolToString (interactive b))]
      else [])
  ++ (if negb (childCount a =? childCount b)%nat then
        [mkChange children_changed (Some a) (Some b) (Some similarity) None
           (label a ++ lit " children: "
            ++ intToString (Z.of_nat (childCount a)) ++ arrow
            ++ intToString (Z.of_nat (childCount b)))]
      else []).

Definition bboxArea (b : BBox01) : number := bw b * bh b.

Definition position (n : UINode) : jsstring :=
  lit "(" ++ toFixed 0 (bx (bbox n) * 100) ++ lit "%, "
  ++ toFixed 0 (by_ (bbox n) * 100) ++ lit "%)".

Definition addedChange (flat : FlatNode) : NodeChange :=
  mkChange added None (Some (node flat)) None None
           (lit "Added " ++ label (node flat) ++ lit " at " ++ position (node flat)).

Definition removedChange (flat : FlatNode) : NodeChange :=
  mkChange removed (Some (node flat)) None None None
           (lit "Removed " ++ label (node flat) ++ lit " from "
            ++ position (node flat)).

Definition zeroCounts : Counts := mkCounts 0 0 0 0 0 0 0 0.

(** [counts[change.type]++]. *)
Definition bump (c : Counts) (change : NodeChange) : Counts :=
  match ctype change with
  | added => mkCounts (S (n_added c)) (n_removed c) (n_moved c) (n_resized c)
      (n_text_changed c) (n_interactive_changed c) (n_role_changed c)
      (n_children_changed c)
  | removed => mkCounts (n_added c) (S (n_removed c)) (n_moved c) (n_resized c)
      (n_text_changed c) (n_interactive_changed c) (n_role_changed c)
      (n_children_changed c)
  | moved => mkCounts (n_added c) (n_removed c) (S (n_moved c)) (n_resized c)
      (n_text_changed c) (n_interactive_changed c) (n_role_changed c)
      (n_children_changed c)
  | resized => mkCounts (n_added c) (n_removed c) (n_moved c) (S (n_resized c))
      (n_text_changed c) (n_interactive_changed c) (n_role_changed c)
      (n_children_changed c)
  | text_changed => mkCounts (n_added c) (n_removed c) (n_moved c) (n_resized c)
      (S (n_text_changed c)) (n_interactive_changed c) (n_role_changed c)
      (n_children_changed c)
  | interactive_changed => mkCounts (n_added c) (n_removed c) (n_moved c)
      (n_resized c) (n_text_changed c) (S (n_interactive_changed c))
      (n_role_changed c) (n_children_changed c)
  | role_changed => mkCounts (n_added c) (n_removed c) (n_moved c) (n_resized c)
      (n_text_changed c) (n_interactive_changed c) (S (n_role_changed c))
      (n_children_changed c)
  | children_changed => mkCounts (n_added c) (n_removed c) (n_moved c)
      (n_resized c) (n_text_changed c) (n_interactive_changed c)
      (n_role_changed c) (S (n_children_changed c))
  end.

(** [a.nodeA?.bbox || a.nodeB?.bbox || [0, 0, 0, 0]]. *)
Definition changeArea (c : NodeChange) : number :=
  match nodeA c, nodeB c with
  | Some a, _ => bboxArea (bbox a)
  | None, Some b => bboxArea (bbox b)
  | None, None => bboxArea (mkBBox 0 0 0 0)
  end.

Definition diff (captureA captureB : WebSketchCapture) (options : DiffOptions)
  : DiffResult :=
  let opts := mergeOptions options in
  let flatA := flattenTree (root captureA) O [] in
  let flatB := flattenTree (root captureB) O [] in
  let m := findMatches flatA flatB opts in
  let changes :=
    flat_map (fun mt => classifyMatchChanges mt opts) (r_matches m)
    ++ List.map addedChange (unmatchedB m)
    ++ List.map removedChange (unmatchedA m) in
  let counts := fold_left bump changes zeroCounts in
  let sortedChanges :=
    js_sort (fun a b => changeArea b - changeArea a) changes in
  let topChanges := sliceTo sortedChanges (topChangesLimit opts) in
  let identical := (length changes =? 0)%nat in
  let nodeCountA := countNodes (root captureA) in
  let nodeCountB := countNodes (root captureB) in
  let metadata :=
    mkMetadata
      (negb (str_eqb (url captureA) (url captureB)))
      (negb (w_px (viewport captureA) =? w_px (viewport captureB))
       || negb (h_px (viewport captureA) =? h_px (viewport captureB)))
      (str_eqb (cversion (compiler captureA)) (cversion (compiler captureB))) in
  mkResult
    (mkSummary counts identical
       (str_eqb (fingerprintCapture captureA) (fingerprintCapture captureB))
       (str_eqb (fingerprintLayout captureA) (fingerprintLayout captureB))
       nodeCountA nodeCountB)
    changes topChanges metadata.

End Diff.

Import Diff.

(* ===================================================================== *)
(** * errors.ts: validation and strict parsing *)
(* ===================================================================== *)

Module Json.

(** A parsed JSON value. An object lists its members in order and holds
    each key once, as [JSON.parse] produces it. *)
#[warnings="-register-all"]
Inductive JSON : Type :=
  | JNull
  | JBool (b : bool)
  | JNum (x : number)
  | JStr (s : jsstring)
  | JArr (elems : list JSON)
  | JObj (members : list (jsstring * JSON)).

(** [obj.key]; [None] is [undefined]. *)
Fixpoint getProp (members : list (jsstring * JSON)) (key : jsstring)
  : option JSON :=
  match members with
  | [] => None
  | (k, v) :: rest => if str_eqb k key then Some v else getProp rest key
  end.

(** The outcome of [JSON.parse]: a value, or a thrown [SyntaxError]. *)
Inductive ParseOutcome : Type :=
  | Parsed (data : JSON)
  | SyntaxError (name message : jsstring).

End Json.

Import Json.

Module Errors.

Inductive WebSketchErrorCode : Type :=
  | WS_INVALID_JSON
  | WS_INVALID_CAPTURE
  | WS_INVALID_ARGS
  | WS_UNSUPPORTED_VERSION
  | WS_LIMIT_EXCEEDED
  | WS_NOT_FOUND
  | WS_PERMISSION_DENIED
  | WS_IO_ERROR
  | WS_INTERNAL.

Record WebSketchValidationIssue : Type := issue {
  i_path : jsstring;
  i_expected : jsstring;
  i_received : jsstring;
  i_message : jsstring
}.

(** [WebSketchError]; the validation variant carries [issues]. *)
Record WebSketchError : Type := mkError {
  code : WebSketchErrorCode;
  message : jsstring;
  details : option jsstring;
  e_path : option jsstring;
  e_expected : option jsstring;
  e_received : option jsstring;
  hint : option jsstring;
  cause : option (jsstring * jsstring);
  issues : option (list WebSketchValidationIssue)
}.

Record WebSketchLimits : Type := mkLimits {
  maxNodes : number;
  maxDepth : number;
  maxStringLength : number
}.

(** [Partial<WebSketchLimits>]. *)
Record PartialLimits : Type := mkPartialLimits {
  p_maxNodes : option number;
  p_maxDepth : option number;
  p_maxStringLength : option number
}.

Definition noLimits : PartialLimits := mkPartialLimits None None None.

Definition DEFAULT_LIMITS : WebSketchLimits :=
  mkLimits 10000%float 50%float 10000%float.

(** [{ ...DEFAULT_LIMITS, ...limits }]. *)
Definition resolveLimits (limits : PartialLimits) : WebSketchLimits :=
  mkLimits (orDefault (p_maxNodes limits) (maxNodes DEFAULT_LIMITS))
           (orDefault (p_maxDepth limits) (maxDepth DEFAULT_LIMITS))
           (orDefault (p_maxStringLength limits)
                      (maxStringLength DEFAULT_LIMITS)).

Definition allRoles : list UIRole :=
  [PAGE; NAV; HEADER; FOOTER; SECTION; CARD; LIST; TABLE;
   MODAL; TOAST; DROPDOWN;
   FORM; INPUT; BUTTON; LINK; CHECKBOX; RADIO; ICON;
   IMAGE; TEXT;
   PAGINATION;
   UNKNOWN].

Definition VALID_ROLES : list jsstring := List.map roleName allRoles.

Definition isValidRole (s : jsstring) : bool := existsb (str_eqb s) VALID_ROLES.

(** The double quote. *)
Definition dq : jsstring := [34%Z].

Definition quoted (s : jsstring) : jsstring := dq ++ s ++ dq.

Definition typeOf (value : option JSON) : jsstring :=
  match value with
  | None => lit "undefined"
  | Some JNull => lit "null"
  | Some (JArr _) => lit "array"
  | Some (JBool _) => lit "boolean"
  | Some (JNum _) => lit "number"
  | Some (JStr _) => lit "string"
  | Some (JObj _) => lit "object"
  end.

Definition natStr (n : nat) : jsstring := intToString (Z.of_nat n).

(** The checks of [validateNode] on the members of the node itself, from
    [role] to [text], in the order of the source. *)
Definition roleIssues (node : list (jsstring * JSON)) (path : jsstring)
  : list WebSketchValidationIssue :=
  match getProp node (lit "role") with
  | Some (JStr r) =>
      if isValidRole r then []
      else [issue (path ++ lit ".role")
                  (lit "one of [" ++ join (lit ", ") VALID_ROLES ++ lit "]")
                  (quoted r)
                  (lit "Invalid UI role: " ++ quoted r)]
  | other =>
      [issue (path ++ lit ".role") (lit "string (UIRole)") (typeOf other)
             (lit "Node role is required and must be a string")]
  end.

Definition bboxElementIssue (bbox : list JSON) (path : jsstring) (i : nat)
  : list WebSketchValidationIssue :=
  match nth_error bbox i with
  | Some (JNum _) => []
  | other =>
      [issue (path ++ lit ".bbox[" ++ natStr i ++ lit "]") (lit "number")
             (typeOf other)
             (lit "bbox element " ++ natStr i ++ lit " must be a number")]
  end.

Definition bboxIssues (node : list (jsstring * JSON)) (path : jsstring)
  : list WebSketchValidationIssue :=
  match getProp node (lit "bbox") with
  | Some (JArr bbox) =>
      if negb (length bbox =? 4)%nat then
        [issue (path ++ lit ".bbox") (lit "array of 4 numbers")
               (lit "array of " ++ natStr (length bbox))
               (lit "Node bbox must have exactly 4 elements")]
      else flat_map (bboxElementIssue bbox path) [0; 1; 2; 3]%nat
  | other =>
      [issue (path ++ lit ".bbox") (lit "array of 4 numbers") (typeOf other)
             (lit "Node bbox is required and must be an array")]
  end.

Definition booleanIssue (node : list (jsstring * JSON)) (path : jsstring)
           (key : jsstring) : list WebSketchValidationIssue :=
  match getProp node key with
  | Some (JBool _) => []
  | other =>
      [issue (path ++ lit "." ++ key) (lit "boolean") (typeOf other)
             (lit "Node " ++ key ++ lit " is required and must be a boolean")]
  end.

Definition idIssues (node : list (jsstring * JSON)) (path : jsstring)
  : list WebSketchValidationIssue :=
  match getProp node (lit "id") with
  | Some (JStr _) => []
  | other =>
      [issue (path ++ lit ".id") (lit "string") (typeOf other)
             (lit "Node id is required and must be a string")]
  end.

Definition textIssues (node : list (jsstring * JSON)) (path : jsstring)
  : list WebSketchValidationIssue :=
  match getProp node (lit "text") with
  | None => []
  | Some (JObj text) =>
      match getProp text (lit "kind") with
      | Some (JStr _) => []
      | other =>
          [issue (path ++ lit ".text.kind") (lit "string (TextKind)")
                 (typeOf other) (lit "TextSignal kind is required")]
      end
  | other =>
      [issue (path ++ lit ".text") (lit "TextSignal object") (typeOf other)
             (lit "Node text must be a TextSignal object")]
  end.

Definition memberIssues (node : list (jsstring * JSON)) (path : jsstring)
  : list WebSketchValidationIssue :=
  roleIssues node path ++ bboxIssues node path
  ++ booleanIssue node path (lit "interactive")
  ++ booleanIssue node path (lit "visible")
  ++ idIssues node path ++ textIssues node path.

(** The mutable [state.nodeCount] and [issues] array, threaded. *)
Definition VState : Type := (Z * list WebSketchValidationIssue)%type.

Definition push (st : VState) (i : WebSketchValidationIssue) : VState :=
  (fst st, snd st ++ [i]).

Definition childPath (path : jsstring) (i : nat) : jsstring :=
  path ++ lit ".children[" ++ natStr i ++ lit "]".

(** [issues.length > 100]. *)
Definition tooManyIssues (st : VState) : bool := (100 <? length (snd st))%nat.
Arguments tooManyIssues : simpl never.

(** The loop over [node.children], with the early [return] once more than
    100 issues are collected. *)
Fixpoint eachChild (visit : JSON -> jsstring -> VState -> VState)
         (path : jsstring) (children : list JSON) (i : nat) (st : VState)
  : VState :=
  match children with
  | [] => st
  | child :: rest =>
      let st' := visit child (childPath path i) st in
      if tooManyIssues st' then st'
      else eachChild visit path rest (S i) st'
  end.

Definition nodeLimitIssue (path : jsstring) (limits : WebSketchLimits)
           (nodeCount : Z) : WebSketchValidationIssue :=
  issue path (lit "<= " ++ Number_toString (maxNodes limits) ++ lit " nodes")
        (intToString nodeCount ++ lit "+")
        (lit "Node count exceeds maxNodes limit ("
         ++ Number_toString (maxNodes limits) ++ lit ")").

Definition depthLimitIssue (path : jsstring) (limits : WebSketchLimits)
           (depth : Z) : WebSketchValidationIssue :=
  issue path (lit "depth <= " ++ Number_toString (maxDepth limits))
        (lit "depth " ++ intToString depth)
        (lit "Tree depth exceeds maxDepth limit ("
         ++ Number_toString (maxDepth limits) ++ lit ")").

Definition childrenNotArray (path : jsstring) (v : JSON)
  : WebSketchValidationIssue :=
  issue (path ++ lit ".children") (lit "array") (typeOf (Some v))
        (lit "Node children must be an array").

(** [count > limit] for a counter of the code and a limit. *)
Definition exceeds (count : Z) (limit : number) : bool :=
  PrimFloat.ltb limit (ofZ count).

(** [validateNode]. The [children] member is looked up by a walk over the
    members so that the recursion is structural; [validateNode_unfold]
    below states the function with [getProp], as the source reads. *)
Fixpoint validateNode (data : JSON) (limits : WebSketchLimits) (depth : Z)
         (path : jsstring) (st : VState) : VState :=
  let st := (fst st + 1, snd st)%Z in
  if exceeds (fst st) (maxNodes limits)
  then push st (nodeLimitIssue path limits (fst st))
  else if exceeds depth (maxDepth limits)
  then push st (depthLimitIssue path limits depth)
  else
    match data with
    | JObj node =>
        let st := (fst st, snd st ++ memberIssues node path) in
        (fix lookup (ms : list (jsstring * JSON)) : VState :=
           match ms with
           | [] => st
           | (k, v) :: rest =>
               if str_eqb k (lit "children") then
                 match v with
                 | JArr children =>
                     (fix each (cs : list JSON) (i : nat) (st : VState)
                        : VState :=
                        match cs with
                        | [] => st
                        | child :: cs' =>
                            let st' :=
                              validateNode child limits (depth + 1)%Z
                                           (childPath path i) st in
                            if tooManyIssues st' then st'
                            else each cs' (S i) st'
                        end) children O st
                 | _ => push st (childrenNotArray path v)
                 end
               else lookup rest
           end) node
    | other =>
        push st (issue path (lit "object") (typeOf (Some other))
                       (lit "Node must be an object"))
    end.

Definition stringIssue (obj : list (jsstring * JSON)) (key path expected
                        message : jsstring)
  : list WebSketchValidationIssue :=
  match getProp obj key with
  | Some (JStr _) => []
  | other => [issue path expected (typeOf other) message]
  end.

Definition numberIssue (obj : list (jsstring * JSON)) (key path message
                        : jsstring)
  : list WebSketchValidationIssue :=
  match getProp obj key with
  | Some (JNum _) => []
  | other => [issue path (lit "number") (typeOf other) message]
  end.

Definition versionIssues (obj : list (jsstring * JSON))
  : list WebSketchValidationIssue :=
  match getProp obj (lit "version") with
  | Some (JStr v) =>
      if str_eqb v (lit "0.1") then []
      else [issue (lit "version") (quoted (lit "0.1")) (quoted v)
                  (lit "Unsupported version: " ++ quoted v)]
  | other =>
      [issue (lit "version") (quoted (lit "0.1")) (typeOf other)
             (lit "Capture version is required")]
  end.

Definition viewportIssues (obj : list (jsstring * JSON))
  : list WebSketchValidationIssue :=
  match getProp obj (lit "viewport") with
  | Some (JObj vp) =>
      numberIssue vp (lit "w_px") (lit "viewport.w_px")
                  (lit "Viewport w_px is required")
      ++ numberIssue vp (lit "h_px") (lit "viewport.h_px")
                     (lit "Viewport h_px is required")
      ++ numberIssue vp (lit "aspect") (lit "viewport.aspect")
                     (lit "Viewport aspect is required")
  | other =>
      [issue (lit "viewport") (lit "ViewportMeta object") (typeOf other)
             (lit "Capture viewport is required")]
  end.

Definition compilerIssues (obj : list (jsstring * JSON))
  : list WebSketchValidationIssue :=
  match getProp obj (lit "compiler") with
  | Some (JObj comp) =>
      stringIssue comp (lit "name") (lit "compiler.name") (lit "string")
                  (lit "Compiler name is required")
      ++ stringIssue comp (lit "version") (lit "compiler.version") (lit "string")
                     (lit "Compiler version is required")
      ++ stringIssue comp (lit "options_hash") (lit "compiler.options_hash")
                     (lit "string") (lit "Compiler options_hash is required")
  | other =>
      [issue (lit "compiler") (lit "CompilerMeta object") (typeOf other)
             (lit "Capture compiler is required")]
  end.

Definition headerIssues (obj : list (jsstring * JSON))
  : list WebSketchValidationIssue :=
  versionIssues obj
  ++ stringIssue obj (lit "url") (lit "url") (lit "string")
                 (lit "Capture url is required")
  ++ numberIssue obj (lit "timestamp_ms") (lit "timestamp_ms")
                 (lit "Capture timestamp_ms is required")
  ++ viewportIssues obj ++ compilerIssues obj.

Definition validateCapture (data : JSON) (limits : PartialLimits)
  : list WebSketchValidationIssue :=
  let resolvedLimits := resolveLimits limits in
  match data with
  | JObj obj =>
      let issues := headerIssues obj in
      match getProp obj (lit "root") with
      | None | Some JNull =>
          issues ++ [issue (lit "root") (lit "UINode object")
                           (typeOf (getProp obj (lit "root")))
                           (lit "Capture root node is required")]
      | Some root =>
          snd (validateNode root resolvedLimits 0%Z (lit "root") (0%Z, issues))
      end
  | other =>
      [issue [] (lit "object") (typeOf (Some other))
             (lit "Capture must be an object")]
  end.

(** [String.prototype.includes]. *)
Fixpoint startsWith (needle s : jsstring) : bool :=
  match needle, s with
  | [], _ => true
  | c :: needle', d :: s' => (c =? d)%Z && startsWith needle' s'
  | _ :: _, [] => false
  end.

Fixpoint includes (s needle : jsstring) : bool :=
  startsWith needle s ||
  match s with
  | [] => false
  | _ :: s' => includes s' needle
  end.

(** What [parseCapture] does: return the value, or throw. *)
Inductive Outcome : Type :=
  | Returns (data : JSON)
  | Throws (ws : WebSketchError).

Definition isVersionIssue (i : WebSketchValidationIssue) : bool :=
  str_eqb (i_path i) (lit "version")
  && negb (str_eqb (i_received i) (lit "undefined")).

Definition isLimitIssue (i : WebSketchValidationIssue) : bool :=
  includes (i_message i) (lit "exceeds maxNodes")
  || includes (i_message i) (lit "exceeds maxDepth").

Definition issueLine (i : WebSketchValidationIssue) : jsstring :=
  i_path i ++ lit ": " ++ i_message i.

Definition invalidCapture (found : list WebSketchValidationIssue)
  : WebSketchError :=
  mkError WS_INVALID_CAPTURE
    (lit "Invalid capture: " ++ natStr (length found)
     ++ lit " validation issue"
     ++ (if (1 <? length found)%nat then lit "s" else []) ++ lit " found")
    (Some (join (lit "; ") (List.map issueLine (firstn 5 found))))
    None None None
    (Some (lit "Check the capture JSON against the WebSketchCapture schema."))
    None (Some found).

Definition unsupportedVersion (versionIssue : WebSketchValidationIssue)
  : WebSketchError :=
  mkError WS_UNSUPPORTED_VERSION
    (lit "Unsupported capture version: " ++ i_received versionIssue)
    None None (Some (quoted (lit "0.1"))) (Some (i_received versionIssue))
    (Some (lit "This version of websketch-ir only supports version 0.1 captures."))
    None None.

Definition limitExceeded (limitIssue : WebSketchValidationIssue)
  : WebSketchError :=
  mkError WS_LIMIT_EXCEEDED (i_message limitIssue) None
    (Some (i_path limitIssue)) (Some (i_expected limitIssue))
    (Some (i_received limitIssue))
    (Some (lit "The capture exceeds configured resource limits. Try increasing limits or reducing capture complexity."))
    None None.

Definition invalidJson (name message : jsstring) : WebSketchError :=
  mkError WS_INVALID_JSON (lit "Failed to parse JSON") (Some message) None None
    None
    (Some (lit "Ensure the input is valid JSON. Check for trailing commas, unquoted keys, or missing brackets."))
    (Some (name, message)) None.

(** Step 2 of [parseCapture]: validate the parsed value and classify. *)
Definition classify (data : JSON) (limits : PartialLimits) : Outcome :=
  let found := validateCapture data limits in
  if (0 <? length found)%nat then
    match find isVersionIssue found with
    | Some versionIssue =>
        if negb (str_eqb (i_received versionIssue) (quoted (lit "0.1")))
        then Throws (unsupportedVersion versionIssue)
        else
          match find isLimitIssue found with
          | Some limitIssue => Throws (limitExceeded limitIssue)
          | None => Throws (invalidCapture found)
          end
    | None =>
        match find isLimitIssue found with
        | Some limitIssue => Throws (limitExceeded limitIssue)
        | None => Throws (invalidCapture found)
        end
    end
  else Returns data.

Section Parse.

(** [JSON.parse] is the runtime's; [parseCapture] is stated over it. *)
Variable JSON_parse : jsstring -> ParseOutcome.

Definition parseCapture (json : jsstring) (limits : PartialLimits) : Outcome :=
  match JSON_parse json with
  | SyntaxError name message => Throws (invalidJson name message)
  | Parsed data => classify data limits
  end.

End Parse.

End Errors.

Import Errors.

(* ===================================================================== *)
(** * Captures as JavaScript values; JSON.stringify and JSON.parse *)
(* ===================================================================== *)

Module Serial.

Definition optMember {A} (key : string) (f : A -> JSON) (o : option A)
  : list (jsstring * JSON) :=
  match o with
  | Some x => [(lit key, f x)]
  | None => []
  end.

Definition kindName (k : TextKind) : jsstring :=
  match k with
  | KNone => lit "none"
  | KShort => lit "short"
  | KSentence => lit "sentence"
  | KParagraph => lit "paragraph"
  | KMixed => lit "mixed"
  end.

Definition textToJSON (t : TextSignal) : JSON :=
  JObj ([(lit "kind", JStr (kindName (kind t)))]
        ++ optMember "hash" JStr (hash t)
        ++ optMember "len" JNum (len t)).

Definition flagsToJSON (f : UINodeFlags) : JSON :=
  JObj (optMember "sticky" JBool (sticky f)
        ++ optMember "scrollable" JBool (scrollable f)
        ++ optMember "repeated" JBool (repeated f)).

Definition bboxToJSON (b : BBox01) : JSON :=
  JArr [JNum (bx b); JNum (by_ b); JNum (bw b); JNum (bh b)].

(** A node of the data model as the JavaScript value it is: an object with
    the members of the node, the absent ones left out. *)
Fixpoint nodeToJSON (n : UINode) : JSON :=
  JObj ([(lit "id", JStr (Grammar.id n));
         (lit "role", JStr (roleName (role n)));
         (lit "bbox", bboxToJSON (bbox n));
         (lit "interactive", JBool (interactive n));
         (lit "visible", JBool (visible n))]
        ++ optMember "semantic" JStr (semantic n)
        ++ optMember "name_hash" JStr (name_hash n)
        ++ optMember "text" textToJSON (text n)
        ++ optMember "z" JNum (z n)
        ++ optMember "enabled" JBool (enabled n)
        ++ optMember "focusable" JBool (focusable n)
        ++ match children n with
           | Some cs => [(lit "children", JArr (List.map nodeToJSON cs))]
           | None => []
           end
        ++ optMember "flags" flagsToJSON (flags n)).

Definition viewportToJSON (v : ViewportMeta) : JSON :=
  JObj ([(lit "w_px", JNum (w_px v));
         (lit "h_px", JNum (h_px v));
         (lit "aspect", JNum (aspect v))]
        ++ optMember "scroll_y01" JNum (scroll_y01 v)).

Definition compilerToJSON (c : CompilerMeta) : JSON :=
  JObj [(lit "name", JStr (name c));
        (lit "version", JStr (cversion c));
        (lit "options_hash", JStr (options_hash c))].

(** A capture of the data model as the JavaScript value it is. *)
Definition toJSON (c : WebSketchCapture) : JSON :=
  JObj [(lit "version", JStr (version c));
        (lit "url", JStr (url c));
        (lit "timestamp_ms", JNum (timestamp_ms c));
        (lit "viewport", viewportToJSON (viewport c));
        (lit "compiler", compilerToJSON (compiler c));
        (lit "root", nodeToJSON (root c))].

(** ** [JSON.stringify] (no replacer, no indentation) *)

(** Four lowercase hexadecimal digits. *)
Definition hex4 (c : Z) : jsstring :=
  List.map (fun k => hexDigit (c / 16 ^ k mod 16)) [3; 2; 1; 0].

(** The escape [\uXXXX] of a code unit. *)
Definition escapeUnit (c : Z) : jsstring := [92; 117] ++ hex4 c.

Definition isHighSurrogate (c : Z) : bool := (55296 <=? c) && (c <=? 56319).
Definition isLowSurrogate (c : Z) : bool := (56320 <=? c) && (c <=? 57343).

(** A code unit that is not a surrogate, as [QuoteJSONString] writes it. *)
Definition quoteUnit (c : Z) : jsstring :=
  if c =? 8 then [92; 98]
  else if c =? 9 then [92; 116]
  else if c =? 10 then [92; 110]
  else if c =? 12 then [92; 102]
  else if c =? 13 then [92; 114]
  else if c =? 34 then [92; 34]
  else if c =? 92 then [92; 92]
  else if c <? 32 then escapeUnit c
  else [c].

(** The code points of the string in turn: a surrogate pair is copied, a
    lone surrogate is escaped. *)
Fixpoint quoteFrom (s : jsstring) : jsstring :=
  match s with
  | [] => []
  | c :: s' =>
      if isHighSurrogate c then
        match s' with
        | d :: s'' =>
            if isLowSurrogate d then c :: d :: quoteFrom s''
            else escapeUnit c ++ quoteFrom s'
        | [] => escapeUnit c
        end
      else if isLowSurrogate c then escapeUnit c ++ quoteFrom s'
      else quoteUnit c ++ quoteFrom s'
  end.

Definition QuoteJSONString (s : jsstring) : jsstring :=
  dq ++ quoteFrom s ++ dq.

(** A number: [Number::toString] when it is finite, [null] otherwise. *)
Definition numberText (x : number) : jsstring :=
  if isFinite x then Number_toString x else lit "null".

Fixpoint JSON_stringify (v : JSON) : jsstring :=
  match v with
  | JNull => lit "null"
  | JBool b => boolToString b
  | JNum x => numberText x
  | JStr s => QuoteJSONString s
  | JArr elems =>
      lit "[" ++ join (lit ",") (List.map JSON_stringify elems) ++ lit "]"
  | JObj members =>
      lit "{"
      ++ join (lit ",")
           (List.map (fun kv => QuoteJSONString (fst kv) ++ lit ":"
                                ++ JSON_stringify (snd kv))
                     members)
      ++ lit "}"
  end.

(** ** [JSON.parse] (no reviver) *)

Definition isWs (c : Z) : bool :=
  (c =? 32) || (c =? 9) || (c =? 10) || (c =? 13).

Fixpoint skipWs (s : jsstring) : jsstring :=
  match s with
  | c :: s' => if isWs c then skipWs s' else s
  | [] => []
  end.

Definition isDigit (c : Z) : bool := (48 <=? c) && (c <=? 57).

(** The characters of a number literal: digits, signs, point, exponent
    mark. *)
Definition isNumberChar (c : Z) : bool :=
  isDigit c || (c =? 45) || (c =? 43) || (c =? 46) || (c =? 101) || (c =? 69).

(** The longest prefix of characters that satisfy [p], and the rest. *)
Fixpoint span (p : Z -> bool) (s : jsstring) : jsstring * jsstring :=
  match s with
  | c :: s' =>
      if p c then let '(a, b) := span p s' in (c :: a, b) else ([], s)
  | [] => ([], [])
  end.

Definition digitsValue (ds : jsstring) : Z :=
  fold_left (fun acc c => acc * 10 + (c - 48)) ds 0.

(** The fraction of a number literal: nothing, or a point and digits. *)
Definition readFraction (s : jsstring) : option (jsstring * jsstring) :=
  match s with
  | c :: r =>
      if c =? 46 then
        let '(fp, rest) := span isDigit r in
        match fp with [] => None | _ :: _ => Some (fp, rest) end
      else Some ([], s)
  | [] => Some ([], s)
  end.

(** The exponent of a number literal, which ends the token. *)
Definition readExponent (s : jsstring) : option Z :=
  match s with
  | c :: r =>
      if (c =? 101) || (c =? 69) then
        let '(negative, r') :=
          match r with
          | d :: r2 => if d =? 45 then (true, r2)
                       else if d =? 43 then (false, r2) else (false, r)
          | [] => (false, r)
          end in
        let '(ep, rest) := span isDigit r' in
        match ep, rest with
        | _ :: _, [] => Some (if negative then - digitsValue ep
                              else digitsValue ep)
        | _, _ => None
        end
      else None
  | [] => Some 0
  end.

(** The number a literal denotes. The literal is an optional minus sign,
    an integer part (a single zero, or digits that start with a digit from
    one to nine), an optional fraction (a point and digits) and an optional
    exponent (e or E, an optional sign, digits); its value is rounded to the
    nearest double. *)
Definition readNumberToken (tok : jsstring) : option number :=
  let '(negative, t1) :=
    match tok with
    | c :: r => if c =? 45 then (true, r) else (false, tok)
    | [] => (false, tok)
    end in
  let '(ip, t2) := span isDigit t1 in
  match ip with
  | [] => None
  | d :: ds =>
      if (d =? 48) && negb (length ds =? 0)%nat then None
      else
        match readFraction t2 with
        | None => None
        | Some (fp, t3) =>
            match readExponent t3 with
            | None => None
            | Some e =>
                let m := digitsValue (ip ++ fp) in
                let v := nearest (inject_Z m
                                  * pow10 (e - Z.of_nat (length fp)))%Q in
                Some (if negative then PrimFloat.opp v else v)
            end
        end
  end.

Definition hexValue (c : Z) : option Z :=
  if isDigit c then Some (c - 48)
  else if (97 <=? c) && (c <=? 102) then Some (c - 87)
  else if (65 <=? c) && (c <=? 70) then Some (c - 55)
  else None.

Definition readEscape (c : Z) : option Z :=
  if c =? 34 then Some 34
  else if c =? 92 then Some 92
  else if c =? 47 then Some 47
  else if c =? 98 then Some 8
  else if c =? 102 then Some 12
  else if c =? 110 then Some 10
  else if c =? 114 then Some 13
  else if c =? 116 then Some 9
  else None.

Definition prepend (c : Z) (r : option (jsstring * jsstring))
  : option (jsstring * jsstring) :=
  match r with
  | Some (str, rest) => Some (c :: str, rest)
  | None => None
  end.

(** The characters of a string literal after its opening quote, and what
    follows the closing quote. *)
Fixpoint readString (s : jsstring) : option (jsstring * jsstring) :=
  match s with
  | [] => None
  | c :: s' =>
      if c =? 34 then Some ([], s')
      else if c =? 92 then
        match s' with
        | [] => None
        | e :: s'' =>
            if e =? 117 then
              match s'' with
              | a :: b :: c' :: d :: rest =>
                  match hexValue a, hexValue b, hexValue c', hexValue d with
                  | Some va, Some vb, Some vc, Some vd =>
                      prepend (va * 4096 + vb * 256 + vc * 16 + vd)
                              (readString rest)
                  | _, _, _, _ => None
                  end
              | _ => None
              end
            else
              match readEscape e with
              | Some u => prepend u (readString s'')
              | None => None
              end
        end
      else if c <? 32 then None
      else prepend c (readString s')
  end.

(** [s] without the prefix [p]. *)
Fixpoint stripPrefix (p s : jsstring) : option jsstring :=
  match p, s with
  | [], _ => Some s
  | c :: p', d :: s' => if c =? d then stripPrefix p' s' else None
  | _ :: _, [] => None
  end.

Definition readLiteral (s : jsstring) : option (JSON * jsstring) :=
  match stripPrefix (lit "null") s with
  | Some rest => Some (JNull, rest)
  | None =>
      match stripPrefix (lit "true") s with
      | Some rest => Some (JBool true, rest)
      | None =>
          match stripPrefix (lit "false") s with
          | Some rest => Some (JBool false, rest)
          | None => None
          end
      end
  end.

(** [obj[key] = v] while an object is read: a key that is there keeps its
    place and takes the new value. *)
Fixpoint setProp (members : list (jsstring * JSON)) (key : jsstring) (v : JSON)
  : list (jsstring * JSON) :=
  match members with
  | [] => [(key, v)]
  | (k, w) :: rest =>
      if str_eqb k key then (k, v) :: rest else (k, w) :: setProp rest key v
  end.

Definition collect (pairs : list (jsstring * JSON)) : list (jsstring * JSON) :=
  fold_left (fun acc kv => setProp acc (fst kv) (snd kv)) pairs [].

Section Reader.

(** The reader of the values one level down. *)
Variable read : jsstring -> option (JSON * jsstring).

(** The elements of an array after its opening bracket; [n] bounds their
    number. *)
Fixpoint readElems (n : nat) (s : jsstring) : option (list JSON * jsstring) :=
  match n with
  | O => None
  | S n' =>
      match read s with
      | Some (v, r) =>
          match skipWs r with
          | c :: r' =>
              if c =? 44 then
                match readElems n' r' with
                | Some (vs, r'') => Some (v :: vs, r'')
                | None => None
                end
              else if c =? 93 then Some ([v], r')
              else None
          | [] => None
          end
      | None => None
      end
  end.

(** The members of an object after its opening brace, in the order of the
    text. *)
Fixpoint readMembers (n : nat) (s : jsstring)
  : option (list (jsstring * JSON) * jsstring) :=
  match n with
  | O => None
  | S n' =>
      match skipWs s with
      | q :: r0 =>
          if q =? 34 then
            match readString r0 with
            | Some (key, r1) =>
                match skipWs r1 with
                | colon :: r2 =>
                    if colon =? 58 then
                      match read r2 with
                      | Some (v, r3) =>
                          match skipWs r3 with
                          | c :: r4 =>
                              if c =? 44 then
                                match readMembers n' r4 with
                                | Some (ms, r5) => Some ((key, v) :: ms, r5)
                                | None => None
                                end
                              else if c =? 125 then Some ([(key, v)], r4)
                              else None
                          | [] => None
                          end
                      | None => None
                      end
                    else None
                | [] => None
                end
            | None => None
            end
          else None
      | [] => None
      end
  end.

(** One value, by its first character. *)
Definition readStep (s : jsstring) : option (JSON * jsstring) :=
  match skipWs s with
  | [] => None
  | c :: rest =>
      if c =? 34 then
        match readString rest with
        | Some (str, r) => Some (JStr str, r)
        | None => None
        end
      else if c =? 91 then
        match skipWs rest with
        | d :: r =>
            if d =? 93 then Some (JArr [], r)
            else
              match readElems (length rest) rest with
              | Some (vs, r') => Some (JArr vs, r')
              | None => None
              end
        | [] => None
        end
      else if c =? 123 then
        match skipWs rest with
        | d :: r =>
            if d =? 125 then Some (JObj [], r)
            else
              match readMembers (length rest) rest with
              | Some (ms, r') => Some (JObj (collect ms), r')
              | None => None
              end
        | [] => None
        end
      else if isNumberChar c then
        let '(tok, r) := span isNumberChar (c :: rest) in
        match readNumberToken tok with
        | Some x => Some (JNum x, r)
        | None => None
        end
      else readLiteral (c :: rest)
  end.

End Reader.

(** A value nested at most [fuel] levels deep. *)
Fixpoint readValue (fuel : nat) : jsstring -> option (JSON * jsstring) :=
  match fuel with
  | O => fun _ => None
  | S fuel' => readStep (readValue fuel')
  end.

(** [JSON.parse]: the whole text is one value. The message of the
    [SyntaxError] is the engine's own; a fixed one stands for it. *)
Definition JSON_parse (text : jsstring) : ParseOutcome :=
  match readValue (S (length text)) text with
  | Some (v, rest) =>
      match skipWs rest with
      | [] => Parsed v
      | _ :: _ =>
          SyntaxError (lit "SyntaxError")
                      (lit "Unexpected non-whitespace character after JSON")
      end
  | None => SyntaxError (lit "SyntaxError") (lit "Unexpected token")
  end.

(** ** What survives serialization *)

(** A number that [JSON.parse] reads back from the text [JSON.stringify]
    writes for it. *)
Definition survives (x : number) : Prop :=
  forallb isNumberChar (numberText x) = true /\
  readNumberToken (numberText x) = Some x.

(** The numbers of a value. *)
Fixpoint numbersOf (v : JSON) : list number :=
  match v with
  | JNum x => [x]
  | JArr elems => flat_map numbersOf elems
  | JObj members =>
      flat_map (fun kv => numbersOf (snd kv)) members
  | _ => []
  end.

Fixpoint distinct (keys : list jsstring) : bool :=
  match keys with
  | [] => true
  | k :: rest => negb (existsb (str_eqb k) rest) && distinct rest
  end.

(** A UTF-16 code unit. *)
Definition isUnit (c : Z) : bool := (0 <=? c) && (c <? 65536).

(** A value as JavaScript has it: every string is a sequence of code units
    and every object holds each key once. *)
Fixpoint wellFormed (v : JSON) : bool :=
  match v with
  | JStr s => forallb isUnit s
  | JArr elems => forallb wellFormed elems
  | JObj members =>
      distinct (List.map fst members)
      && forallb (fun kv => forallb isUnit (fst kv) && wellFormed (snd kv))
                 members
  | _ => true
  end.

(** The round trip as the specification states it. *)
Definition statedRoundTrip (c : JSON) (limits : PartialLimits) : Prop :=
  validateCapture c limits = [] ->
  parseCapture JSON_parse (JSON_stringify c) limits = Returns c.

(** JSON texts of the examples. *)
Definition textEmptyObject : jsstring := lit "{}".

Definition textVersionNumber : jsstring :=
  lit "{" ++ quoted (lit "version") ++ lit ": 42}".

Definition textNotJson : jsstring := lit "not json".

(** A text whose root exceeds [maxNodes = 0] and that has no version. *)
Definition textRootOnly : jsstring :=
  lit "{" ++ quoted (lit "root") ++ lit ": {}}".

Definition noNodes : PartialLimits :=
  mkPartialLimits (Some 0%float) None None.

Definition pageSketch : WebSketchCapture :=
  mkCapture (lit "0.1") (lit "https://example.com") 1700000000000
            (mkViewport 1920 1280 1.5 None)
            (mkCompiler (lit "websketch-ir") (lit "0.2.1") (lit "test"))
            (mkNode [] PAGE None None None (mkBBox 0 0 1 1) None false None true
               None
               (Some [mkNode [] BUTTON (Some (lit "submit")) None
                        (Some (mkText (Some (lit "abc123")) (Some 6%float) KShort))
                        (mkBBox 0.4 0.45 0.2 0.1) None
                        true (Some true) true None None None])
               None).

Definition member (key : string) (value : jsstring) : jsstring :=
  quoted (lit key) ++ lit ":" ++ value.

Definition object (members : list jsstring) : jsstring :=
  lit "{" ++ join (lit ",") members ++ lit "}".

(** [JSON.stringify(pageSketch)]. *)
Definition textPageSketch : jsstring :=
  object
    [ member "version" (quoted (lit "0.1"));
      member "url" (quoted (lit "https://example.com"));
      member "timestamp_ms" (lit "1700000000000");
      member "viewport"
        (object [ member "w_px" (lit "1920"); member "h_px" (lit "1280");
                  member "aspect" (lit "1.5") ]);
      member "compiler"
        (object [ member "name" (quoted (lit "websketch-ir"));
                  member "version" (quoted (lit "0.2.1"));
                  member "options_hash" (quoted (lit "test")) ]);
      member "root"
        (object
           [ member "id" (quoted []);
             member "role" (quoted (lit "PAGE"));
             member "bbox" (lit "[0,0,1,1]");
             member "interactive" (lit "false");
             member "visible" (lit "true");
             member "children"
               (lit "[" ++
                object
                  [ member "id" (quoted []);
                    member "role" (quoted (lit "BUTTON"));
                    member "bbox" (lit "[0.4,0.45,0.2,0.1]");
                    member "interactive" (lit "true");
                    member "visible" (lit "true");
                    member "semantic" (quoted (lit "submit"));
                    member "text"
                      (object [ member "kind" (quoted (lit "short"));
                                member "hash" (quoted (lit "abc123"));
                                member "len" (lit "6") ]);
                    member "enabled" (lit "true") ]
                ++ lit "]") ] ) ].

(** The page with a viewport whose aspect ratio is [Infinity] (a height of
    zero pixels: [w_px / h_px]). *)
Definition flatViewport : WebSketchCapture :=
  mkCapture (version pageSketch) (url pageSketch) (timestamp_ms pageSketch)
            (mkViewport 1920 0 (1920 / 0) None)
            (compiler pageSketch) (root pageSketch).

(** A text with escapes, a surrogate pair, nested values, a repeated key
    and numbers in several notations. *)
Definition textMixed : jsstring :=
  lit " { " ++ quoted (lit "a\n\u00e9" ++ [233; 55357; 56832])
  ++ lit " : [1, -0, 2.5e3, 1E-2, 0.1, true, null] , "
  ++ quoted (lit "k") ++ lit ":1," ++ quoted (lit "b") ++ lit ":{},"
  ++ quoted (lit "k") ++ lit ":" ++ quoted (lit "x") ++ lit "}" ++ [10].

End Serial.

Import Serial.

(* ===================================================================== *)
(** * Fixtures of the tests *)
(* ===================================================================== *)

Module Fixtures.

Local Open Scope float_scope.

(** [makeNode(role, bbox)] and [makeCapture(root)] of the test fixtures. *)
Definition makeNode (r : UIRole) (b : BBox01) : UINode :=
  mkNode [] r None None None b None false None true None None None.

Definition makeCapture (rt : UINode) : WebSketchCapture :=
  mkCapture (lit "0.1") (lit "https://example.com") 1700000000000
            (mkViewport 1920 1080 (1920 / 1080) None)
            (mkCompiler (lit "websketch-ir") (lit "0.2.1") (lit "test")) rt.

Definition minimal : WebSketchCapture :=
  makeCapture (makeNode PAGE (mkBBox 0 0 1 1)).

Definition withText (n : UINode) (t : TextSignal) : UINode :=
  mkNode (id n) (role n) (semantic n) (name_hash n) (Some t) (bbox n) (z n)
         (interactive n) (enabled n) (visible n) (focusable n) (children n)
         (flags n).

Definition withSemantic (n : UINode) (s : jsstring) : UINode :=
  mkNode (id n) (role n) (Some s) (name_hash n) (text n) (bbox n) (z n)
         (interactive n) (enabled n) (visible n) (focusable n) (children n)
         (flags n).

Definition withInteractive (n : UINode) (b : bool) : UINode :=
  mkNode (id n) (role n) (semantic n) (name_hash n) (text n) (bbox n) (z n)
         b (enabled n) (visible n) (focusable n) (children n) (flags n).

(** Two pages whose text hashes have seventeen characters and differ in
    the last one only. *)
Definition pageTextA : WebSketchCapture :=
  makeCapture (withText (makeNode PAGE (mkBBox 0 0 1 1))
                 (mkText (Some (lit "0123456789abcdefA")) (Some 3) KShort)).

Definition pageTextB : WebSketchCapture :=
  makeCapture (withText (makeNode PAGE (mkBBox 0 0 1 1))
                 (mkText (Some (lit "0123456789abcdefB")) (Some 3) KShort)).

(** The node of the test "identical nodes -> high score". *)
Definition submitButton : UINode :=
  withSemantic
    (withInteractive (makeNode BUTTON (mkBBox 0.1 0.2 0.3 0.4)) true)
    (lit "submit").

(** A page with two cards of the same position and width whose heights
    differ in the last bit; the first card has a child. *)
Definition cardTall : UINode :=
  withChildren (makeNode CARD (mkBBox 0.15 0.5 0.15 0.5))
               (Some [makeNode TEXT (mkBBox 0.2 0.6 0.05 0.05)]).

Definition cardShort : UINode :=
  makeNode CARD (mkBBox 0.15 0.5 0.15 0.49999999999999994).

Definition twoCards : WebSketchCapture :=
  makeCapture (withChildren (makeNode PAGE (mkBBox 0 0 1 1))
                            (Some [cardTall; cardShort])).

End Fixtures.

Import Fixtures.

(* ===================================================================== *)
(** * The statements of the specification, in the terms of the code *)
(* ===================================================================== *)

Module SimilarityTable.

Local Open Scope float_scope.

(** The similarity as the table of the specification words it: every
    signal adds its weight, the semantic signal (when either node has one)
    included, and the points are divided by the accumulated weight. *)
Definition nodeSimilarity_table (a b : UINode) : number :=
  let rolePts := if role_eqb (role a) (role b) then 3 else 0 in
  let bboxPts := 2 * bboxSimilarity (bbox a) (bbox b) in
  let interPts := if Bool.eqb (interactive a) (interactive b) then 1 else 0 in
  let '(semPts, semWeight) :=
    if bothTruthyEqual (semantic a) (semantic b) then (2, 2)
    else if truthy (semantic a) || truthy (semantic b) then (0, 2)
         else (0, 0) in
  let textPts := if bothTruthyEqual (text_hash a) (text_hash b) then 1 else 0 in
  (rolePts + bboxPts + interPts + semPts + textPts)
  / (3 + 2 + 1 + semWeight + 1).

End SimilarityTable.

Import SimilarityTable.

Module SelfDiff.

(** The self-diff identity as the specification states it. *)
Definition statedIdentity (c : WebSketchCapture) : Prop :=
  let r := diff c c noDiffOptions in
  identical (summary r) = true /\
  changes r = [] /\
  counts (summary r) = zeroCounts /\
  fingerprintsMatch (summary r) = true /\
  layoutFingerprintsMatch (summary r) = true.

(** The pairs [(i, j)] of the matches, as indices of the flattened trees:
    the position of a node is told by its path. *)
Definition matchedPaths (c : WebSketchCapture) : list (jsstring * jsstring) :=
  let flat := flattenTree (root c) O [] in
  List.map (fun m => (path (m_nodeA m), path (m_nodeB m)))
           (r_matches (findMatches flat flat DEFAULT_OPTIONS)).

End SelfDiff.

Import SelfDiff.

Module Erase.

(** The node without its [text.hash] and [name_hash] values. *)
Definition eraseHashes (n : UINode) : UINode :=
  mkNode (id n) (role n) (semantic n) None
         (match text n with
          | Some t => Some (mkText None (len t) (kind t))
          | None => None
          end)
         (bbox n) (z n) (interactive n) (enabled n) (visible n) (focusable n)
         (children n) (flags n).

(** Two captures differ only in [text.hash] / [name_hash] values when
    erasing those values everywhere makes them equal. *)
Definition differOnlyInHashes (a b : WebSketchCapture) : Prop :=
  mapCapture eraseHashes a = mapCapture eraseHashes b.

Definition dropEmpty (o : option jsstring) : option jsstring :=
  match o with
  | Some [] => None
  | _ => o
  end.

(** The node with every empty-string [semantic], [text.hash] and
    [name_hash] removed. *)
Definition dropEmptyFields (n : UINode) : UINode :=
  mkNode (id n) (role n) (dropEmpty (semantic n)) (dropEmpty (name_hash n))
         (match text n with
          | Some t => Some (mkText (dropEmpty (hash t)) (len t) (kind t))
          | None => None
          end)
         (bbox n) (z n) (interactive n) (enabled n) (visible n) (focusable n)
         (children n) (flags n).

End Erase.

Import Erase.

Module Order.

Local Open Scope float_scope.

(** Two elements that the comparator treats as equal. *)
Definition tied {A} (cmp : A -> A -> number) (x y : A) : bool :=
  cmp x y =? 0.

(** [l'] lists the elements that compare equal in the same relative order
    as [l]. *)
Definition keepsTies {A} (cmp : A -> A -> number) (l l' : list A) : Prop :=
  forall a, In a l -> filter (tied cmp a) l' = filter (tied cmp a) l.

(** The comparator of [hashNodeDeep], on two children. *)
Definition siblingCmp (a b : UINode) : number := childCmp (bbox a) (bbox b).

(** Three siblings a fraction of the quantization step apart in [y]: the
    comparator puts [sibB] before [sibA], [sibC] before [sibB], and [sibA]
    before [sibC]. *)
Definition sibA : UINode := makeNode BUTTON (mkBBox 0.2 0 0.1 0.1).
Definition sibB : UINode := makeNode BUTTON (mkBBox 0.1 0.0008 0.1 0.1).
Definition sibC : UINode := makeNode BUTTON (mkBBox 0 0.0016 0.1 0.1).

(** Three siblings whose [y] values are 0.1, 0.101 and 0.1004: the first
    two are a step apart on paper, and more than a step apart as doubles. *)
Definition rowP : UINode := makeNode BUTTON (mkBBox 0.3 0.1 0.1 0.1).
Definition rowQ : UINode := makeNode BUTTON (mkBBox 0.1 0.101 0.1 0.1).
Definition rowR : UINode := makeNode BUTTON (mkBBox 0.2 0.1004 0.1 0.1).

Definition pageOf (cs : list UINode) : WebSketchCapture :=
  makeCapture (withChildren (makeNode PAGE (mkBBox 0 0 1 1)) (Some cs)).

(** The invariance as the specification states it, for the children of the
    root: a permutation that keeps the [(y, x)] classes (the relative order
    of the children that compare equal) keeps the fingerprint. *)
Definition statedInvariance (cs cs' : list UINode) : Prop :=
  Permutation cs cs' -> keepsTies siblingCmp cs cs' ->
  fingerprintCapture (pageOf cs') = fingerprintCapture (pageOf cs).

End Order.

Import Order.

Module VersionRule.

(** [parseCapture] throws with the given code. *)
Definition throwsCode (parse : jsstring -> ParseOutcome) (json : jsstring)
           (limits : PartialLimits) (c : WebSketchErrorCode) : Prop :=
  exists ws, parseCapture parse json limits = Throws ws /\ code ws = c.

(** The rule as the specification states it: any [version] issue whose
    received value is not ["0.1"] gives [WS_UNSUPPORTED_VERSION], and that
    code is only given when [version] is a string that is not supported. *)
Definition statedRule (parse : jsstring -> ParseOutcome) (json : jsstring)
           (limits : PartialLimits) : Prop :=
  (forall data i,
      parse json = Parsed data ->
      In i (validateCapture data limits) ->
      i_path i = lit "version" ->
      i_received i <> quoted (lit "0.1") ->
      throwsCode parse json limits WS_UNSUPPORTED_VERSION) /\
  (throwsCode parse json limits WS_UNSUPPORTED_VERSION ->
   exists obj s,
     parse json = Parsed (JObj obj) /\
     getProp obj (lit "version") = Some (JStr s) /\ s <> lit "0.1").

(** The text parses and validation reports an issue that satisfies [p]. *)
Definition reports (parse : jsstring -> ParseOutcome) (json : jsstring)
           (limits : PartialLimits) (p : WebSketchValidationIssue -> Prop)
  : Prop :=
  exists data i,
    parse json = Parsed data /\ In i (validateCapture data limits) /\ p i.

(** A [version] issue that reports a value that is there. *)
Definition versionIssue (i : WebSketchValidationIssue) : Prop :=
  i_path i = lit "version" /\ i_received i <> lit "undefined".

(** An issue whose message tells of an exceeded limit. *)
Definition limitIssue (i : WebSketchValidationIssue) : Prop :=
  includes (i_message i) (lit "exceeds maxNodes") = true \/
  includes (i_message i) (lit "exceeds maxDepth") = true.

Definition anyIssue (i : WebSketchValidationIssue) : Prop := True.

(** The parsed value is an object with a [version] member that is not the
    string ["0.1"]. *)
Definition hasOtherVersion (parse : jsstring -> ParseOutcome)
           (json : jsstring) : Prop :=
  exists obj v,
    parse json = Parsed (JObj obj) /\
    getProp obj (lit "version") = Some v /\ v <> JStr (lit "0.1").

(** The parsed value is an object without a [version] member. *)
Definition hasNoVersion (parse : jsstring -> ParseOutcome)
           (json : jsstring) : Prop :=
  exists obj,
    parse json = Parsed (JObj obj) /\ getProp obj (lit "version") = None.

End VersionRule.

Import VersionRule.

(* ===================================================================== *)
(** * More of the code: text, identifiers, schema versions, pairing *)
(* ===================================================================== *)


(* ===================================================================== *)
(** * text.ts: meaningful text *)
(* ===================================================================== *)

Module Meaning.

(** The class [[a-z0-9]] under the flag [i]: the ASCII letters of both
    cases and the digits. *)
Definition isAlnum (c : Z) : bool :=
  ((97 <=? c) && (c <=? 122)) || ((65 <=? c) && (c <=? 90))
  || ((48 <=? c) && (c <=? 57)).

Section Lower.

Variable toLowerCase : jsstring -> jsstring.

Definition isMeaningfulText (text : jsstring) : bool :=
  let normalized := normalizeText toLowerCase text in
  (0 <? length normalized)%nat && existsb isAlnum normalized.

End Lower.

End Meaning.

Import Meaning.

Module Tidy.

(** The text that [normalizeText] hands to [toLowerCase]. *)
Definition cleaned (text : jsstring) : jsstring :=
  trim (collapseWhitespace (stripInvisible text)).

(** No invisible character, and no white space but single U+0020 between
    two other characters; [afterSpace] tells that the previous character was
    a space. With [loose], the text may end with a space. *)
Fixpoint spaced (loose afterSpace : bool) (s : jsstring) : bool :=
  match s with
  | [] => loose || negb afterSpace
  | c :: s' =>
      if isSpace c then (c =? 32) && negb afterSpace && spaced loose true s'
      else negb (isInvisible c) && spaced loose false s'
  end.

Definition tidy (s : jsstring) : bool :=
  match s with
  | [] => true
  | _ :: _ => spaced false true s
  end.

(** What [trim] does at the end of a text. *)
Fixpoint trimEnd (s : jsstring) : jsstring :=
  match s with
  | [] => []
  | c :: s' =>
      match trimEnd s' with
      | [] => if isSpace c then [] else [c]
      | r => c :: r
      end
  end.

(** The number of line feeds of a text. *)
Definition lineFeeds (s : jsstring) : nat := count_occ Z.eq_dec s 10.

End Tidy.

Import Tidy.


Module Unhashed.

Local Open Scope float_scope.

(** The node [n] without the members that no hash of a fingerprint reads:
    [id], [z], [focusable], [flags], and the [len] and [kind] of its text. *)
Definition eraseUnhashed (n : UINode) : UINode :=
  mkNode [] (role n) (semantic n) (name_hash n)
         (match text n with
          | Some t => Some (mkText (hash t) None KNone)
          | None => None
          end)
         (bbox n) None (interactive n) (enabled n) (visible n) None
         (children n) None.

(** The node [n] with its [bbox] member replaced. *)
Definition withBbox (n : UINode) (b : BBox01) : UINode :=
  mkNode (id n) (role n) (semantic n) (name_hash n) (text n) b (z n)
         (interactive n) (enabled n) (visible n) (focusable n) (children n)
         (flags n).

(** Two boxes in the same cell of the grid of step [step]: each coordinate
    rounds to the same multiple of the step. *)
Definition sameCell (step : number) (a b : BBox01) : Prop :=
  Math_round (bx a / step) = Math_round (bx b / step) /\
  Math_round (by_ a / step) = Math_round (by_ b / step) /\
  Math_round (bw a / step) = Math_round (bw b / step) /\
  Math_round (bh a / step) = Math_round (bh b / step).

(** Eight lowercase hexadecimal digits. *)
Definition isDigest (s : jsstring) : Prop :=
  length s = 8%nat /\ Forall isLowerHex s.

End Unhashed.

Import Unhashed.


(* ===================================================================== *)
(** * compat.ts: schema versions *)
(* ===================================================================== *)

Module Compat.

Definition CURRENT_SCHEMA_VERSION : jsstring := lit "0.1".

Definition SUPPORTED_SCHEMA_VERSIONS : list jsstring := [lit "0.1"].

(** [isSupportedSchemaVersion]; the argument is any parsed value, or
    [undefined]. *)
Definition isSupportedSchemaVersion (version : option JSON) : bool :=
  match version with
  | Some (JStr s) => existsb (str_eqb s) SUPPORTED_SCHEMA_VERSIONS
  | _ => false
  end.

End Compat.

Import Compat.

Module Shape.

(** The path of the issue is not [version]. *)
Definition notVersionPath (i : WebSketchValidationIssue) : Prop :=
  str_eqb (i_path i) (lit "version") = false.

End Shape.

Import Shape.


(* ===================================================================== *)
(** * hash.ts: node identifiers *)
(* ===================================================================== *)

Module Ids.

Local Open Scope float_scope.

(** [`${Math.round(node.bbox[0] * 100)}_${Math.round(node.bbox[1] * 100)}`]. *)
Definition posHint (node : UINode) : jsstring :=
  Number_toString (Math_round (bx (bbox node) * 100)) ++ lit "_"
  ++ Number_toString (Math_round (by_ (bbox node) * 100)).

(** [generateNodeId]; a caller that leaves [parentPath] out passes [""]. *)
Definition generateNodeId (node : UINode) (parentPath : jsstring) : jsstring :=
  let hash := hashNodeShallow node noOptions in
  let posHint := posHint node in
  if truthy_str parentPath
  then parentPath ++ lit "/" ++ slice0 12 hash ++ lit "_" ++ posHint
  else lit "/" ++ slice0 12 hash ++ lit "_" ++ posHint.

(** The node [n] with its [id] member replaced. *)
Definition withId (n : UINode) (i : jsstring) : UINode :=
  mkNode i (role n) (semantic n) (name_hash n) (text n) (bbox n) (z n)
         (interactive n) (enabled n) (visible n) (focusable n) (children n)
         (flags n).

(** [assignNodeIds] writes the identifiers into the tree it is given; here
    it returns the tree with the identifiers written. *)
Fixpoint assignNodeIds (node : UINode) (parentPath : jsstring) : UINode :=
  let id := generateNodeId node parentPath in
  withChildren (withId node id)
    (match children node with
     | Some cs => Some (List.map (fun child => assignNodeIds child id) cs)
     | None => None
     end).

(** The capture [c] with its [root] member replaced. *)
Definition withRoot (c : WebSketchCapture) (r : UINode) : WebSketchCapture :=
  mkCapture (version c) (url c) (timestamp_ms c) (viewport c) (compiler c) r.

End Ids.

Import Ids.


Module Paths.

(** The nodes of a tree in pre-order: a node, then the nodes of each of its
    children in turn. *)
Fixpoint preorder (n : UINode) : list UINode :=
  n :: match children n with
       | Some cs => flat_map preorder cs
       | None => []
       end.

(** The path of the issue [i] extends [path]. *)
Definition below (path : jsstring) (i : WebSketchValidationIssue) : Prop :=
  exists suffix, i_path i = path ++ suffix.

(** [st'] is [st] with more issues, all of them below [path]. *)
Definition grows (path : jsstring) (st st' : VState) : Prop :=
  exists found, snd st' = snd st ++ found /\ Forall (below path) found.

(** The paths of the issues of the members of a capture other than its
    root. *)
Definition headerPaths : list jsstring :=
  [lit "version"; lit "url"; lit "timestamp_ms"; lit "viewport";
   lit "viewport.w_px"; lit "viewport.h_px"; lit "viewport.aspect";
   lit "compiler"; lit "compiler.name"; lit "compiler.version";
   lit "compiler.options_hash"].

End Paths.

Import Paths.


Module Pairing.

Local Open Scope float_scope.

(** The match [m] was made from the candidate [c]: it holds the nodes at the
    two indices of [c] and its similarity. *)
Definition matchedAt (nodesA nodesB : list FlatNode) (c : Candidate)
           (m : Match) : Prop :=
  nth_error nodesA (ci c) = Some (m_nodeA m) /\
  nth_error nodesB (cj c) = Some (m_nodeB m) /\
  m_similarity m = sim c.

(** The state of the greedy loop after the candidates [acc] were accepted,
    in this order. *)
Definition paired (nodesA nodesB : list FlatNode) (st : MatchState)
           (acc : list Candidate) : Prop :=
  Forall2 (matchedAt nodesA nodesB) acc (matches st) /\
  usedA st = rev (List.map ci acc) /\
  usedB st = rev (List.map cj acc) /\
  NoDup (List.map ci acc) /\ NoDup (List.map cj acc).

(** What [findMatches] asks of a pair before it may be matched. *)
Definition plausible (options : Options) (a b : UINode) : Prop :=
  (matchThreshold options <=? nodeSimilarity a b) = true /\
  (role a = role b \/ (bboxSimilarity (bbox a) (bbox b) <? 0.3) = false).

(** The sum of the eight counts. *)
Definition totalCount (c : Counts) : nat :=
  (n_added c + n_removed c + n_moved c + n_resized c + n_text_changed c
   + n_interactive_changed c + n_role_changed c + n_children_changed c)%nat.

(** The number of changes of one type. *)
Definition ctype_eqb (a b : ChangeType) : bool :=
  match a, b with
  | added, added | removed, removed | moved, moved | resized, resized
  | text_changed, text_changed | interactive_changed, interactive_changed
  | role_changed, role_changed | children_changed, children_changed => true
  | _, _ => false
  end.

(** [counts[type]]. *)
Definition getCount (c : Counts) (t : ChangeType) : nat :=
  match t with
  | added => n_added c
  | removed => n_removed c
  | moved => n_moved c
  | resized => n_resized c
  | text_changed => n_text_changed c
  | interactive_changed => n_interactive_changed c
  | role_changed => n_role_changed c
  | children_changed => n_children_changed c
  end.

Definition countType (t : ChangeType) (l : list NodeChange) : nat :=
  length (filter (fun c => ctype_eqb (ctype c) t) l).

End Pairing.

Import Pairing.

(* ===================================================================== *)
(** * Vocabulary of the proofs *)
(* ===================================================================== *)

Module ProofTerms.

(** With enough fuel the digits of [n < 16^k] are the last [k] fixed-width
    digits with the leading zeros dropped; padding puts them back. *)
Fixpoint fixedHex (k : nat) (n : Z) : jsstring :=
  match k with
  | O => []
  | S k' => fixedHex k' (n / 16) ++ [hexDigit (n mod 16)]
  end.

(** The path of an issue starts with the [r] of [root]. *)
Definition underRoot (i : WebSketchValidationIssue) : Prop :=
  exists rest, i_path i = 114%Z :: rest.

(** [st'] is [st] with more issues, all of them under the root. *)
Definition extends (st st' : VState) : Prop :=
  exists added, snd st' = snd st ++ added /\ Forall underRoot added.


(** The nesting of a value. *)
Fixpoint nesting (v : JSON) : nat :=
  match v with
  | JArr elems => S (fold_right (fun e d => Nat.max (nesting e) d) O elems)
  | JObj members =>
      S (fold_right (fun kv d => Nat.max (nesting (snd kv)) d) O members)
  | _ => O
  end.

(** What may follow a value in a text: nothing, or a comma, a closing
    bracket or a closing brace. *)
Definition closes (rest : jsstring) : Prop :=
  match rest with
  | [] => True
  | c :: _ => c = 44 \/ c = 93 \/ c = 125
  end.

(** [read] reads the value back from its text, whatever closes it. *)
Definition reads (read : jsstring -> option (JSON * jsstring)) (v : JSON)
  : Prop :=
  forall rest, closes rest -> read (JSON_stringify v ++ rest) = Some (v, rest).

(** The text of the value starts with a character that is neither white
    space nor a closing bracket. *)
Definition headed (v : JSON) : Prop :=
  exists c t, JSON_stringify v = c :: t /\
              isWs c = false /\ c <> 93 /\ c <> 125.

End ProofTerms.

Import ProofTerms.

(** Induction on a tree of nodes: a property that passes from the children
    of a node to the node holds of every node. *)
Section TreeInduction.
Variable P : UINode -> Prop.
Hypothesis step : forall n, Forall P (childList n) -> P n.

Fixpoint UINode_tree_ind (n : UINode) : P n :=
  match n as n0 return P n0 with
  | mkNode i r s nh t b zv ia e v f cs fl =>
      step (mkNode i r s nh t b zv ia e v f cs fl)
        (match cs as o
               return Forall P (match o with Some l => l | None => [] end)
         with
         | None => Forall_nil P
         | Some l =>
             (fix all (l : list UINode) : Forall P l :=
                match l with
                | [] => Forall_nil P
                | c :: l' => Forall_cons c (UINode_tree_ind c) (all l')
                end) l
         end)
  end.
End TreeInduction.

(** Induction on a JSON value, through arrays and objects. *)
Section JsonInduction.
Variable P : JSON -> Prop.
Hypothesis Hnull : P JNull.
Hypothesis Hbool : forall b, P (JBool b).
Hypothesis Hnum : forall x, P (JNum x).
Hypothesis Hstr : forall s, P (JStr s).
Hypothesis Harr : forall l, Forall P l -> P (JArr l).
Hypothesis Hobj : forall ms, Forall (fun kv => P (snd kv)) ms -> P (JObj ms).

Fixpoint JSON_tree_ind (v : JSON) : P v :=
  match v as v0 return P v0 with
  | JNull => Hnull
  | JBool b => Hbool b
  | JNum x => Hnum x
  | JStr s => Hstr s
  | JArr l =>
      Harr l ((fix all (l : list JSON) : Forall P l :=
                 match l with
                 | [] => Forall_nil P
                 | x :: l' => Forall_cons x (JSON_tree_ind x) (all l')
                 end) l)
  | JObj ms =>
      Hobj ms ((fix all (ms : list (jsstring * JSON))
                  : Forall (fun kv => P (snd kv)) ms :=
                  match ms with
                  | [] => Forall_nil _
                  | kv :: ms' =>
                      Forall_cons kv (JSON_tree_ind (snd kv)) (all ms')
                  end) ms)
  end.
End JsonInduction.

(* ===================================================================== *)
(** * Proofs *)
(* ===================================================================== *)

(* ===================================================================== *)
(** * Strings *)
(* ===================================================================== *)

Lemma str_eqb_eq a b : str_eqb a b = true <-> a = b.
Proof.
  unfold str_eqb. destruct (list_eq_dec Z.eq_dec a b); split; intros; congruence.
Qed.

Lemma str_eqb_refl a : str_eqb a a = true.
Proof. apply str_eqb_eq. reflexivity. Qed.

(* ===================================================================== *)
(** * The short digest *)
(* ===================================================================== *)

(* --------------------------------------------------------------------- *)
(** ** Facts about the 32-bit operations *)
(* --------------------------------------------------------------------- *)

Lemma ToInt32_mod x : ToInt32 x mod 2 ^ 32 = x mod 2 ^ 32.
Proof.
  unfold ToInt32. destruct (x mod 2 ^ 32 <? 2 ^ 31).
  - apply Z.mod_mod. lia.
  - replace (x mod 2 ^ 32 - 2 ^ 32) with (x mod 2 ^ 32 + (-1) * 2 ^ 32) by lia.
    rewrite Z.mod_add by lia. apply Z.mod_mod. lia.
Qed.

Lemma lxor_mod_pow2 a b n :
  0 <= n -> Z.lxor a b mod 2 ^ n = Z.lxor (a mod 2 ^ n) (b mod 2 ^ n).
Proof.
  intros Hn. apply Z.bits_inj'. intros i Hi.
  rewrite Z.lxor_spec, !Z.testbit_mod_pow2 by lia.
  rewrite Z.lxor_spec. destruct (i <? n); reflexivity.
Qed.

Lemma shiftl5_mod a : Z.shiftl a 5 = a * 32.
Proof. rewrite Z.shiftl_mul_pow2 by lia. reflexivity. Qed.

Lemma djb2_step_refines hash h c :
  ToUint32 hash = h -> ToUint32 (djb2_step hash c) = djb2_spec_step h c.
Proof.
  unfold ToUint32, djb2_step, djb2_spec_step, xor32, shl32. intros <-.
  rewrite ToInt32_mod.
  change (5 mod 32) with 5.
  rewrite !shiftl5_mod.
  rewrite (lxor_mod_pow2 _ c 32) by lia.
  rewrite (lxor_mod_pow2 _ (ToInt32 c) 32) by lia.
  rewrite !ToInt32_mod.
  f_equal.
  rewrite (Z.add_mod (ToInt32 _) hash) by lia.
  rewrite ToInt32_mod.
  rewrite (Z.mul_mod (ToInt32 hash)) by lia.
  rewrite ToInt32_mod.
  rewrite <- Z.mul_mod by lia.
  rewrite <- Z.add_mod by lia.
  rewrite (Z.add_mod (hash mod 2 ^ 32 * 32)) by lia.
  rewrite (Z.mul_mod (hash mod 2 ^ 32)) by lia.
  rewrite !Z.mod_mod by lia.
  rewrite <- Z.mul_mod by lia.
  rewrite <- Z.add_mod by lia.
  reflexivity.
Qed.

Lemma djb2_loop_refines_from text : forall hash h,
  ToUint32 hash = h ->
  ToUint32 (fold_left djb2_step text hash) = fold_left djb2_spec_step text h.
Proof.
  induction text as [|c text IH]; intros hash h Hh; simpl.
  - exact Hh.
  - apply IH. apply djb2_step_refines. exact Hh.
Qed.

Lemma djb2_spec_fold_range text : 0 <= djb2_spec_fold text < 2 ^ 32.
Proof.
  unfold djb2_spec_fold.
  assert (H : forall h, 0 <= h < 2 ^ 32 ->
                        0 <= fold_left djb2_spec_step text h < 2 ^ 32).
  { induction text as [|c text IH]; intros h Hh; simpl; [exact Hh|].
    apply IH. unfold djb2_spec_step. apply Z.mod_pos_bound. lia. }
  apply H. lia.
Qed.

(* --------------------------------------------------------------------- *)
(** ** Facts about the hexadecimal rendering *)
(* --------------------------------------------------------------------- *)

Lemma hexDigit_lower d : 0 <= d < 16 -> isLowerHex (hexDigit d).
Proof.
  unfold isLowerHex, hexDigit. intros H.
  destruct (Z.ltb_spec d 10); lia.
Qed.

Lemma fixedHex_zero k : fixedHex k 0 = repeat 48 k.
Proof.
  induction k as [|k IH]; simpl; [reflexivity|].
  change (0 / 16) with 0. rewrite IH.
  change (hexDigit (0 mod 16)) with 48.
  symmetry. apply repeat_cons.
Qed.

Lemma div16_bound n k :
  16 <= n < 16 ^ Z.of_nat k ->
  exists k', k = S k' /\ (1 <= k')%nat /\ 0 <= n / 16 < 16 ^ Z.of_nat k'.
Proof.
  intros Hn. destruct k as [|[|k]].
  - change (16 ^ Z.of_nat 0) with 1 in Hn. lia.
  - change (16 ^ Z.of_nat 1) with 16 in Hn. lia.
  - exists (S k). split; [reflexivity|]. split; [lia|].
    split; [apply Z.div_pos; lia|].
    apply Z.div_lt_upper_bound; [lia|].
    replace (Z.of_nat (S (S k))) with (Z.succ (Z.of_nat (S k))) in Hn by lia.
    rewrite Z.pow_succ_r in Hn by lia. lia.
Qed.

Lemma toHexDigits_pad k : forall fuel n,
  (1 <= k)%nat -> (1 <= fuel)%nat ->
  0 <= n < 16 ^ Z.of_nat k -> 0 <= n < 16 ^ Z.of_nat fuel ->
  (length (toHexDigits fuel n) <= k)%nat /\
  repeat 48 (k - length (toHexDigits fuel n)) ++ toHexDigits fuel n
  = fixedHex k n.
Proof.
  induction k as [|k IH]; intros fuel n Hk Hf Hn Hnf; [lia|].
  destruct fuel as [|fuel]; [lia|].
  cbn [toHexDigits fixedHex].
  destruct (Z.ltb_spec n 16) as [Hlt|Hge].
  - cbn [length]. split; [lia|].
    rewrite Z.div_small, Z.mod_small, fixedHex_zero by lia.
    replace (S k - 1)%nat with k by lia. reflexivity.
  - destruct (div16_bound n (S k)) as (k' & Ek & Hk' & Hdk); [lia|].
    destruct (div16_bound n (S fuel)) as (f' & Ef & Hf' & Hdf); [lia|].
    injection Ek as ->. injection Ef as ->.
    destruct (IH f' (n / 16)) as [Hlen Heq]; try assumption.
    rewrite length_app. cbn [length]. split; [lia|].
    rewrite <- Heq.
    replace (S k' - (length (toHexDigits f' (n / 16)) + 1))%nat
      with (k' - length (toHexDigits f' (n / 16)))%nat by lia.
    rewrite app_assoc. reflexivity.
Qed.

Lemma log2_fuel_enough n :
  0 <= n -> 0 <= n < 16 ^ Z.of_nat (S (Z.to_nat (Z.log2 n))).
Proof.
  intros Hn. split; [exact Hn|].
  pose proof (Z.log2_nonneg n) as Hl.
  rewrite Nat2Z.inj_succ, Z2Nat.id by exact Hl.
  destruct (Z.eq_dec n 0) as [->|Hnz].
  - apply Z.pow_pos_nonneg; lia.
  - apply Z.lt_le_trans with (2 ^ Z.succ (Z.log2 n)).
    + apply Z.log2_spec. lia.
    + apply Z.pow_le_mono_l. lia.
Qed.

Lemma fixedHex8 n : fixedHex 8 n = hex8 n.
Proof.
  unfold hex8. cbn [fixedHex List.map app].
  rewrite !Z.div_div by lia.
  change (16 ^ 0) with 1. rewrite Z.div_1_r.
  reflexivity.
Qed.

Lemma padStart0_toString16 n :
  0 <= n < 2 ^ 32 -> padStart0 8 (toString16 n) = hex8 n.
Proof.
  intros Hn. unfold padStart0, toString16.
  rewrite <- fixedHex8.
  apply toHexDigits_pad; [lia|lia|exact Hn|].
  apply log2_fuel_enough. lia.
Qed.

Lemma hex8_lower n : Forall isLowerHex (hex8 n).
Proof.
  unfold hex8. apply Forall_map. apply Forall_forall. intros k _.
  apply hexDigit_lower. apply Z.mod_pos_bound. lia.
Qed.

Lemma djb2Hash_hex8 text : djb2Hash text = hex8 (djb2_spec_fold text).
Proof.
  unfold djb2Hash, ushr32. change (0 mod 32) with 0. rewrite Z.shiftr_0_r.
  unfold djb2_loop.
  rewrite (djb2_loop_refines_from text 5381 5381) by reflexivity.
  apply padStart0_toString16. apply djb2_spec_fold_range.
Qed.

(** C4. The synchronous short digest is the djb2-style fold of the
    specification over the UTF-16 code units (start 5381, then
    [((h << 5) + h) XOR c] modulo 2^32), rendered as exactly eight lowercase
    hexadecimal characters; on ["hello"] it is ["0a9cede7"]. *)
Theorem sha256Sync_djb2_spec :
  (forall text : jsstring,
      sha256Sync text = hex8 (djb2_spec_fold text) /\
      length (sha256Sync text) = 8%nat /\
      Forall isLowerHex (sha256Sync text)) /\
  sha256Sync (lit "hello") = lit "0a9cede7".
Proof.
  split.
  - intros text. unfold sha256Sync. rewrite djb2Hash_hex8.
    split; [reflexivity|]. split; [reflexivity|]. apply hex8_lower.
  - vm_compute. reflexivity.
Qed.

(* ===================================================================== *)
(** * Text signals *)
(* ===================================================================== *)

(** The fuel of [countBreaks]: the length of the text is always enough. *)
Lemma lastBreak_length s : forall (bound : nat) best rest,
  (length s <= bound)%nat ->
  (forall b, best = Some b -> (length b <= bound)%nat) ->
  lastBreak s best = Some rest -> (length rest <= bound)%nat.
Proof.
  induction s as [|c s IH]; intros bound best rest Hs Hb H; simpl in H.
  - apply Hb. exact H.
  - simpl in Hs. destruct (isSpace c).
    + apply (IH bound) in H; [exact H|lia|].
      intros b Eb. destruct (c =? 10).
      * injection Eb as <-. lia.
      * apply Hb. exact Eb.
    + apply Hb. exact H.
Qed.

Lemma countBreaks_fuel : forall fuel s,
  (length s <= fuel)%nat -> countBreaks fuel s = countBreaks (length s) s.
Proof.
  assert (H : forall n fuel1 fuel2 s,
             (length s <= n)%nat -> (length s <= fuel1)%nat ->
             (length s <= fuel2)%nat ->
             countBreaks fuel1 s = countBreaks fuel2 s).
  { induction n as [|n IH]; intros fuel1 fuel2 s Hn H1 H2.
    - destruct s; [|simpl in Hn; lia]. destruct fuel1, fuel2; reflexivity.
    - destruct s as [|c s]; [destruct fuel1, fuel2; reflexivity|].
      simpl in Hn, H1, H2.
      destruct fuel1 as [|fuel1]; [lia|]. destruct fuel2 as [|fuel2]; [lia|].
      cbn [countBreaks].
      destruct (if c =? 10 then lastBreak s None else None) as [rest|] eqn:E.
      + assert (Hr : (length rest <= length s)%nat).
        { destruct (c =? 10); [|discriminate].
          eapply lastBreak_length; [| |exact E]; [lia|].
          intros b Eb. discriminate. }
        f_equal. apply IH; lia.
      + apply IH; lia. }
  intros fuel s Hf. apply (H (length s)); lia.
Qed.

(** C8 (amended). The kind of the text signal of a raw string is decided
    by the normalized text: empty gives [none]; otherwise a raw string with
    two or more blank-line breaks gives [mixed], whatever the length; and
    otherwise length <= 20 gives [short], length <= 150 [sentence], longer
    [paragraph]. *)
Theorem createTextSignalSync_kind :
  forall (toLowerCase : jsstring -> jsstring) (rawText : jsstring),
    let normalized := normalizeText toLowerCase rawText in
    kind (createTextSignalSync toLowerCase rawText) =
    if (length normalized =? 0)%nat then KNone
    else if isMixedContent rawText then KMixed
    else if (length normalized <=? 20)%nat then KShort
    else if (length normalized <=? 150)%nat then KSentence
    else KParagraph.
Proof.
  intros toLowerCase rawText. cbv zeta. unfold createTextSignalSync. cbv zeta.
  destruct (length (normalizeText toLowerCase rawText) =? 0)%nat eqn:E0;
    [reflexivity|].
  cbn [kind]. destruct (isMixedContent rawText); [reflexivity|].
  unfold classifyText. cbv zeta. rewrite E0. reflexivity.
Qed.

(** C8, as stated, fails: [blankLinesOnly] holds two blank-line breaks and
    its normalized text is empty, so its kind is [none], not [mixed]. *)
Lemma blankLinesOnly_not_mixed :
  countBreaks (length blankLinesOnly) blankLinesOnly = 2%nat /\
  isMixedContent blankLinesOnly = true /\
  normalizeText asciiLower blankLinesOnly = [] /\
  kind (createTextSignalSync asciiLower blankLinesOnly) = KNone /\
  ~ statedMixedRule asciiLower blankLinesOnly.
Proof.
  repeat split; try (vm_compute; reflexivity).
  unfold statedMixedRule. intros H.
  assert (E : isMixedContent blankLinesOnly = true) by (vm_compute; reflexivity).
  specialize (H E). vm_compute in H. discriminate H.
Qed.

(* ===================================================================== *)
(** * Node hashes and fingerprints *)
(* ===================================================================== *)

Lemma hashNodeShallow_withChildren n cs o :
  hashNodeShallow (withChildren n cs) o = hashNodeShallow n o.
Proof. reflexivity. Qed.

(* --------------------------------------------------------------------- *)
(** ** The stable sort *)
(* --------------------------------------------------------------------- *)

Section SortFacts.
Context {A B : Type} (cmpA : A -> A -> number) (cmpB : B -> B -> number)
        (h : A -> B).
Hypothesis cmp_h : forall a b, cmpB (h a) (h b) = cmpA a b.

Lemma js_insert_map x l :
  js_insert cmpB (h x) (List.map h l) = List.map h (js_insert cmpA x l).
Proof.
  induction l as [|y l IH]; simpl; [reflexivity|].
  rewrite cmp_h. destruct (PrimFloat.ltb _ _); simpl; [|reflexivity].
  rewrite IH. reflexivity.
Qed.

Lemma js_sort_map l :
  js_sort cmpB (List.map h l) = List.map h (js_sort cmpA l).
Proof.
  induction l as [|x l IH]; simpl; [reflexivity|].
  rewrite IH. apply js_insert_map.
Qed.
End SortFacts.

Lemma js_insert_perm {A} (cmp : A -> A -> number) x l :
  Permutation (x :: l) (js_insert cmp x l).
Proof.
  induction l as [|y l IH]; simpl; [reflexivity|].
  destruct (PrimFloat.ltb _ _); [|reflexivity].
  rewrite perm_swap. constructor. exact IH.
Qed.

Lemma js_sort_perm {A} (cmp : A -> A -> number) l :
  Permutation l (js_sort cmp l).
Proof.
  induction l as [|x l IH]; simpl; [constructor|].
  rewrite <- js_insert_perm. constructor. exact IH.
Qed.

(** The deep hash only depends on the shallow hash of the node and on the
    bounding boxes and deep hashes of its children, in their input order. *)
Lemma hashNodeDeep_keyed o n :
  hashNodeDeep o n =
  match childList n with
  | [] => hashNodeShallow n o
  | cs =>
      combineHashes (hashNodeShallow n o)
        (List.map snd
           (js_sort (fun p q => childCmp (fst p) (fst q))
              (List.map (fun c => (bbox c, hashNodeDeep o c)) cs)))
  end.
Proof.
  destruct n as [i r s nh t b zv ia e v f cs fl].
  destruct cs as [[|c cs]|]; reflexivity.
Qed.

(** [hashNodeDeep] in the order of the source: sort the children by their
    bounding boxes, hash them, combine. *)
Lemma hashNodeDeep_unfold o n :
  hashNodeDeep o n =
  match children n with
  | None => hashNodeShallow n o
  | Some [] => hashNodeShallow n o
  | Some cs =>
      let sortedChildren :=
        js_sort (fun a b => childCmp (bbox a) (bbox b)) cs in
      combineHashes (hashNodeShallow n o)
                    (List.map (hashNodeDeep o) sortedChildren)
  end.
Proof.
  rewrite hashNodeDeep_keyed.
  destruct n as [i r s nh t b zv ia e v f cs fl].
  destruct cs as [[|c cs]|]; try reflexivity.
  cbn [childList children]. cbv zeta. f_equal.
  rewrite (js_sort_map (fun a b => childCmp (bbox a) (bbox b))
                       (fun p q => childCmp (fst p) (fst q))
                       (fun c => (bbox c, hashNodeDeep o c)))
    by reflexivity.
  rewrite map_map. apply map_ext. reflexivity.
Qed.

Lemma hashNodeDeep_congr o n m :
  hashNodeShallow n o = hashNodeShallow m o ->
  List.map (fun c => (bbox c, hashNodeDeep o c)) (childList n)
  = List.map (fun c => (bbox c, hashNodeDeep o c)) (childList m) ->
  hashNodeDeep o n = hashNodeDeep o m.
Proof.
  intros Hs Hc. rewrite !hashNodeDeep_keyed, Hs.
  destruct (childList n) as [|c cs], (childList m) as [|d ds];
    try discriminate; [reflexivity|].
  rewrite Hc. reflexivity.
Qed.

Lemma childList_mapTree g n :
  childList (mapTree g n) = List.map (mapTree g) (childList n).
Proof.
  destruct n as [i r s nh t b zv ia e v f cs fl].
  destruct cs; reflexivity.
Qed.

Lemma bbox_mapTree g n : bbox (mapTree g n) = bbox (g n).
Proof. destruct n; reflexivity. Qed.

Lemma hashNodeShallow_mapTree g n o :
  hashNodeShallow (mapTree g n) o = hashNodeShallow (g n) o.
Proof. destruct n; reflexivity. Qed.

(** A node-wise rewriting that keeps every bounding box and every shallow
    hash keeps the deep hash. *)
Lemma hashNodeDeep_mapTree g o :
  (forall m, bbox (g m) = bbox m) ->
  (forall m, hashNodeShallow (g m) o = hashNodeShallow m o) ->
  forall n, hashNodeDeep o (mapTree g n) = hashNodeDeep o n.
Proof.
  intros Hb Hs n. induction n as [n IH] using UINode_tree_ind.
  apply hashNodeDeep_congr.
  - rewrite hashNodeShallow_mapTree. apply Hs.
  - rewrite childList_mapTree, map_map.
    apply map_ext_Forall.
    eapply Forall_impl; [|exact IH].
    intros c Hc. cbv beta. rewrite Hc, bbox_mapTree, Hb. reflexivity.
Qed.

Example fingerprintCapture_minimal :
  fingerprintCapture minimal = lit "29338a9f".
Proof. vm_compute. reflexivity. Qed.

(** C6. Two captures that differ only in [timestamp_ms], [url] or the
    [compiler] members (name, version, options_hash) have the same
    [fingerprintCapture] and the same [fingerprintLayout]. *)
Theorem fingerprints_ignore_metadata :
  forall (v : jsstring) (vp : ViewportMeta) (r : UINode)
         (url1 url2 : jsstring) (ts1 ts2 : number) (comp1 comp2 : CompilerMeta),
    fingerprintCapture (mkCapture v url1 ts1 vp comp1 r)
    = fingerprintCapture (mkCapture v url2 ts2 vp comp2 r) /\
    fingerprintLayout (mkCapture v url1 ts1 vp comp1 r)
    = fingerprintLayout (mkCapture v url2 ts2 vp comp2 r).
Proof. intros. split; reflexivity. Qed.

Lemma hashNodeShallow_eraseHashes m :
  hashNodeShallow (eraseHashes m) layoutOptions = hashNodeShallow m layoutOptions.
Proof.
  destruct m as [i r s nh t b zv ia e v f cs fl].
  unfold hashNodeShallow, nodeToHashInput, hashParts, text_hash.
  cbn [in_role in_bbox in_interactive in_visible in_enabled in_semantic
       in_text_hash in_name_hash in_z role bbox interactive visible enabled
       semantic text name_hash z eraseHashes Grammar.id Grammar.hash len kind
       children flags focusable].
  change (optIncludeText layoutOptions) with false.
  change (optIncludeName layoutOptions) with false.
  cbn [andb].
  destruct t as [[[h|] l k]|], nh; reflexivity.
Qed.

Lemma fingerprintLayout_eraseHashes c :
  fingerprintLayout (mapCapture eraseHashes c) = fingerprintLayout c.
Proof.
  unfold fingerprintLayout, aspectKey. cbn [mapCapture root viewport].
  rewrite hashNodeDeep_mapTree; [reflexivity| |].
  - intros m. destruct m; reflexivity.
  - apply hashNodeShallow_eraseHashes.
Qed.

(** C7 (amended). Two captures that differ only in the values of
    [text.hash] and/or [name_hash] of some nodes have the same
    [fingerprintLayout]. (Their [fingerprintCapture]s need not differ: only
    the first sixteen characters of a hash enter the digest.) *)
Theorem fingerprintLayout_ignores_text_hashes :
  forall a b : WebSketchCapture,
    differOnlyInHashes a b -> fingerprintLayout a = fingerprintLayout b.
Proof.
  intros a b H. unfold differOnlyInHashes in H.
  rewrite <- (fingerprintLayout_eraseHashes a), H.
  apply fingerprintLayout_eraseHashes.
Qed.

(** [pageTextA] and [pageTextB] have the same layout fingerprint. *)
Lemma fingerprintLayout_ignores_text_hashes_witness :
  fingerprintLayout pageTextA = fingerprintLayout pageTextB.
Proof.
  apply (fingerprintLayout_ignores_text_hashes pageTextA pageTextB).
  reflexivity.
Defined.

(** C7, as stated, fails: [pageTextA] and [pageTextB] differ only in a
    [text.hash] value, and their [fingerprintCapture]s are equal. *)
Lemma fingerprintCapture_equal_despite_text_hash :
  differOnlyInHashes pageTextA pageTextB /\
  pageTextA <> pageTextB /\
  ~ (fingerprintLayout pageTextA = fingerprintLayout pageTextB /\
     fingerprintCapture pageTextA <> fingerprintCapture pageTextB).
Proof.
  split; [reflexivity|]. split; [discriminate|].
  intros [_ H]. apply H. vm_compute. reflexivity.
Qed.

Lemma hashNodeShallow_dropEmptyFields m o :
  hashNodeShallow (dropEmptyFields m) o = hashNodeShallow m o.
Proof.
  destruct m as [i r s nh t b zv ia e v f cs fl].
  unfold hashNodeShallow, nodeToHashInput, hashParts, text_hash.
  cbn [in_role in_bbox in_interactive in_visible in_enabled in_semantic
       in_text_hash in_name_hash in_z role bbox interactive visible enabled
       semantic text name_hash z dropEmptyFields Grammar.id Grammar.hash len
       kind children flags focusable].
  destruct s as [[|? ?]|], nh as [[|? ?]|], t as [[[[|? ?]|] tl tk]|];
    cbn [dropEmpty truthy_str andb Grammar.hash];
    rewrite ?andb_false_r; reflexivity.
Qed.

(** C10. [hashNodeShallow] treats an empty-string [semantic], [text.hash]
    or [name_hash] as an absent one, under every hash option; so removing
    such members anywhere in a capture changes neither [fingerprintCapture]
    nor [fingerprintLayout]. *)
Theorem hashNodeShallow_empty_string_is_absent :
  (forall o i r nh t b zv ia e v f cs fl,
      hashNodeShallow (mkNode i r (Some []) nh t b zv ia e v f cs fl) o
      = hashNodeShallow (mkNode i r None nh t b zv ia e v f cs fl) o) /\
  (forall o i r s nh l k b zv ia e v f cs fl,
      hashNodeShallow
        (mkNode i r s nh (Some (mkText (Some []) l k)) b zv ia e v f cs fl) o
      = hashNodeShallow
          (mkNode i r s nh (Some (mkText None l k)) b zv ia e v f cs fl) o) /\
  (forall o i r s t b zv ia e v f cs fl,
      hashNodeShallow (mkNode i r s (Some []) t b zv ia e v f cs fl) o
      = hashNodeShallow (mkNode i r s None t b zv ia e v f cs fl) o) /\
  (forall c,
      fingerprintCapture (mapCapture dropEmptyFields c) = fingerprintCapture c /\
      fingerprintLayout (mapCapture dropEmptyFields c) = fingerprintLayout c).
Proof.
  split; [|split; [|split]].
  - intros. reflexivity.
  - intros. unfold hashNodeShallow, nodeToHashInput, hashParts, text_hash.
    cbn [in_text_hash text Grammar.hash truthy_str andb].
    rewrite andb_false_r. reflexivity.
  - intros. unfold hashNodeShallow, nodeToHashInput, hashParts.
    cbn [in_name_hash name_hash truthy_str andb].
    rewrite andb_false_r. reflexivity.
  - intros c. unfold fingerprintCapture, fingerprintLayout, aspectKey.
    cbn [mapCapture root viewport].
    rewrite !hashNodeDeep_mapTree;
      try (intros m; destruct m; reflexivity);
      try (intros m; apply hashNodeShallow_dropEmptyFields).
    split; reflexivity.
Qed.

(* ===================================================================== *)
(** * The order of siblings *)
(* ===================================================================== *)

(** Split a conjunction into its parts, leaving equations alone. *)
Ltac conjuncts := repeat match goal with |- _ /\ _ => split end.

(** Close a goal (or the parts of a conjunction) by evaluation. *)
Ltac evaluate := conjuncts; vm_compute; reflexivity.

Section SiblingOrder.

Local Open Scope float_scope.

(** The comparator of [hashNodeDeep] goes round in a circle on the three
    siblings: no two of them compare equal, [sibB] sorts before [sibA],
    [sibC] before [sibB], and [sibA] before [sibC]. *)
Example siblingCmp_cycle :
  (siblingCmp sibB sibA <? 0) = true /\
  (siblingCmp sibC sibB <? 0) = true /\
  (siblingCmp sibA sibC <? 0) = true.
Proof. evaluate. Qed.

(** The difference of two [y] values is rounded before it is compared with
    the step: 0.101 - 0.1 is more than 0.001 as doubles, so [rowP] sorts
    before [rowQ] by [y] while [rowQ] sorts before [rowR] and [rowR] before
    [rowP] by [x]; three input orders give three fingerprints. *)
Example siblingCmp_rounded_difference :
  by_ (bbox rowQ) - by_ (bbox rowP) = 0.0010000000000000009 /\
  (BBOX_QUANT_STEP <? by_ (bbox rowQ) - by_ (bbox rowP)) = true /\
  (siblingCmp rowP rowQ <? 0) = true /\
  (siblingCmp rowQ rowR <? 0) = true /\
  (siblingCmp rowR rowP <? 0) = true /\
  fingerprintCapture (pageOf [rowP; rowQ; rowR]) = lit "b0f841f9" /\
  fingerprintCapture (pageOf [rowQ; rowR; rowP]) = lit "ee929351" /\
  fingerprintCapture (pageOf [rowR; rowP; rowQ]) = lit "20cfa173".
Proof. evaluate. Qed.

(** C3 (the code departs from it). No two of [sibA], [sibB], [sibC] compare
    equal, so every permutation of them keeps their [(y, x)] classes; the
    sort of [hashNodeDeep] leaves the input orders [[sibB; sibA; sibC]] and
    [[sibA; sibC; sibB]] as they are, and the two pages have the
    fingerprints [ca8f02bb] and [c3a74444] (and the same two layout
    fingerprints): the fingerprint depends on the input order of the
    children. *)
Theorem fingerprint_depends_on_sibling_order :
  Permutation [sibB; sibA; sibC] [sibA; sibC; sibB] /\
  keepsTies siblingCmp [sibB; sibA; sibC] [sibA; sibC; sibB] /\
  js_sort siblingCmp [sibB; sibA; sibC] = [sibB; sibA; sibC] /\
  js_sort siblingCmp [sibA; sibC; sibB] = [sibA; sibC; sibB] /\
  fingerprintCapture (pageOf [sibB; sibA; sibC]) = lit "ca8f02bb" /\
  fingerprintCapture (pageOf [sibA; sibC; sibB]) = lit "c3a74444" /\
  fingerprintLayout (pageOf [sibB; sibA; sibC]) = lit "ca8f02bb" /\
  fingerprintLayout (pageOf [sibA; sibC; sibB]) = lit "c3a74444" /\
  ~ statedInvariance [sibB; sibA; sibC] [sibA; sibC; sibB].
Proof.
  assert (P : Permutation [sibB; sibA; sibC] [sibA; sibC; sibB])
    by (apply (Permutation_cons_app [sibA; sibC] [] sibB); rewrite app_nil_r;
        apply Permutation_refl).
  assert (K : keepsTies siblingCmp [sibB; sibA; sibC] [sibA; sibC; sibB]).
  { intros a Ha. cbn in Ha.
    destruct Ha as [<-|[<-|[<-|[]]]]; vm_compute; reflexivity. }
  conjuncts; try assumption; try (vm_compute; reflexivity).
  unfold statedInvariance. intros H.
  specialize (H P K). vm_compute in H. discriminate H.
Qed.

End SiblingOrder.

(* ===================================================================== *)
(** * Similarity *)
(* ===================================================================== *)

Section Similarity.

Local Open Scope float_scope.

(** C1 (the code departs from it). On a node with a [semantic] paired with
    itself the function awards the two semantic points without adding their
    weight: it returns 8/7 up to the rounding of doubles
    (1.142857142857143), above 1, where the table of the specification
    gives 8/9 (0.8888888888888891). *)
Theorem nodeSimilarity_semantic_match_above_one :
  nodeSimilarity submitButton submitButton = 1.142857142857143 /\
  (1 <? nodeSimilarity submitButton submitButton) = true /\
  similarityParts submitButton submitButton = (8.0000000000000018, 7) /\
  nodeSimilarity_table submitButton submitButton = 0.8888888888888891 /\
  (nodeSimilarity_table submitButton submitButton <=? 1) = true.
Proof. evaluate. Qed.

End Similarity.

(* ===================================================================== *)
(** * The diff of a capture with itself *)
(* ===================================================================== *)

Section SelfDiffFacts.

Local Open Scope float_scope.

(** The two fingerprint flags of a self-diff are true of every capture. *)
Lemma diff_self_fingerprints c o :
  fingerprintsMatch (summary (diff c c o)) = true /\
  layoutFingerprintsMatch (summary (diff c c o)) = true.
Proof.
  unfold diff. cbv zeta. cbn [summary fingerprintsMatch layoutFingerprintsMatch].
  rewrite !str_eqb_refl. split; reflexivity.
Qed.

(** The overlap of a box with itself need not be the largest: the two cards
    of [twoCards] overlap each other more than the taller one overlaps
    itself. *)
Example bboxSimilarity_self_not_largest :
  bboxSimilarity (bbox cardTall) (bbox cardTall) = 1 /\
  bboxSimilarity (bbox cardTall) (bbox cardShort) = 1.0000000000000004 /\
  bboxSimilarity (bbox cardShort) (bbox cardShort) = 1.0000000000000004 /\
  (nodeSimilarity cardTall cardTall <? nodeSimilarity cardTall cardShort)
  = true.
Proof. evaluate. Qed.

(** C2 (the code departs from it). [twoCards] is a valid capture, and its
    diff with itself pairs each card with the other one: the result has
    [identical = false] and two [children_changed] changes. (The two
    fingerprint flags are true, as for every capture.) *)
Theorem diff_self_not_identical :
  validateCapture (toJSON twoCards) noLimits = [] /\
  (let r := diff twoCards twoCards noDiffOptions in
   identical (summary r) = false /\
   List.map ctype (changes r) = [children_changed; children_changed] /\
   List.map description (changes r)
   = [lit "CARD children: 1" ++ arrow ++ lit "0";
      lit "CARD children: 0" ++ arrow ++ lit "1"] /\
   n_children_changed (counts (summary r)) = 2%nat /\
   fingerprintsMatch (summary r) = true /\
   layoutFingerprintsMatch (summary r) = true) /\
  matchedPaths twoCards
  = [(lit "PAGE[0]/CARD[0]/TEXT", lit "PAGE[0]/CARD[0]/TEXT");
     (lit "PAGE[0]/CARD", lit "PAGE[1]/CARD");
     (lit "PAGE[1]/CARD", lit "PAGE[0]/CARD");
     (lit "PAGE", lit "PAGE")] /\
  ~ statedIdentity twoCards.
Proof.
  split; [vm_compute; reflexivity|].
  split; [cbv zeta; evaluate|].
  split; [vm_compute; reflexivity|].
  unfold statedIdentity. cbv zeta. intros [H _].
  vm_compute in H. discriminate H.
Qed.

End SelfDiffFacts.

(* ===================================================================== *)
(** * Validation and strict parsing *)
(* ===================================================================== *)

(** The reader and the writer on the examples. *)
Example JSON_parse_pageSketch :
  JSON_parse textPageSketch = Parsed (toJSON pageSketch).
Proof. vm_compute. reflexivity. Qed.

Example JSON_stringify_pageSketch :
  JSON_stringify (toJSON pageSketch) = textPageSketch.
Proof. vm_compute. reflexivity. Qed.

(** Escapes and surrogate pairs are read, a repeated key keeps its place
    and takes the last value, [-0] keeps its sign. *)
Example JSON_parse_textMixed :
  JSON_parse textMixed
  = Parsed (JObj [(lit "a" ++ [10; 233; 233; 55357; 56832],
                   JArr [JNum 1; JNum (-0); JNum 2500; JNum 0.01; JNum 0.1;
                         JBool true; JNull]);
                  (lit "k", JStr (lit "x"));
                  (lit "b", JObj [])]).
Proof. vm_compute. reflexivity. Qed.

(** Texts that [JSON.parse] rejects. *)
Example JSON_parse_rejects :
  Forall (fun text => exists name message,
              JSON_parse (lit text) = SyntaxError name message)
         ["not json"; "01"; "1."; ".5"; "+1"; "1e"; "[1,]"; "{,}"; "[1 2]";
          "nul"; "{}x"; ""; "-"; "1-2"; "[";
          "{1:2}"]%string.
Proof. repeat constructor; eexists; eexists; vm_compute; reflexivity. Qed.

Lemma getProp_In ms k v : getProp ms k = Some v -> exists k', In (k', v) ms.
Proof.
  induction ms as [|[k0 v0] ms IH]; simpl; [discriminate|].
  destruct (str_eqb k0 k).
  - intros E. injection E as ->. exists k0. left. reflexivity.
  - intros E. destruct (IH E) as [k' H]. exists k'. right. exact H.
Qed.

(** [validateNode] as the source reads: the limit checks, the checks on the
    members, then the loop over [node.children]. *)
Lemma validateNode_unfold data limits depth path st :
  validateNode data limits depth path st =
  let st := (fst st + 1, snd st)%Z in
  if exceeds (fst st) (maxNodes limits)
  then push st (nodeLimitIssue path limits (fst st))
  else if exceeds depth (maxDepth limits)
  then push st (depthLimitIssue path limits depth)
  else
    match data with
    | JObj node =>
        let st := (fst st, snd st ++ memberIssues node path) in
        match getProp node (lit "children") with
        | None => st
        | Some (JArr children) =>
            eachChild (fun child p s =>
                         validateNode child limits (depth + 1)%Z p s)
                      path children O st
        | Some v => push st (childrenNotArray path v)
        end
    | other =>
        push st (issue path (lit "object") (typeOf (Some other))
                       (lit "Node must be an object"))
    end.
Proof.
  destruct data as [| | | | |node]; try reflexivity.
  cbn [validateNode]. cbv zeta.
  destruct (exceeds _ _); [reflexivity|].
  destruct (exceeds _ _); [reflexivity|].
  cbn [fst snd].
  set (st0 := ((fst st + 1)%Z, snd st ++ memberIssues node path)).
  clearbody st0.
  induction node as [|[k v] node IH]; [reflexivity|].
  cbn [getProp]. destruct (str_eqb k (lit "children")); [|exact IH].
  destruct v as [| | | |children|]; try reflexivity.
  generalize O. generalize st0. clear.
  induction children as [|c cs IH]; intros st0 i; [reflexivity|].
  cbn [eachChild]. cbv zeta.
  destruct (tooManyIssues _); [reflexivity|]. apply IH.
Qed.

(* ------------------------------------------------------------------ *)
(** ** Where a [version] issue can come from *)

Lemma extends_refl st : extends st st.
Proof. exists []. split; [symmetry; apply app_nil_r|constructor]. Qed.

Lemma extends_trans st1 st2 st3 :
  extends st1 st2 -> extends st2 st3 -> extends st1 st3.
Proof.
  intros (a & E1 & F1) (b & E2 & F2). exists (a ++ b). split.
  - rewrite E2, E1, app_assoc. reflexivity.
  - apply Forall_app. split; assumption.
Qed.

Lemma extends_push st i : underRoot i -> extends st (push st i).
Proof. intros Hi. exists [i]. split; [reflexivity|repeat constructor; exact Hi]. Qed.

Lemma memberIssues_underRoot node p :
  Forall underRoot (memberIssues node (114%Z :: p)).
Proof.
  unfold memberIssues, roleIssues, bboxIssues, booleanIssue, idIssues,
    textIssues.
  repeat (apply Forall_app; split).
  - destruct (getProp node (lit "role")) as [[| | |r| |]|];
      try destruct (isValidRole r); repeat constructor; eexists; reflexivity.
  - destruct (getProp node (lit "bbox")) as [[| | | |bbox|]|];
      try (repeat constructor; eexists; reflexivity).
    destruct (negb _); [repeat constructor; eexists; reflexivity|].
    cbn [flat_map]. repeat (apply Forall_app; split); try constructor;
      unfold bboxElementIssue;
      match goal with
      | |- context [nth_error bbox ?i] =>
          destruct (nth_error bbox i) as [[| | | | |]|]
      end; repeat constructor; eexists; reflexivity.
  - destruct (getProp node (lit "interactive")) as [[| | | | |]|];
      repeat constructor; eexists; reflexivity.
  - destruct (getProp node (lit "visible")) as [[| | | | |]|];
      repeat constructor; eexists; reflexivity.
  - destruct (getProp node (lit "id")) as [[| | | | |]|];
      repeat constructor; eexists; reflexivity.
  - destruct (getProp node (lit "text")) as [[| | | | |t]|];
      try (repeat constructor; eexists; reflexivity).
    destruct (getProp t (lit "kind")) as [[| | | | |]|];
      repeat constructor; eexists; reflexivity.
Qed.

Lemma eachChild_extends visit p children :
  Forall (fun child => forall q st, extends st (visit child (114%Z :: q) st))
         children ->
  forall i st, extends st (eachChild visit (114%Z :: p) children i st).
Proof.
  induction 1 as [|c cs Hc _ IH]; intros i st; cbn [eachChild];
    [apply extends_refl|].
  cbv zeta. unfold childPath. cbn [app].
  destruct (tooManyIssues _); [apply Hc|].
  eapply extends_trans; [apply Hc|apply IH].
Qed.

(** Every issue [validateNode] adds lies under the path it was given. *)
Lemma validateNode_extends data :
  forall limits depth p st,
    extends st (validateNode data limits depth (114%Z :: p) st).
Proof.
  assert (Hpush : forall (st : VState) i,
             underRoot i -> extends st (push (fst st + 1, snd st)%Z i)).
  { intros st i Hi. exists [i]. split; [reflexivity|repeat constructor; exact Hi]. }
  assert (Hleaf : forall v limits depth p st,
             match v with JObj _ => False | _ => True end ->
             extends st (validateNode v limits depth (114%Z :: p) st)).
  { intros v limits depth p st Hv. rewrite validateNode_unfold. cbv zeta.
    destruct (exceeds _ _); [apply Hpush; eexists; reflexivity|].
    destruct (exceeds _ _); [apply Hpush; eexists; reflexivity|].
    destruct v; try contradiction; (apply Hpush; eexists; reflexivity). }
  set (P := fun v => forall limits depth p st,
                extends st (validateNode v limits depth (114%Z :: p) st)).
  set (P' := fun v => P v /\ match v with JArr l => Forall P l | _ => True end).
  enough (H : P' data) by (apply H).
  induction data as [| | | |l IH|ms IH] using JSON_tree_ind; unfold P', P.
  - split; [|exact I]. intros. apply Hleaf. exact I.
  - split; [|exact I]. intros. apply Hleaf. exact I.
  - split; [|exact I]. intros. apply Hleaf. exact I.
  - split; [|exact I]. intros. apply Hleaf. exact I.
  - split; [intros; apply Hleaf; exact I|].
    eapply Forall_impl; [|exact IH]. intros v Hv. apply Hv.
  - split; [|exact I]. intros limits depth p st.
    rewrite validateNode_unfold. cbv zeta.
    destruct (exceeds _ _); [apply Hpush; eexists; reflexivity|].
    destruct (exceeds _ _); [apply Hpush; eexists; reflexivity|].
    cbn [fst snd].
    set (st1 := ((fst st + 1)%Z, snd st ++ memberIssues ms (114%Z :: p))).
    assert (H1 : extends st st1).
    { exists (memberIssues ms (114%Z :: p)). split; [reflexivity|].
      apply memberIssues_underRoot. }
    destruct (getProp ms (lit "children")) as [v|] eqn:Ec; [|exact H1].
    destruct (getProp_In _ _ _ Ec) as [k Hin].
    rewrite Forall_forall in IH. specialize (IH _ Hin). cbn [snd] in IH.
    destruct v as [| | | |children|];
      try (eapply extends_trans; [exact H1|];
           apply extends_push; eexists; reflexivity).
    destruct IH as [_ IH].
    eapply extends_trans; [exact H1|].
    apply eachChild_extends.
    eapply Forall_impl; [|exact IH]. intros c Hc q st0. apply Hc.
Qed.

Lemma underRoot_not_version i : underRoot i -> isVersionIssue i = false.
Proof.
  intros [rest E]. unfold isVersionIssue. rewrite E. reflexivity.
Qed.

Lemma find_app {A} (f : A -> bool) l1 l2 :
  find f (l1 ++ l2) =
  match find f l1 with Some x => Some x | None => find f l2 end.
Proof.
  induction l1 as [|x l1 IH]; simpl; [reflexivity|].
  destruct (f x); [reflexivity|exact IH].
Qed.

Lemma find_all_false {A} (f : A -> bool) l :
  Forall (fun x => f x = false) l -> find f l = None.
Proof.
  induction 1 as [|x l Hx _ IH]; simpl; [reflexivity|].
  rewrite Hx. exact IH.
Qed.

(** The issues of an object are its [version] issue, if any, followed by
    issues that are not [version] issues. *)
Lemma validateCapture_object obj limits :
  exists rest,
    validateCapture (JObj obj) limits = versionIssues obj ++ rest /\
    Forall (fun i => isVersionIssue i = false) rest.
Proof.
  unfold validateCapture. cbv zeta.
  assert (Hh : exists hs, headerIssues obj = versionIssues obj ++ hs /\
                          Forall (fun i => isVersionIssue i = false) hs).
  { unfold headerIssues. eexists. split; [reflexivity|].
    unfold stringIssue, numberIssue, viewportIssues, compilerIssues,
      stringIssue, numberIssue.
    repeat (apply Forall_app; split).
    - destruct (getProp obj (lit "url")) as [[| | | | |]|]; repeat constructor.
    - destruct (getProp obj (lit "timestamp_ms")) as [[| | | | |]|];
        repeat constructor.
    - destruct (getProp obj (lit "viewport")) as [[| | | | |vp]|];
        try (repeat constructor).
      repeat (apply Forall_app; split).
      + destruct (getProp vp (lit "w_px")) as [[| | | | |]|]; repeat constructor.
      + destruct (getProp vp (lit "h_px")) as [[| | | | |]|]; repeat constructor.
      + destruct (getProp vp (lit "aspect")) as [[| | | | |]|]; repeat constructor.
    - destruct (getProp obj (lit "compiler")) as [[| | | | |comp]|];
        try (repeat constructor).
      repeat (apply Forall_app; split).
      + destruct (getProp comp (lit "name")) as [[| | | | |]|]; repeat constructor.
      + destruct (getProp comp (lit "version")) as [[| | | | |]|];
          repeat constructor.
      + destruct (getProp comp (lit "options_hash")) as [[| | | | |]|];
          repeat constructor. }
  destruct Hh as (hs & Eh & Fh). rewrite Eh.
  assert (Hroot : forall root,
             exists rest,
               snd (validateNode root (resolveLimits limits) 0%Z (lit "root")
                                 (0%Z, versionIssues obj ++ hs))
               = versionIssues obj ++ rest /\
               Forall (fun i => isVersionIssue i = false) rest).
  { intros root.
    destruct (validateNode_extends root (resolveLimits limits) 0%Z (lit "oot")
                                   (0%Z, versionIssues obj ++ hs))
      as (added & Ea & Fa).
    change (114%Z :: lit "oot") with (lit "root") in Ea.
    exists (hs ++ added). split.
    - rewrite Ea. cbn [snd]. rewrite app_assoc. reflexivity.
    - apply Forall_app. split; [exact Fh|].
      eapply Forall_impl; [|exact Fa]. apply underRoot_not_version. }
  destruct (getProp obj (lit "root")) as [[| | | | |]|];
    try apply Hroot;
    (eexists; split; [rewrite <- app_assoc; reflexivity|];
     apply Forall_app; split; [exact Fh|repeat constructor]).
Qed.

Lemma quoted_inj a b : quoted a = quoted b -> a = b.
Proof.
  unfold quoted. intros H. apply app_inv_head in H.
  apply app_inv_tail in H. exact H.
Qed.

Lemma version_dec (v : JSON) : {v = JStr (lit "0.1")} + {v <> JStr (lit "0.1")}.
Proof.
  destruct v as [| | |s| |]; try (right; discriminate).
  destruct (list_eq_dec Z.eq_dec s (lit "0.1")) as [->|N].
  - left. reflexivity.
  - right. intros H. injection H as H. contradiction.
Qed.

(** The first [version] issue of an object that reports a present value:
    there is one exactly when [version] is there and is not ["0.1"]. *)
Lemma find_version_issue obj limits :
  (forall v, getProp obj (lit "version") = Some v -> v <> JStr (lit "0.1") ->
             exists vi,
               find isVersionIssue (validateCapture (JObj obj) limits) = Some vi /\
               i_received vi <> quoted (lit "0.1")) /\
  (getProp obj (lit "version") = None \/
   getProp obj (lit "version") = Some (JStr (lit "0.1")) ->
   find isVersionIssue (validateCapture (JObj obj) limits) = None).
Proof.
  destruct (validateCapture_object obj limits) as (rest & E & F).
  rewrite E, find_app, (find_all_false _ rest F).
  unfold versionIssues. split.
  - intros v Ev Hv. rewrite Ev.
    destruct v as [| | |s| |];
      try (eexists; split; [reflexivity|]; discriminate).
    destruct (str_eqb s (lit "0.1")) eqn:Es.
    + apply str_eqb_eq in Es. subst s. contradiction.
    + eexists. split; [reflexivity|]. cbn [i_received].
      intros H. apply quoted_inj in H. subst s. apply Hv. reflexivity.
  - intros [Ev|Ev]; rewrite Ev; reflexivity.
Qed.

(** A value that is an object with a [version] member other than the
    string ["0.1"]. *)
Lemma otherVersion_dec (data : JSON) :
  {exists obj v, data = JObj obj /\ getProp obj (lit "version") = Some v /\
                 v <> JStr (lit "0.1")}
  + {~ exists obj v, data = JObj obj /\ getProp obj (lit "version") = Some v /\
                     v <> JStr (lit "0.1")}.
Proof.
  destruct data as [| | | | |obj];
    try (right; intros (obj' & v & E & _); discriminate E).
  destruct (getProp obj (lit "version")) as [v|] eqn:Ev.
  - destruct (version_dec v) as [->|Hv].
    + right. intros (obj' & v & E & Ev' & Hv). injection E as <-.
      rewrite Ev in Ev'. injection Ev' as <-. apply Hv. reflexivity.
    + left. exists obj, v. repeat split; assumption.
  - right. intros (obj' & v & E & Ev' & _). injection E as <-.
    rewrite Ev in Ev'. discriminate Ev'.
Qed.

(** The first [version] issue that reports a present value: there is one
    exactly when the value is an object with another version. *)
Lemma find_isVersionIssue data limits :
  (forall vi, find isVersionIssue (validateCapture data limits) = Some vi ->
              exists obj v, data = JObj obj /\
                            getProp obj (lit "version") = Some v /\
                            v <> JStr (lit "0.1")) /\
  ((exists obj v, data = JObj obj /\ getProp obj (lit "version") = Some v /\
                  v <> JStr (lit "0.1")) ->
   exists vi, find isVersionIssue (validateCapture data limits) = Some vi /\
              i_received vi <> quoted (lit "0.1")).
Proof.
  split.
  - intros vi Hf.
    destruct data as [| | | | |obj]; try discriminate.
    destruct (find_version_issue obj limits) as [_ Hnone].
    destruct (getProp obj (lit "version")) as [v|] eqn:Ev;
      [|rewrite Hnone in Hf by (left; reflexivity); discriminate].
    destruct (version_dec v) as [->|Hv];
      [rewrite Hnone in Hf by (right; reflexivity); discriminate|].
    exists obj, v. repeat split; assumption.
  - intros (obj & v & -> & Ev & Hv).
    destruct (find_version_issue obj limits) as [Hsome _].
    exact (Hsome v Ev Hv).
Qed.

Lemma find_isLimitIssue found :
  match find isLimitIssue found with
  | Some li => In li found /\ limitIssue li
  | None => forall i, In i found -> ~ limitIssue i
  end.
Proof.
  destruct (find isLimitIssue found) as [li|] eqn:E.
  - apply find_some in E. destruct E as [Hin Hb]. split; [exact Hin|].
    unfold isLimitIssue in Hb. apply orb_true_iff in Hb. exact Hb.
  - intros i Hin Hl. pose proof (find_none _ _ E _ Hin) as Hb.
    unfold isLimitIssue in Hb. apply orb_false_iff in Hb.
    destruct Hb as [H1 H2]. destruct Hl as [Hl|Hl]; congruence.
Qed.

(** What [classify] does, case by case: the version comes first, then the
    limits, then the general issues. *)
Lemma classify_outcome data limits :
  let found := validateCapture data limits in
  let other := exists obj v, data = JObj obj /\
                             getProp obj (lit "version") = Some v /\
                             v <> JStr (lit "0.1") in
  let limit := exists i, In i found /\ limitIssue i in
  (found = [] /\ classify data limits = Returns data) \/
  (found <> [] /\
   exists ws, classify data limits = Throws ws /\
     ((code ws = WS_UNSUPPORTED_VERSION /\ other) \/
      (code ws = WS_LIMIT_EXCEEDED /\ ~ other /\ limit) \/
      (code ws = WS_INVALID_CAPTURE /\ ~ other /\ ~ limit))).
Proof.
  cbv zeta. unfold classify. cbv zeta.
  destruct (find_isVersionIssue data limits) as [Hfrom Hto].
  pose proof (find_isLimitIssue (validateCapture data limits)) as Hl.
  destruct (validateCapture data limits) as [|i0 found] eqn:Ef.
  - left. split; reflexivity.
  - right. split; [discriminate|]. cbn [length Nat.ltb Nat.leb].
    destruct (otherVersion_dec data) as [Ho|Hno].
    + destruct (Hto Ho) as (vi & Hf & Hr). rewrite Hf.
      destruct (str_eqb (i_received vi) (quoted (lit "0.1"))) eqn:Es;
        [apply str_eqb_eq in Es; contradiction|].
      cbn [negb]. eexists. split; [reflexivity|]. left. split; [reflexivity|].
      exact Ho.
    + destruct (find isVersionIssue (i0 :: found)) as [vi|] eqn:Hf;
        [exfalso; apply Hno; exact (Hfrom vi eq_refl)|].
      destruct (find isLimitIssue (i0 :: found)) as [li|].
      * eexists. split; [reflexivity|]. right. left.
        split; [reflexivity|]. split; [exact Hno|]. exists li. exact Hl.
      * eexists. split; [reflexivity|]. right. right.
        split; [reflexivity|]. split; [exact Hno|].
        intros (i & Hin & Hi). exact (Hl i Hin Hi).
Qed.

(** C5 (amended). [parseCapture] classifies validation failures with the
    priority Version > Limit > General. It fails with
    [WS_UNSUPPORTED_VERSION] exactly when validation reports a [version]
    issue whose received value is not ["undefined"], that is, exactly when
    the parsed value is an object whose [version] member is present and is
    not the string ["0.1"] (whatever its type); otherwise it fails with
    [WS_LIMIT_EXCEEDED] exactly when some issue has a message that tells of
    an exceeded [maxNodes] or [maxDepth]; otherwise it fails with
    [WS_INVALID_CAPTURE] exactly when there is an issue at all. So a value
    without a [version] is reported as [WS_LIMIT_EXCEEDED] when there is
    such a limit issue and as [WS_INVALID_CAPTURE] when there is none. *)
Theorem parseCapture_failure_priority :
  forall (parse : jsstring -> ParseOutcome) (json : jsstring)
         (limits : PartialLimits),
    (throwsCode parse json limits WS_UNSUPPORTED_VERSION
     <-> reports parse json limits versionIssue) /\
    (throwsCode parse json limits WS_UNSUPPORTED_VERSION
     <-> hasOtherVersion parse json) /\
    (throwsCode parse json limits WS_LIMIT_EXCEEDED
     <-> ~ hasOtherVersion parse json /\ reports parse json limits limitIssue) /\
    (throwsCode parse json limits WS_INVALID_CAPTURE
     <-> reports parse json limits anyIssue /\
         ~ hasOtherVersion parse json /\
         ~ reports parse json limits limitIssue) /\
    (hasNoVersion parse json ->
     (reports parse json limits limitIssue ->
      throwsCode parse json limits WS_LIMIT_EXCEEDED) /\
     (~ reports parse json limits limitIssue ->
      throwsCode parse json limits WS_INVALID_CAPTURE)).
Proof.
  intros parse json limits.
  unfold throwsCode, reports, hasOtherVersion, hasNoVersion, parseCapture.
  destruct (parse json) as [data|nm msg] eqn:Ej.
  2:{ (* no value: none of the three codes, none of the conditions *)
    repeat match goal with
           | |- _ /\ _ => split
           | |- _ <-> _ => split
           end; intros;
      repeat match goal with
             | H : exists _, _ |- _ => destruct H
             | H : _ /\ _ |- _ => destruct H
             | H : SyntaxError _ _ = Parsed _ |- _ => discriminate H
             | H : Throws _ = Throws _ |- _ => injection H as <-
             | H : code _ = _ |- _ => discriminate H
             end. }
  pose proof (classify_outcome data limits) as Hc. cbv zeta in Hc.
  pose proof (find_isVersionIssue data limits) as [Hfrom Hto].
  set (found := validateCapture data limits) in *.
  set (other := exists obj v, data = JObj obj /\
                              getProp obj (lit "version") = Some v /\
                              v <> JStr (lit "0.1")) in *.
  set (limit := exists i, In i found /\ limitIssue i) in *.
  assert (Eo : (exists obj v, Parsed data = Parsed (JObj obj) /\
                              getProp obj (lit "version") = Some v /\
                              v <> JStr (lit "0.1")) <-> other).
  { split; intros (obj & v & E & Ev & Hv); exists obj, v;
      (split; [congruence|split; assumption]). }
  assert (El : (exists data0 i, Parsed data = Parsed data0 /\
                                In i (validateCapture data0 limits) /\
                                limitIssue i) <-> limit).
  { split.
    - intros (d & i & E & Hin & Hi). injection E as <-. exists i. split; assumption.
    - intros (i & Hin & Hi). exists data, i. repeat split; assumption. }
  assert (Ea : (exists data0 i, Parsed data = Parsed data0 /\
                                In i (validateCapture data0 limits) /\
                                anyIssue i) <-> found <> []).
  { split.
    - intros (d & i & E & Hin & _). injection E as <-. intros E.
      fold found in Hin. rewrite E in Hin. exact Hin.
    - intros Hne. destruct found as [|i l] eqn:E; [contradiction|].
      exists data, i. split; [reflexivity|]. split; [|exact I].
      unfold found in E. rewrite E. left. reflexivity. }
  assert (Ev : (exists data0 i, Parsed data = Parsed data0 /\
                                In i (validateCapture data0 limits) /\
                                versionIssue i) <-> other).
  { split.
    - intros (d & i & E & Hin & Hp & Hr). injection E as <-.
      assert (Hi : isVersionIssue i = true).
      { unfold isVersionIssue. rewrite Hp, str_eqb_refl. cbn [andb].
        apply negb_true_iff. destruct (str_eqb _ _) eqn:Es; [|reflexivity].
        apply str_eqb_eq in Es. contradiction. }
      destruct (find isVersionIssue (validateCapture data limits)) as [vi|] eqn:Ef;
        [|pose proof (find_none _ _ Ef _ Hin); congruence].
      exact (Hfrom vi Ef).
    - intros Ho. destruct (Hto Ho) as (vi & Hf & Hr).
      apply find_some in Hf. destruct Hf as [Hin Hb].
      unfold isVersionIssue in Hb. apply andb_true_iff in Hb.
      destruct Hb as [Hp Hu]. apply str_eqb_eq in Hp.
      exists data, vi. repeat split; try assumption.
      intros H. rewrite H in Hu. discriminate. }
  rewrite Eo, El, Ea, Ev.
  assert (En : (exists obj, Parsed data = Parsed (JObj obj) /\
                            getProp obj (lit "version") = None) -> ~ other
                                                                   /\ found <> []).
  { intros (obj & E & Hn). injection E as ->. split.
    - intros (obj' & v & E & Ev' & _). injection E as <-.
      rewrite Hn in Ev'. discriminate.
    - unfold found.
      destruct (validateCapture_object obj limits) as (rest & -> & _).
      unfold versionIssues. rewrite Hn. discriminate. }
  destruct Hc as [[Hnil Hret]|(Hne & ws & Hth & Hcase)].
  - (* no issue: the value is returned *)
    rewrite Hret.
    assert (Hnl : ~ limit).
    { intros (i & Hin & _). rewrite Hnil in Hin. exact Hin. }
    assert (Hno : ~ other).
    { intros Ho. destruct (Hto Ho) as (vi & Hf & _).
      fold found in Hf. rewrite Hnil in Hf. discriminate. }
    repeat match goal with
           | |- _ /\ _ => split
           | |- _ <-> _ => split
           end;
      try (intros (ws & Hp & _); discriminate Hp);
      try tauto.
  - rewrite Hth.
    assert (Hws : forall c, (exists ws0, Throws ws = Throws ws0 /\ code ws0 = c)
                            <-> code ws = c).
    { intros c. split.
      - intros (ws0 & E & Hc). injection E as <-. exact Hc.
      - intros Hc. exists ws. split; [reflexivity|exact Hc]. }
    rewrite !Hws.
    destruct Hcase as [[Hc Ho]|[(Hc & Hno & Hl)|(Hc & Hno & Hnl)]]; rewrite Hc;
      repeat match goal with
             | |- _ /\ _ => split
             | |- _ <-> _ => split
             end;
      try tauto; try discriminate;
      try (intros Hn; destruct (En Hn) as [Hno' _]; tauto);
      try (intros; repeat split; (assumption || discriminate || tauto)).
Qed.

(** C5, as stated, fails in both directions: the text [{}] has a [version]
    issue whose received value is not ["0.1"] and is rejected as an invalid
    capture, and the text [{"version": 42}] is rejected for its version
    although that version is not a string. *)
Lemma parseCapture_unsupported_version_counterexample :
  ~ statedRule JSON_parse textEmptyObject noLimits /\
  ~ statedRule JSON_parse textVersionNumber noLimits.
Proof.
  split.
  - intros [Ha _].
    destruct (Ha (JObj [])
                 (issue (lit "version") (quoted (lit "0.1")) (lit "undefined")
                        (lit "Capture version is required")))
      as (ws & Hp & Hc).
    + reflexivity.
    + left. reflexivity.
    + reflexivity.
    + discriminate.
    + vm_compute in Hp. injection Hp as <-. discriminate.
  - intros [_ Hb]. destruct Hb as (obj & s & Ej & Ev & _).
    + eexists. split; [vm_compute; reflexivity|reflexivity].
    + vm_compute in Ej. injection Ej as <-. vm_compute in Ev. discriminate.
Qed.

(** The three failures of a validation, on texts: a version of another
    type, a missing version with a node over the limit, a missing version
    alone. *)
Example parseCapture_three_failures :
  throwsCode JSON_parse textVersionNumber noLimits WS_UNSUPPORTED_VERSION /\
  throwsCode JSON_parse textRootOnly noNodes WS_LIMIT_EXCEEDED /\
  throwsCode JSON_parse textRootOnly noLimits WS_INVALID_CAPTURE /\
  throwsCode JSON_parse textEmptyObject noLimits WS_INVALID_CAPTURE /\
  throwsCode JSON_parse textNotJson noLimits WS_INVALID_JSON.
Proof.
  conjuncts; (eexists; split; [vm_compute; reflexivity|reflexivity]).
Qed.

(* ===================================================================== *)
(** * The round trip through JSON text *)
(* ===================================================================== *)

Lemma skipWs_head c t : isWs c = false -> skipWs (c :: t) = c :: t.
Proof. intros H. cbn [skipWs]. rewrite H. reflexivity. Qed.

Lemma closes_not_number c t : closes (c :: t) -> isNumberChar c = false.
Proof. cbn [closes]. intros [-> | [-> | ->]]; reflexivity. Qed.

(** ** Strings *)

Lemma hexValue_hexDigit d : 0 <= d < 16 -> hexValue (hexDigit d) = Some d.
Proof.
  intros H. unfold hexValue, hexDigit, isDigit.
  destruct (d <? 10) eqn:E.
  - apply Z.ltb_lt in E.
    replace ((48 <=? 48 + d) && (48 + d <=? 57)) with true
      by (symmetry; apply andb_true_iff; split; apply Z.leb_le; lia).
    f_equal. lia.
  - apply Z.ltb_ge in E.
    replace ((48 <=? 87 + d) && (87 + d <=? 57)) with false
      by (symmetry; apply andb_false_iff; right; apply Z.leb_gt; lia).
    replace ((97 <=? 87 + d) && (87 + d <=? 102)) with true
      by (symmetry; apply andb_true_iff; split; apply Z.leb_le; lia).
    f_equal. lia.
Qed.

Lemma hex4_value c :
  0 <= c < 65536 ->
  (c / 16 ^ 3 mod 16) * 4096 + (c / 16 ^ 2 mod 16) * 256
  + (c / 16 ^ 1 mod 16) * 16 + c / 16 ^ 0 mod 16 = c.
Proof.
  intros H. change (16 ^ 3) with 4096. change (16 ^ 2) with 256.
  change (16 ^ 1) with 16. change (16 ^ 0) with 1. rewrite Z.div_1_r.
  Z.div_mod_to_equations. lia.
Qed.

Lemma readString_plain c t :
  32 <= c -> c <> 34 -> c <> 92 ->
  readString (c :: t) = prepend c (readString t).
Proof.
  intros H1 H2 H3. cbn [readString].
  apply Z.eqb_neq in H2, H3. rewrite H2, H3.
  replace (c <? 32) with false by (symmetry; apply Z.ltb_ge; lia).
  reflexivity.
Qed.

Lemma readString_unicode c t :
  0 <= c < 65536 ->
  readString (escapeUnit c ++ t) = prepend c (readString t).
Proof.
  intros H. unfold escapeUnit, hex4. cbn [List.map app readString].
  change (92 =? 34) with false. change (92 =? 92) with true.
  change (117 =? 117) with true. cbv iota.
  assert (B : forall k, 0 <= c / 16 ^ k mod 16 < 16)
    by (intros k; apply Z.mod_pos_bound; lia).
  rewrite !hexValue_hexDigit by apply B.
  rewrite hex4_value by exact H. reflexivity.
Qed.

Lemma unit_range c : isUnit c = true -> 0 <= c < 65536.
Proof.
  unfold isUnit. intros H. apply andb_true_iff in H. destruct H as [H1 H2].
  apply Z.leb_le in H1. apply Z.ltb_lt in H2. lia.
Qed.

(** A code unit that is not a surrogate is read back from what
    [quoteUnit] writes. *)
Lemma readString_quoteUnit c t :
  0 <= c < 65536 ->
  readString (quoteUnit c ++ t) = prepend c (readString t).
Proof.
  intros H. unfold quoteUnit.
  destruct (c =? 8) eqn:E8; [apply Z.eqb_eq in E8; subst; reflexivity|].
  destruct (c =? 9) eqn:E9; [apply Z.eqb_eq in E9; subst; reflexivity|].
  destruct (c =? 10) eqn:E10; [apply Z.eqb_eq in E10; subst; reflexivity|].
  destruct (c =? 12) eqn:E12; [apply Z.eqb_eq in E12; subst; reflexivity|].
  destruct (c =? 13) eqn:E13; [apply Z.eqb_eq in E13; subst; reflexivity|].
  destruct (c =? 34) eqn:E34; [apply Z.eqb_eq in E34; subst; reflexivity|].
  destruct (c =? 92) eqn:E92; [apply Z.eqb_eq in E92; subst; reflexivity|].
  destruct (c <? 32) eqn:E32.
  - apply readString_unicode. exact H.
  - apply Z.ltb_ge in E32. apply Z.eqb_neq in E34, E92.
    apply readString_plain; assumption.
Qed.

Lemma surrogate_plain c :
  isHighSurrogate c = true \/ isLowSurrogate c = true ->
  32 <= c /\ c <> 34 /\ c <> 92 /\ 0 <= c < 65536.
Proof.
  unfold isHighSurrogate, isLowSurrogate.
  intros [H|H]; apply andb_true_iff in H; destruct H as [H1 H2];
    apply Z.leb_le in H1, H2; lia.
Qed.

(** [readString] reads back what [QuoteJSONString] writes. *)
Lemma readString_quoteFrom n :
  forall s rest,
    (length s <= n)%nat -> forallb isUnit s = true ->
    readString (quoteFrom s ++ 34 :: rest) = Some (s, rest).
Proof.
  induction n as [|n IH]; intros s rest Hn Hu.
  - destruct s; [reflexivity|cbn in Hn; lia].
  - destruct s as [|c s']; [reflexivity|].
    cbn [forallb] in Hu. apply andb_true_iff in Hu. destruct Hu as [Hc Hu].
    apply unit_range in Hc. cbn [length] in Hn.
    cbn [quoteFrom].
    destruct (isHighSurrogate c) eqn:Eh.
    + destruct (surrogate_plain c (or_introl Eh)) as (P1 & P2 & P3 & _).
      destruct s' as [|d s''].
      * rewrite readString_unicode by exact Hc. reflexivity.
      * destruct (isLowSurrogate d) eqn:El.
        -- destruct (surrogate_plain d (or_intror El)) as (Q1 & Q2 & Q3 & _).
           cbn [forallb] in Hu. apply andb_true_iff in Hu.
           destruct Hu as [_ Hu]. cbn [length] in Hn.
           cbn [app]. rewrite readString_plain by assumption.
           rewrite readString_plain by assumption.
           rewrite IH by (assumption || lia). reflexivity.
        -- rewrite <- app_assoc, readString_unicode by exact Hc.
           rewrite IH by (assumption || lia). reflexivity.
    + destruct (isLowSurrogate c) eqn:El.
      * rewrite <- app_assoc, readString_unicode by exact Hc.
        rewrite IH by (assumption || lia). reflexivity.
      * rewrite <- app_assoc, readString_quoteUnit by exact Hc.
        rewrite IH by (assumption || lia). reflexivity.
Qed.

Lemma readString_QuoteJSONString s rest :
  forallb isUnit s = true ->
  exists t, QuoteJSONString s ++ rest = 34 :: t /\
            readString t = Some (s, rest).
Proof.
  intros Hu. exists (quoteFrom s ++ 34 :: rest). split.
  - unfold QuoteJSONString, dq. cbn [app]. rewrite <- app_assoc. reflexivity.
  - apply (readString_quoteFrom (length s)); [lia|exact Hu].
Qed.

(** ** Values *)

Section ReadBack.

Lemma numberChar_cases c :
  isNumberChar c = true ->
  48 <= c <= 57 \/ c = 45 \/ c = 43 \/ c = 46 \/ c = 101 \/ c = 69.
Proof.
  unfold isNumberChar, isDigit. intros H.
  repeat (apply orb_true_iff in H; destruct H as [H|H]);
    try (apply Z.eqb_eq in H; lia).
  apply andb_true_iff in H. destruct H as [H1 H2].
  apply Z.leb_le in H1, H2. lia.
Qed.

Lemma numberChar_head c :
  isNumberChar c = true ->
  isWs c = false /\ (c =? 34) = false /\ (c =? 91) = false /\
  (c =? 123) = false /\ c <> 93 /\ c <> 125.
Proof.
  intros H. apply numberChar_cases in H. unfold isWs.
  repeat split; lia.
Qed.

Lemma span_number tok rest :
  forallb isNumberChar tok = true -> closes rest ->
  span isNumberChar (tok ++ rest) = (tok, rest).
Proof.
  intros Ht Hr. induction tok as [|c tok IH].
  - destruct rest as [|d t]; [reflexivity|].
    cbn [app span]. rewrite (closes_not_number _ _ Hr). reflexivity.
  - cbn [forallb] in Ht. apply andb_true_iff in Ht. destruct Ht as [Hc Ht].
    cbn [app span]. rewrite Hc, (IH Ht). reflexivity.
Qed.

Lemma survives_head x :
  survives x ->
  exists c t, numberText x = c :: t /\ isNumberChar c = true.
Proof.
  intros [Hc Hr]. destruct (numberText x) as [|c t]; [discriminate Hr|].
  exists c, t. split; [reflexivity|].
  cbn [forallb] in Hc. apply andb_true_iff in Hc. apply Hc.
Qed.

Variable read : jsstring -> option (JSON * jsstring).

Lemma readStep_null : reads (readStep read) JNull.
Proof. intros rest _. reflexivity. Qed.

Lemma readStep_bool b : reads (readStep read) (JBool b).
Proof. intros rest _. destruct b; reflexivity. Qed.

Lemma readStep_number x : survives x -> reads (readStep read) (JNum x).
Proof.
  intros Hs rest Hr. destruct (survives_head x Hs) as (c & t & E & Hc).
  destruct Hs as [Hall Hread].
  destruct (numberChar_head c Hc) as (W & Q1 & Q2 & Q3 & _).
  cbn [JSON_stringify]. unfold readStep. rewrite E. cbn [app].
  rewrite (skipWs_head _ _ W), Q1, Q2, Q3, Hc.
  change (c :: t ++ rest) with ((c :: t) ++ rest). rewrite <- E.
  rewrite (span_number _ _ Hall Hr), Hread. reflexivity.
Qed.

Lemma readStep_string s :
  forallb isUnit s = true -> reads (readStep read) (JStr s).
Proof.
  intros Hu rest _. cbn [JSON_stringify].
  destruct (readString_QuoteJSONString s rest Hu) as (t & -> & Ht).
  unfold readStep. rewrite skipWs_head by reflexivity.
  change (34 =? 34) with true. cbv iota. rewrite Ht. reflexivity.
Qed.

(** The elements of an array, after the bracket. *)
Lemma readElems_join elems :
  Forall (reads read) elems ->
  forall e0 n rest,
    (length elems < n)%nat ->
    reads read e0 ->
    readElems read n
      (join (lit ",") (List.map JSON_stringify (e0 :: elems)) ++ 93 :: rest)
    = Some (e0 :: elems, rest).
Proof.
  induction 1 as [|e1 elems H1 Hall IH]; intros e0 n rest Hn H0.
  - destruct n as [|n]; [cbn in Hn; lia|].
    cbn [List.map join readElems].
    rewrite H0 by (right; left; reflexivity).
    rewrite skipWs_head by reflexivity. reflexivity.
  - destruct n as [|n]; [cbn in Hn; lia|]. cbn [length] in Hn.
    change (List.map JSON_stringify (e0 :: e1 :: elems))
      with (JSON_stringify e0 :: List.map JSON_stringify (e1 :: elems)).
    change (join (lit ",") (JSON_stringify e0
                             :: List.map JSON_stringify (e1 :: elems)))
      with (JSON_stringify e0 ++ lit ","
            ++ join (lit ",") (List.map JSON_stringify (e1 :: elems))).
    rewrite <- !app_assoc. cbn [readElems].
    change (lit "," ++ ?x) with (44 :: x).
    rewrite H0 by (left; reflexivity).
    rewrite skipWs_head by reflexivity. change (44 =? 44) with true. cbv iota.
    rewrite (IH e1 n rest) by (assumption || lia). reflexivity.
Qed.

(** The members of an object, after the brace. *)
Lemma readMembers_join members :
  Forall (fun kv => forallb isUnit (fst kv) = true /\ reads read (snd kv))
         members ->
  forall m0 n rest,
    (length members < n)%nat ->
    forallb isUnit (fst m0) = true -> reads read (snd m0) ->
    readMembers read n
      (join (lit ",")
            (List.map (fun kv => QuoteJSONString (fst kv) ++ lit ":"
                                 ++ JSON_stringify (snd kv))
                      (m0 :: members))
       ++ 125 :: rest)
    = Some (m0 :: members, rest).
Proof.
  induction 1 as [|m1 members [U1 H1] Hall IH]; intros [k0 v0] n rest Hn U0 H0;
    cbn [fst snd] in *.
  - destruct n as [|n]; [cbn in Hn; lia|].
    cbn [List.map join fst snd]. rewrite <- !app_assoc.
    destruct (readString_QuoteJSONString
                k0 (lit ":" ++ JSON_stringify v0 ++ 125 :: rest) U0)
      as (t & -> & Ht).
    cbn [readMembers]. rewrite skipWs_head by reflexivity.
    change (34 =? 34) with true. cbv iota. rewrite Ht.
    change (lit ":" ++ ?x) with (58 :: x).
    rewrite skipWs_head by reflexivity.
    change (58 =? 58) with true. cbv iota.
    rewrite H0 by (right; right; reflexivity).
    rewrite skipWs_head by reflexivity. reflexivity.
  - destruct n as [|n]; [cbn in Hn; lia|]. cbn [length] in Hn.
    set (f := fun kv : jsstring * JSON =>
                QuoteJSONString (fst kv) ++ lit ":" ++ JSON_stringify (snd kv)).
    change (List.map f ((k0, v0) :: m1 :: members))
      with (f (k0, v0) :: List.map f (m1 :: members)).
    change (join (lit ",") (f (k0, v0) :: List.map f (m1 :: members)))
      with (f (k0, v0) ++ lit "," ++ join (lit ",") (List.map f (m1 :: members))).
    unfold f at 1. cbn [fst snd]. rewrite <- !app_assoc.
    destruct (readString_QuoteJSONString
                k0 (lit ":" ++ JSON_stringify v0 ++ lit ","
                    ++ join (lit ",") (List.map f (m1 :: members))
                    ++ 125 :: rest) U0)
      as (t & -> & Ht).
    cbn [readMembers]. rewrite skipWs_head by reflexivity.
    change (34 =? 34) with true. cbv iota. rewrite Ht.
    change (lit ":" ++ ?x) with (58 :: x).
    rewrite skipWs_head by reflexivity.
    change (58 =? 58) with true. cbv iota.
    change (lit "," ++ ?x) with (44 :: x).
    rewrite H0 by (left; reflexivity).
    rewrite skipWs_head by reflexivity. change (44 =? 44) with true. cbv iota.
    subst f. rewrite (IH m1 n rest) by (assumption || lia). reflexivity.
Qed.

End ReadBack.

Lemma join_head sep (p : jsstring) ps :
  exists tail, join sep (p :: ps) = p ++ tail.
Proof.
  destruct ps as [|q ps].
  - exists []. cbn [join]. rewrite app_nil_r. reflexivity.
  - eexists. reflexivity.
Qed.

Lemma join_length sep (parts : list jsstring) :
  Forall (fun p => p <> []) parts ->
  (length parts <= length (join sep parts))%nat.
Proof.
  induction 1 as [|p parts Hp Hall IH]; [cbn; lia|].
  destruct parts as [|q parts].
  - cbn [join length]. destruct p; [contradiction|cbn; lia].
  - change (join sep (p :: q :: parts))
      with (p ++ sep ++ join sep (q :: parts)).
    rewrite !length_app. cbn [length] in *.
    destruct p; [contradiction|cbn [length]; lia].
Qed.

Lemma join_part_length sep (parts : list jsstring) p :
  In p parts -> (length p <= length (join sep parts))%nat.
Proof.
  induction parts as [|q parts IH]; [intros []|].
  intros Hin. destruct parts as [|r parts].
  - destruct Hin as [->|[]]. cbn [join]. lia.
  - change (join sep (q :: r :: parts))
      with (q ++ sep ++ join sep (r :: parts)).
    rewrite !length_app. destruct Hin as [->|Hin]; [lia|].
    specialize (IH Hin). lia.
Qed.

Lemma readStep_open_array read R :
  (exists c t, R = c :: t /\ isWs c = false /\ c <> 93 /\ c <> 125) ->
  readStep read (91 :: R)
  = match readElems read (length R) R with
    | Some (vs, r') => Some (JArr vs, r')
    | None => None
    end.
Proof.
  intros (c & t & -> & W & N & _). unfold readStep.
  rewrite skipWs_head by reflexivity.
  change (91 =? 34) with false. change (91 =? 91) with true. cbv iota.
  rewrite (skipWs_head _ _ W). apply Z.eqb_neq in N. rewrite N. reflexivity.
Qed.

Lemma readStep_open_object read R :
  (exists c t, R = c :: t /\ isWs c = false /\ c <> 93 /\ c <> 125) ->
  readStep read (123 :: R)
  = match readMembers read (length R) R with
    | Some (ms, r') => Some (JObj (collect ms), r')
    | None => None
    end.
Proof.
  intros (c & t & -> & W & _ & N). unfold readStep.
  rewrite skipWs_head by reflexivity.
  change (123 =? 34) with false. change (123 =? 91) with false.
  change (123 =? 123) with true. cbv iota.
  rewrite (skipWs_head _ _ W). apply Z.eqb_neq in N. rewrite N. reflexivity.
Qed.

Lemma headed_nonempty v : headed v -> JSON_stringify v <> [].
Proof. intros (c & t & -> & _). discriminate. Qed.

Lemma readStep_array read elems :
  Forall (reads read) elems -> Forall headed elems ->
  reads (readStep read) (JArr elems).
Proof.
  intros Hr Hh rest Hc. cbn [JSON_stringify].
  destruct elems as [|e0 elems]; [reflexivity|].
  rewrite <- !app_assoc. change (lit "[" ++ ?x) with (91 :: x).
  change (lit "]" ++ rest) with (93 :: rest).
  inversion Hr as [|? ? R0 Rall]. inversion Hh as [|? ? Hh0 Hhall]. subst.
  rewrite readStep_open_array.
  - rewrite readElems_join; [reflexivity|exact Rall| |exact R0].
    rewrite length_app. cbn [length].
    assert (L : (length (List.map JSON_stringify (e0 :: elems))
                 <= length (join (lit ",")
                                 (List.map JSON_stringify (e0 :: elems))))%nat).
    { apply join_length. apply Forall_map.
      eapply Forall_impl; [|exact Hh]. apply headed_nonempty. }
    rewrite length_map in L. cbn [length] in L. lia.
  - destruct Hh0 as (c & t & E & W).
    destruct (join_head (lit ",") (JSON_stringify e0)
                        (List.map JSON_stringify elems)) as (tail & Et).
    cbn [List.map]. rewrite Et, E. exists c, ((t ++ tail) ++ 93 :: rest).
    split; [reflexivity|exact W].
Qed.

Lemma setProp_fresh acc k v :
  ~ In k (List.map fst acc) -> setProp acc k v = acc ++ [(k, v)].
Proof.
  induction acc as [|[k0 w] acc IH]; intros Hn; [reflexivity|].
  cbn [setProp]. cbn [List.map fst In] in Hn.
  destruct (str_eqb k0 k) eqn:E.
  - apply str_eqb_eq in E. tauto.
  - rewrite IH by tauto. reflexivity.
Qed.

Lemma distinct_NoDup keys : distinct keys = true -> NoDup keys.
Proof.
  induction keys as [|k keys IH]; intros H; constructor;
    cbn [distinct] in H; apply andb_true_iff in H; destruct H as [H1 H2].
  - intros Hin. apply negb_true_iff in H1.
    assert (E : existsb (str_eqb k) keys = true).
    { apply existsb_exists. exists k. split; [exact Hin|apply str_eqb_refl]. }
    congruence.
  - apply IH. exact H2.
Qed.

Lemma collect_from members :
  forall acc,
    NoDup (List.map fst (acc ++ members)) ->
    fold_left (fun a kv => setProp a (fst kv) (snd kv)) members acc
    = acc ++ members.
Proof.
  induction members as [|[k v] members IH]; intros acc Hd.
  - rewrite app_nil_r. reflexivity.
  - cbn [fold_left fst snd]. rewrite setProp_fresh.
    + rewrite IH; rewrite <- app_assoc; [reflexivity|exact Hd].
    + rewrite map_app in Hd. cbn [List.map fst] in Hd.
      apply NoDup_remove_2 in Hd. intros Hin. apply Hd.
      apply in_or_app. left. exact Hin.
Qed.

Lemma collect_distinct members :
  distinct (List.map fst members) = true -> collect members = members.
Proof.
  intros H. unfold collect. rewrite collect_from; [reflexivity|].
  apply distinct_NoDup. exact H.
Qed.

Lemma readStep_object read members :
  distinct (List.map fst members) = true ->
  Forall (fun kv => forallb isUnit (fst kv) = true /\ reads read (snd kv))
         members ->
  reads (readStep read) (JObj members).
Proof.
  intros Hd Hr rest Hc. cbn [JSON_stringify].
  destruct members as [|m0 members]; [reflexivity|].
  rewrite <- !app_assoc. change (lit "{" ++ ?x) with (123 :: x).
  change (lit "}" ++ rest) with (125 :: rest).
  inversion Hr as [|? ? [U0 R0] Rall]. subst.
  set (f := fun kv : jsstring * JSON =>
              QuoteJSONString (fst kv) ++ lit ":" ++ JSON_stringify (snd kv)).
  assert (Hne : Forall (fun p => p <> []) (List.map f (m0 :: members))).
  { apply Forall_map. apply Forall_forall. intros kv _. unfold f.
    unfold QuoteJSONString, dq. discriminate. }
  rewrite readStep_open_object.
  - subst f. rewrite readMembers_join; [|exact Rall| |exact U0|exact R0].
    + cbv beta iota. do 3 f_equal. apply collect_distinct. exact Hd.
    + rewrite length_app. cbn [length].
      apply join_length with (sep := lit ",") in Hne.
      rewrite length_map in Hne. cbn [length] in Hne.
      eapply Nat.lt_le_trans; [exact Hne|apply Nat.le_add_r].
  - subst f. destruct members as [|m1 members]; cbn [List.map join];
      unfold QuoteJSONString, dq; cbn [app];
      (eexists; eexists; split; [reflexivity|];
       repeat split; (reflexivity || discriminate)).
Qed.

Lemma headed_value v : Forall survives (numbersOf v) -> headed v.
Proof.
  intros Hs. destruct v as [|b|x|s|elems|members].
  - exists 110, (lit "ull"). repeat split; (reflexivity || discriminate).
  - destruct b; [exists 116, (lit "rue")|exists 102, (lit "alse")];
      repeat split; (reflexivity || discriminate).
  - cbn [numbersOf] in Hs. inversion Hs as [|? ? Hx _]. subst.
    destruct (survives_head x Hx) as (c & t & E & Hc).
    destruct (numberChar_head c Hc) as (W & _ & _ & _ & N1 & N2).
    exists c, t. repeat split; assumption.
  - exists 34, (quoteFrom s ++ dq). repeat split; (reflexivity || discriminate).
  - eexists 91, _. repeat split; (reflexivity || discriminate).
  - eexists 123, _. repeat split; (reflexivity || discriminate).
Qed.

Lemma nesting_elem (elems : list JSON) e :
  In e elems ->
  (nesting e <= fold_right (fun e d => Nat.max (nesting e) d) O elems)%nat.
Proof.
  induction elems as [|x elems IH]; [intros []|].
  intros [->|Hin]; cbn [fold_right]; [lia|]. specialize (IH Hin). lia.
Qed.

Lemma nesting_member (members : list (jsstring * JSON)) kv :
  In kv members ->
  (nesting (snd kv)
   <= fold_right (fun kv d => Nat.max (nesting (snd kv)) d) O members)%nat.
Proof.
  induction members as [|x members IH]; [intros []|].
  intros [->|Hin]; cbn [fold_right]; [lia|]. specialize (IH Hin). lia.
Qed.

Lemma Forall_flat_map {A B} (P : B -> Prop) (f : A -> list B) l x :
  Forall P (flat_map f l) -> In x l -> Forall P (f x).
Proof.
  intros H Hin. apply Forall_forall. intros y Hy.
  rewrite Forall_forall in H. apply H. apply in_flat_map. exists x.
  split; assumption.
Qed.

(** [readValue] reads back what [JSON_stringify] writes, given fuel for
    the nesting of the value. *)
Lemma readValue_stringify v :
  wellFormed v = true -> Forall survives (numbersOf v) ->
  forall fuel, (nesting v < fuel)%nat -> reads (readValue fuel) v.
Proof.
  induction v as [|b|x|s|elems IH|members IH] using JSON_tree_ind;
    intros Hw Hs fuel Hf; (destruct fuel as [|fuel]; [lia|]);
    cbn [readValue].
  - apply readStep_null.
  - apply readStep_bool.
  - apply readStep_number. cbn [numbersOf] in Hs. inversion Hs. assumption.
  - apply readStep_string. exact Hw.
  - cbn [wellFormed numbersOf nesting] in *.
    rewrite forallb_forall in Hw. rewrite Forall_forall in IH.
    apply readStep_array; apply Forall_forall; intros e He.
    + apply IH; [exact He|apply Hw; exact He| |].
      * apply (Forall_flat_map _ _ _ _ Hs He).
      * pose proof (nesting_elem _ _ He). lia.
    + apply headed_value. apply (Forall_flat_map _ _ _ _ Hs He).
  - cbn [wellFormed numbersOf nesting] in *.
    apply andb_true_iff in Hw. destruct Hw as [Hd Hw].
    rewrite forallb_forall in Hw. rewrite Forall_forall in IH.
    apply readStep_object; [exact Hd|]. apply Forall_forall. intros kv Hkv.
    specialize (Hw kv Hkv). apply andb_true_iff in Hw. destruct Hw as [Hu Hw].
    split; [exact Hu|].
    apply IH; [exact Hkv|exact Hw| |].
    + apply (Forall_flat_map _ (fun kv => numbersOf (snd kv)) _ _ Hs Hkv).
    + pose proof (nesting_member _ _ Hkv). lia.
Qed.

Lemma nesting_le_length v : (nesting v <= length (JSON_stringify v))%nat.
Proof.
  induction v as [|b|x|s|elems IH|members IH] using JSON_tree_ind;
    cbn [nesting]; try lia.
  - cbn [JSON_stringify]. rewrite !length_app.
    change (length (lit "[")) with 1%nat.
    assert (L : (fold_right (fun e d => Nat.max (nesting e) d) O elems
                 <= length (join (lit ",") (List.map JSON_stringify elems)))%nat).
    { clear - IH. induction elems as [|e elems IHl]; [cbn; lia|].
      cbn [fold_right]. inversion IH as [|? ? He Hall]. subst.
      apply Nat.max_lub.
      - etransitivity; [exact He|]. apply join_part_length. left. reflexivity.
      - etransitivity; [apply (IHl Hall)|].
        destruct elems as [|e' elems]; [cbn; lia|].
        change (List.map JSON_stringify (e :: e' :: elems))
          with (JSON_stringify e :: List.map JSON_stringify (e' :: elems)).
        change (join (lit ",") (JSON_stringify e
                                 :: List.map JSON_stringify (e' :: elems)))
          with (JSON_stringify e ++ lit ","
                ++ join (lit ",") (List.map JSON_stringify (e' :: elems))).
        rewrite !length_app. lia. }
    lia.
  - cbn [JSON_stringify]. rewrite !length_app.
    change (length (lit "{")) with 1%nat.
    set (f := fun kv : jsstring * JSON =>
                QuoteJSONString (fst kv) ++ lit ":" ++ JSON_stringify (snd kv)).
    assert (L : (fold_right (fun kv d => Nat.max (nesting (snd kv)) d) O members
                 <= length (join (lit ",") (List.map f members)))%nat).
    { clear - IH. induction members as [|m members IHl]; [cbn; lia|].
      cbn [fold_right]. inversion IH as [|? ? He Hall]. subst.
      apply Nat.max_lub.
      - etransitivity; [exact He|].
        etransitivity; [|apply join_part_length; left; reflexivity].
        unfold f. rewrite !length_app. lia.
      - etransitivity; [apply (IHl Hall)|].
        destruct members as [|m' members]; [cbn; lia|].
        change (List.map f (m :: m' :: members))
          with (f m :: List.map f (m' :: members)).
        change (join (lit ",") (f m :: List.map f (m' :: members)))
          with (f m ++ lit "," ++ join (lit ",") (List.map f (m' :: members))).
        rewrite !length_app. lia. }
    lia.
Qed.

(** [JSON.parse] reads back what [JSON.stringify] writes: a value whose
    strings are sequences of code units, whose objects hold each key once
    and whose numbers survive. *)
Lemma JSON_parse_stringify v :
  wellFormed v = true -> Forall survives (numbersOf v) ->
  JSON_parse (JSON_stringify v) = Parsed v.
Proof.
  intros Hw Hs. unfold JSON_parse.
  pose proof (readValue_stringify v Hw Hs (S (length (JSON_stringify v)))) as H.
  specialize (H ltac:(pose proof (nesting_le_length v); lia) [] I).
  rewrite app_nil_r in H. rewrite H. reflexivity.
Qed.

(** [parseCapture] returns the parsed value exactly when validation finds
    no issue. *)
Lemma classify_returns data limits :
  validateCapture data limits = [] <-> classify data limits = Returns data.
Proof.
  unfold classify. cbv zeta. split.
  - intros ->. reflexivity.
  - destruct (validateCapture data limits) as [|i l]; [reflexivity|].
    cbn [length Nat.ltb Nat.leb].
    destruct (find isVersionIssue (i :: l)) as [vi|];
      [destruct (negb _)|]; try destruct (find isLimitIssue (i :: l));
      discriminate.
Qed.

Section Survival.

Local Open Scope float_scope.

(** Numbers that survive: fractions, integers, numbers written with an
    exponent, the least and the greatest positive number. *)
Example survives_examples :
  Forall survives
         [0; 1; -1; 0.1; 0.45; -2.5; 1.5; 0.49999999999999994;
          1.7777777777777777; 1700000000000; 9007199254740993;
          1e21; 1.5e-7; 123456789012345680000; 5e-324;
          1.7976931348623157e308].
Proof. repeat (apply Forall_cons; [split; vm_compute; reflexivity|]). apply Forall_nil. Qed.

(** Numbers that do not: [NaN] and the infinities are written as [null],
    and [-0] is written as [0]. *)
Example survives_not :
  ~ survives NaN /\ ~ survives Infinity /\ ~ survives (- Infinity) /\
  ~ survives (-0) /\
  JSON_stringify (JNum Infinity) = lit "null" /\
  JSON_stringify (JNum (-0)) = lit "0" /\
  JSON_parse (lit "1e999") = Parsed (JNum Infinity).
Proof.
  conjuncts; try (vm_compute; reflexivity);
    try (intros [H _]; vm_compute in H; discriminate H).
  intros [_ H].
  apply (f_equal (fun o => match o with
                           | Some y => Prim2SF y
                           | None => S754_nan
                           end)) in H.
  vm_compute in H. discriminate H.
Qed.

End Survival.




(* ===================================================================== *)
(** * More properties of the code *)
(* ===================================================================== *)

(** ** Counting the nodes of a tree *)

Lemma countNodes_fold cs : forall k,
  fold_left (fun count child => (count + countNodes child)%nat) cs k
  = (k + list_sum (List.map countNodes cs))%nat.
Proof.
  induction cs as [|c cs IH]; intros k; cbn [fold_left List.map];
    [cbn; lia|].
  rewrite IH. change (list_sum (countNodes c :: List.map countNodes cs))
    with (countNodes c + list_sum (List.map countNodes cs))%nat. lia.
Qed.

Lemma countNodes_children n :
  countNodes n = S (list_sum (List.map countNodes (childList n))).
Proof.
  destruct n as [i r s nh t b zv ia e v f [cs|] fl]; cbn [countNodes children childList];
    [|reflexivity].
  rewrite countNodes_fold. reflexivity.
Qed.


(** ** Limits, error codes and schema versions *)

Lemma eachChild_ext visit1 visit2 path children :
  Forall (fun child => forall q st, visit1 child q st = visit2 child q st)
         children ->
  forall i st, eachChild visit1 path children i st
               = eachChild visit2 path children i st.
Proof.
  induction 1 as [|child rest Hc _ IH]; intros i st; cbn [eachChild];
    [reflexivity|].
  rewrite Hc. destruct (tooManyIssues _); [reflexivity|apply IH].
Qed.

Lemma validateNode_limits l1 l2 :
  maxNodes l1 = maxNodes l2 -> maxDepth l1 = maxDepth l2 ->
  forall data depth path st,
    validateNode data l1 depth path st = validateNode data l2 depth path st.
Proof.
  intros Hn Hd.
  set (P := fun data => forall depth path st,
              validateNode data l1 depth path st
              = validateNode data l2 depth path st).
  assert (H : forall data,
             P data /\ (forall elems, data = JArr elems -> Forall P elems)).
  { induction data as [| | | |elems IH|ms IH] using JSON_tree_ind;
      (split; [|try discriminate]).
    1-5: intros depth path st;
      rewrite (validateNode_unfold _ l1), (validateNode_unfold _ l2);
      unfold nodeLimitIssue, depthLimitIssue; rewrite Hn, Hd; reflexivity.
    - intros elems' E. injection E as <-.
      eapply Forall_impl; [|exact IH]. intros v [Hv _]. exact Hv.
    - intros depth path st.
      rewrite (validateNode_unfold _ l1), (validateNode_unfold _ l2).
      unfold nodeLimitIssue, depthLimitIssue. rewrite Hn, Hd. cbv zeta.
      destruct (exceeds _ _); [reflexivity|]. destruct (exceeds _ _); [reflexivity|].
      destruct (getProp ms (lit "children")) as [v|] eqn:Ec; [|reflexivity].
      destruct v as [| | | |children|]; try reflexivity.
      apply eachChild_ext.
      destruct (getProp_In _ _ _ Ec) as [k Hin].
      rewrite Forall_forall in IH. destruct (IH _ Hin) as [_ Hel].
      cbn [snd] in Hel. specialize (Hel children eq_refl).
      eapply Forall_impl; [|exact Hel]. intros child Hc q st'. apply Hc. }
  intros data. apply H.
Qed.

(** X1. The limit [maxStringLength] is never enforced: [validateCapture]
    reports the same issues whatever its value. *)
Theorem validateCapture_ignores_maxStringLength :
  forall (data : JSON) (nodes depth : option number)
         (len1 len2 : option number),
    validateCapture data (mkPartialLimits nodes depth len1)
    = validateCapture data (mkPartialLimits nodes depth len2).
Proof.
  intros data nodes depth len1 len2. unfold validateCapture. cbv zeta.
  destruct data as [| | | | |obj]; try reflexivity.
  destruct (getProp obj (lit "root")) as [[| | | | |]|]; try reflexivity;
    f_equal; apply validateNode_limits; reflexivity.
Qed.

(** X2. [parseCapture] returns only a value that [JSON.parse] produced and
    in which [validateCapture] finds no issue. It throws [WS_INVALID_JSON]
    exactly when [JSON.parse] throws, and otherwise one of the three codes
    of validation, carrying the issues when the code is
    [WS_INVALID_CAPTURE]. *)
Theorem parseCapture_outcomes :
  forall (JSON_parse : jsstring -> ParseOutcome) (json : jsstring)
         (limits : PartialLimits),
    match parseCapture JSON_parse json limits with
    | Returns data =>
        JSON_parse json = Parsed data /\ validateCapture data limits = []
    | Throws ws =>
        (code ws = WS_INVALID_JSON /\
         exists name message,
           JSON_parse json = SyntaxError name message /\
           cause ws = Some (name, message)) \/
        (exists data,
            JSON_parse json = Parsed data /\
            validateCapture data limits <> [] /\
            (code ws = WS_UNSUPPORTED_VERSION \/
             code ws = WS_LIMIT_EXCEEDED \/
             (code ws = WS_INVALID_CAPTURE /\
              issues ws = Some (validateCapture data limits))))
    end.
Proof.
  intros JSON_parse json limits. unfold parseCapture.
  destruct (JSON_parse json) as [data|name message].
  - unfold classify. cbv zeta.
    destruct (validateCapture data limits) as [|i l] eqn:E.
    + cbn. split; [reflexivity|exact E].
    + cbn [length Nat.ltb Nat.leb].
      assert (Hne : i :: l <> []) by discriminate.
      destruct (find isVersionIssue (i :: l)) as [vi|];
        [destruct (negb _)|];
        try destruct (find isLimitIssue (i :: l));
        right; exists data; rewrite E; (split; [reflexivity|]);
        (split; [exact Hne|]);
        cbn [code unsupportedVersion limitExceeded invalidCapture issues];
        auto.
  - left. split; [reflexivity|]. exists name, message. split; reflexivity.
Qed.

Lemma versionIssues_nil obj :
  versionIssues obj = [] <->
  isSupportedSchemaVersion (getProp obj (lit "version")) = true.
Proof.
  unfold versionIssues, isSupportedSchemaVersion, SUPPORTED_SCHEMA_VERSIONS.
  destruct (getProp obj (lit "version")) as [[| | |s| |]|];
    try (split; discriminate).
  cbn [existsb]. rewrite orb_false_r.
  destruct (str_eqb s (lit "0.1")); split; (reflexivity || discriminate).
Qed.

Lemma versionIssues_path obj :
  Forall (fun i => i_path i = lit "version") (versionIssues obj).
Proof.
  unfold versionIssues.
  destruct (getProp obj (lit "version")) as [[| | |s| |]|];
    try (repeat constructor).
  destruct (str_eqb s (lit "0.1")); repeat constructor.
Qed.

Lemma underRoot_notVersionPath i : underRoot i -> notVersionPath i.
Proof.
  intros [rest E]. unfold notVersionPath. rewrite E.
  destruct (str_eqb _ _) eqn:Eq; [|reflexivity].
  apply str_eqb_eq in Eq. discriminate Eq.
Qed.

Lemma validateCapture_object_paths obj limits :
  exists rest,
    validateCapture (JObj obj) limits = versionIssues obj ++ rest /\
    Forall notVersionPath rest.
Proof.
  unfold validateCapture. cbv zeta.
  assert (Hh : exists hs, headerIssues obj = versionIssues obj ++ hs /\
                          Forall notVersionPath hs).
  { unfold headerIssues. eexists. split; [reflexivity|].
    unfold stringIssue, numberIssue, viewportIssues, compilerIssues,
      stringIssue, numberIssue.
    repeat (apply Forall_app; split).
    - destruct (getProp obj (lit "url")) as [[| | | | |]|]; repeat constructor.
    - destruct (getProp obj (lit "timestamp_ms")) as [[| | | | |]|];
        repeat constructor.
    - destruct (getProp obj (lit "viewport")) as [[| | | | |vp]|];
        try (repeat constructor).
      repeat (apply Forall_app; split).
      + destruct (getProp vp (lit "w_px")) as [[| | | | |]|]; repeat constructor.
      + destruct (getProp vp (lit "h_px")) as [[| | | | |]|]; repeat constructor.
      + destruct (getProp vp (lit "aspect")) as [[| | | | |]|]; repeat constructor.
    - destruct (getProp obj (lit "compiler")) as [[| | | | |comp]|];
        try (repeat constructor).
      repeat (apply Forall_app; split).
      + destruct (getProp comp (lit "name")) as [[| | | | |]|]; repeat constructor.
      + destruct (getProp comp (lit "version")) as [[| | | | |]|];
          repeat constructor.
      + destruct (getProp comp (lit "options_hash")) as [[| | | | |]|];
          repeat constructor. }
  destruct Hh as (hs & Eh & Fh). rewrite Eh.
  assert (Hroot : forall root,
             exists rest,
               snd (validateNode root (resolveLimits limits) 0%Z (lit "root")
                                 (0%Z, versionIssues obj ++ hs))
               = versionIssues obj ++ rest /\
               Forall notVersionPath rest).
  { intros root.
    destruct (validateNode_extends root (resolveLimits limits) 0%Z (lit "oot")
                                   (0%Z, versionIssues obj ++ hs))
      as (added & Ea & Fa).
    change (114%Z :: lit "oot") with (lit "root") in Ea.
    exists (hs ++ added). split.
    - rewrite Ea. cbn [snd]. rewrite app_assoc. reflexivity.
    - apply Forall_app. split; [exact Fh|].
      eapply Forall_impl; [|exact Fa]. apply underRoot_notVersionPath. }
  destruct (getProp obj (lit "root")) as [[| | | | |]|];
    try apply Hroot;
    (eexists; split; [rewrite <- app_assoc; reflexivity|];
     apply Forall_app; split; [exact Fh|repeat constructor]).
Qed.

(** X3. The validator and [isSupportedSchemaVersion] agree: [validateCapture]
    reports an issue at the path [version] of an object exactly when its
    [version] member is not a supported schema version. *)
Theorem validateCapture_version_supported :
  forall (obj : list (jsstring * JSON)) (limits : PartialLimits),
    (exists i, In i (validateCapture (JObj obj) limits) /\
               i_path i = lit "version")
    <-> isSupportedSchemaVersion (getProp obj (lit "version")) = false.
Proof.
  intros obj limits.
  destruct (validateCapture_object_paths obj limits) as (rest & -> & Hrest).
  pose proof (versionIssues_nil obj) as Hnil.
  pose proof (versionIssues_path obj) as Hpath.
  split.
  - intros (i & Hin & Hp). apply in_app_or in Hin. destruct Hin as [Hin|Hin].
    + destruct (isSupportedSchemaVersion _); [|reflexivity].
      destruct Hnil as [_ Hnil]. rewrite (Hnil eq_refl) in Hin. destruct Hin.
    + rewrite Forall_forall in Hrest. specialize (Hrest _ Hin).
      unfold notVersionPath in Hrest. rewrite Hp, str_eqb_refl in Hrest.
      discriminate.
  - intros Hs. destruct (versionIssues obj) as [|i l] eqn:E.
    + destruct Hnil as [Hnil _]. rewrite (Hnil eq_refl) in Hs. discriminate.
    + exists i. split; [left; reflexivity|].
      inversion Hpath; subst. assumption.
Qed.


(* ===================================================================== *)
(** * Node identifiers, digests and what the hashes read *)
(* ===================================================================== *)

Section HashFacts.

Lemma sha256Sync_isDigest text : isDigest (sha256Sync text).
Proof.
  unfold isDigest, sha256Sync. rewrite djb2Hash_hex8.
  split; [reflexivity|apply hex8_lower].
Qed.

Lemma hashNodeDeep_isDigest o n : isDigest (hashNodeDeep o n).
Proof.
  rewrite hashNodeDeep_unfold.
  destruct (children n) as [[|c cs]|]; try apply sha256Sync_isDigest.
Qed.

(** X4. Every hash is a digest of eight lowercase hexadecimal digits: the
    shallow and the deep hash of a node under any options, and both
    fingerprints of a capture. *)
Theorem hashes_are_digests :
  (forall n o, isDigest (hashNodeShallow n o)) /\
  (forall n o, isDigest (hashNodeDeep o n)) /\
  (forall c, isDigest (fingerprintCapture c)) /\
  (forall c, isDigest (fingerprintLayout c)).
Proof.
  split; [intros; apply sha256Sync_isDigest|].
  split; [intros; apply hashNodeDeep_isDigest|].
  split; intros; apply sha256Sync_isDigest.
Qed.

Lemma slice0_short n s : (length s <= n)%nat -> slice0 n s = s.
Proof. unfold slice0. apply firstn_all2. Qed.

Lemma generateNodeId_eq node parentPath :
  generateNodeId node parentPath
  = parentPath ++ lit "/" ++ hashNodeShallow node noOptions ++ lit "_"
    ++ posHint node.
Proof.
  unfold generateNodeId. cbv zeta.
  rewrite slice0_short
    by (destruct (sha256Sync_isDigest
                    (join (lit "|") (hashParts (nodeToHashInput node) noOptions)))
          as [E _]; unfold hashNodeShallow; rewrite E; lia).
  destruct parentPath; reflexivity.
Qed.

(** X5. The identifier of a node is its parent path, a slash, the whole
    shallow hash of the node (a digest has eight characters, so the cut at
    twelve never shortens it), and the position hint; an empty parent path
    gives the same text as any other. *)
Theorem generateNodeId_format :
  forall (node : UINode) (parentPath : jsstring),
    generateNodeId node parentPath
    = parentPath ++ lit "/" ++ hashNodeShallow node noOptions ++ lit "_"
      ++ Number_toString (Math_round (bx (bbox node) * 100)%float) ++ lit "_"
      ++ Number_toString (Math_round (by_ (bbox node) * 100)%float).
Proof. intros node parentPath. apply generateNodeId_eq. Qed.

Lemma hashNodeShallow_withId n i o :
  hashNodeShallow (withId n i) o = hashNodeShallow n o.
Proof. reflexivity. Qed.

Lemma assignNodeIds_shallow n p o :
  hashNodeShallow (assignNodeIds n p) o = hashNodeShallow n o.
Proof.
  destruct n as [i r s nh t b zv ia e v f cs fl]. cbn [assignNodeIds].
  rewrite hashNodeShallow_withChildren. reflexivity.
Qed.

Lemma assignNodeIds_bbox n p : bbox (assignNodeIds n p) = bbox n.
Proof. destruct n; reflexivity. Qed.

Lemma assignNodeIds_childList n p :
  childList (assignNodeIds n p)
  = List.map (fun child => assignNodeIds child (generateNodeId n p))
             (childList n).
Proof. destruct n as [i r s nh t b zv ia e v f [cs|] fl]; reflexivity. Qed.

Lemma assignNodeIds_children n p :
  children (assignNodeIds n p)
  = match children n with
    | Some cs =>
        Some (List.map (fun child => assignNodeIds child (generateNodeId n p)) cs)
    | None => None
    end.
Proof. destruct n as [i r s nh t b zv ia e v f [cs|] fl]; reflexivity. Qed.

Lemma assignNodeIds_id n p : id (assignNodeIds n p) = generateNodeId n p.
Proof. destruct n; reflexivity. Qed.

Lemma assignNodeIds_deep o n : forall p,
  hashNodeDeep o (assignNodeIds n p) = hashNodeDeep o n.
Proof.
  induction n as [n IH] using UINode_tree_ind. intros p.
  apply hashNodeDeep_congr; [apply assignNodeIds_shallow|].
  rewrite assignNodeIds_childList, map_map.
  apply map_ext_Forall. eapply Forall_impl; [|exact IH].
  intros c Hc. cbv beta. rewrite assignNodeIds_bbox, Hc. reflexivity.
Qed.

(** X6. Writing the identifiers into a tree changes no hash: the deep hash
    under any options and both fingerprints of the capture are those of
    the tree before. *)
Theorem assignNodeIds_keeps_fingerprints :
  (forall o n p, hashNodeDeep o (assignNodeIds n p) = hashNodeDeep o n) /\
  (forall c p,
      fingerprintCapture (withRoot c (assignNodeIds (root c) p))
      = fingerprintCapture c /\
      fingerprintLayout (withRoot c (assignNodeIds (root c) p))
      = fingerprintLayout c).
Proof.
  split; [intros; apply assignNodeIds_deep|].
  intros c p. unfold fingerprintCapture, fingerprintLayout, aspectKey.
  destruct c as [v u t vp cm rt]. cbn [withRoot root viewport].
  rewrite !assignNodeIds_deep. split; reflexivity.
Qed.

Lemma generateNodeId_assigned n q p :
  generateNodeId (assignNodeIds n q) p = generateNodeId n p.
Proof.
  rewrite !generateNodeId_eq. unfold posHint.
  rewrite assignNodeIds_shallow, assignNodeIds_bbox. reflexivity.
Qed.

Lemma assignNodeIds_again n : forall q p,
  assignNodeIds (assignNodeIds n q) p = assignNodeIds n p.
Proof.
  induction n as [n IH] using UINode_tree_ind. intros q p.
  destruct n as [i r s nh t b zv ia e v f cs fl].
  unfold childList in IH. cbn [children] in IH.
  set (n := mkNode i r s nh t b zv ia e v f cs fl) in *.
  assert (Eg : generateNodeId (assignNodeIds n q) p = generateNodeId n p)
    by apply generateNodeId_assigned.
  change (assignNodeIds (assignNodeIds n q) p)
    with (withChildren
            (withId (assignNodeIds n q) (generateNodeId (assignNodeIds n q) p))
            (match children (assignNodeIds n q) with
             | Some l =>
                 Some (List.map
                         (fun child =>
                            assignNodeIds child
                              (generateNodeId (assignNodeIds n q) p)) l)
             | None => None
             end)).
  rewrite Eg, assignNodeIds_children.
  change (assignNodeIds n p)
    with (withChildren (withId n (generateNodeId n p))
            (match children n with
             | Some l =>
                 Some (List.map
                         (fun child => assignNodeIds child (generateNodeId n p)) l)
             | None => None
             end)).
  unfold n at 2 4 6. cbn [children].
  destruct cs as [cs|]; unfold withChildren, withId; cbn; f_equal.
  f_equal. rewrite map_map. apply map_ext_Forall.
  eapply Forall_impl; [|exact IH]. intros c Hc. apply Hc.
Qed.

(** X7. The identifiers depend on the content and the place of the nodes
    only, not on the identifiers the tree held before: writing them again,
    from whatever parent path they were written first, gives the tree that
    writing them once gives. *)
Theorem assignNodeIds_idempotent :
  forall (n : UINode) (q p : jsstring),
    assignNodeIds (assignNodeIds n q) p = assignNodeIds n p /\
    countNodes (assignNodeIds n p) = countNodes n.
Proof.
  intros n q p. split; [apply assignNodeIds_again|].
  revert p. induction n as [n IH] using UINode_tree_ind. intros p.
  rewrite !countNodes_children, assignNodeIds_childList, map_map.
  f_equal. f_equal. apply map_ext_Forall.
  eapply Forall_impl; [|exact IH]. intros c Hc. apply Hc.
Qed.

End HashFacts.


Section HashReads.

Local Open Scope float_scope.

Lemma hashNodeShallow_eraseUnhashed m o :
  optIncludeZ o = false ->
  hashNodeShallow (eraseUnhashed m) o = hashNodeShallow m o.
Proof.
  intros Hz. destruct m as [i r s nh [[h l k]|] b zv ia e v f cs fl];
    unfold hashNodeShallow, nodeToHashInput, hashParts, eraseUnhashed, text_hash;
    cbn [role semantic name_hash text bbox z interactive enabled visible
         hash in_role in_bbox in_interactive in_visible in_enabled in_semantic
         in_text_hash in_name_hash in_z];
    rewrite Hz; destruct zv; reflexivity.
Qed.

Lemma hashNodeDeep_eraseUnhashed o n :
  optIncludeZ o = false ->
  hashNodeDeep o (mapTree eraseUnhashed n) = hashNodeDeep o n.
Proof.
  intros Hz. apply hashNodeDeep_mapTree.
  - intros m. destruct m; reflexivity.
  - intros m. apply hashNodeShallow_eraseUnhashed. exact Hz.
Qed.

(** X8. Neither fingerprint reads the [id], [z], [focusable] or [flags] of a
    node, nor the [len] and [kind] of its text: erasing them in every node
    keeps both fingerprints. An empty [children] array is hashed as an
    absent one. *)
Theorem fingerprints_ignore_unhashed :
  (forall c,
      fingerprintCapture (mapCapture eraseUnhashed c) = fingerprintCapture c /\
      fingerprintLayout (mapCapture eraseUnhashed c) = fingerprintLayout c) /\
  (forall o n,
      hashNodeDeep o (withChildren n (Some []))
      = hashNodeDeep o (withChildren n None)).
Proof.
  split.
  - intros c. unfold fingerprintCapture, fingerprintLayout, aspectKey.
    destruct c as [v u t vp cm rt]. cbn [mapCapture root viewport].
    rewrite !hashNodeDeep_eraseUnhashed by reflexivity. split; reflexivity.
  - intros o n. rewrite !hashNodeDeep_unfold. destruct n; reflexivity.
Qed.

(** X9. The shallow hash reads the box of a node through the grid of
    [BBOX_QUANT_STEP] only: moving the box within its cell keeps the hash,
    under any options. *)
Theorem hashNodeShallow_same_cell :
  forall (n : UINode) (b : BBox01) (o : HashOptions),
    sameCell BBOX_QUANT_STEP (bbox n) b ->
    hashNodeShallow (withBbox n b) o = hashNodeShallow n o.
Proof.
  intros n b o (Hx & Hy & Hw & Hh).
  unfold hashNodeShallow, nodeToHashInput, quantizeBbox.
  cbn [withBbox bbox role interactive visible enabled semantic name_hash z].
  rewrite <- Hx, <- Hy, <- Hw, <- Hh. destruct n; reflexivity.
Qed.

(** A box that is moved by 0.0002 and 0.0004 stays in its cell. *)
Lemma hashNodeShallow_same_cell_witness :
  hashNodeShallow
    (withBbox submitButton (mkBBox 0.1002 0.1996 0.3 0.4)) noOptions
  = hashNodeShallow submitButton noOptions.
Proof.
  apply (hashNodeShallow_same_cell submitButton
           (mkBBox 0.1002 0.1996 0.3 0.4) noOptions).
  repeat split; vm_compute; reflexivity.
Defined.

End HashReads.


(* ===================================================================== *)
(** * Normalized text *)
(* ===================================================================== *)

Section NormalizedText.

Lemma trimStart_snoc l c :
  trimStart (l ++ [c]) =
  match trimStart l with
  | [] => if isSpace c then [] else [c]
  | r => r ++ [c]
  end.
Proof.
  induction l as [|x l IH]; cbn [app trimStart]; [reflexivity|].
  destruct (isSpace x); [exact IH|reflexivity].
Qed.

Lemma trimEnd_rev s : rev (trimStart (rev s)) = trimEnd s.
Proof.
  induction s as [|c s IH]; [reflexivity|].
  cbn [rev trimEnd]. rewrite trimStart_snoc, <- IH.
  destruct (trimStart (rev s)) as [|x r].
  - cbn [rev]. destruct (isSpace c); reflexivity.
  - rewrite rev_app_distr. cbn [rev app].
    destruct (rev r ++ [x]) eqn:E; [|reflexivity].
    destruct (rev r); discriminate.
Qed.

Lemma trim_trimEnd s : trim s = trimEnd (trimStart s).
Proof. unfold trim. apply trimEnd_rev. Qed.

Lemma trimStart_collapse s : forall b,
  trimStart (collapseFrom b s) = collapseFrom true s.
Proof.
  induction s as [|c s IH]; intros b; cbn [collapseFrom]; [reflexivity|].
  destruct (isSpace c) eqn:Ec.
  - destruct b; [apply IH|]. cbn [trimStart].
    replace (isSpace 32) with true by reflexivity. apply IH.
  - cbn [trimStart]. rewrite Ec. reflexivity.
Qed.

Lemma spaced_collapse s : forall b,
  forallb (fun c => negb (isInvisible c)) s = true ->
  spaced true b (collapseFrom b s) = true.
Proof.
  induction s as [|c s IH]; intros b Hs; cbn [collapseFrom]; [reflexivity|].
  cbn [forallb] in Hs. apply andb_true_iff in Hs. destruct Hs as [Hc Hs].
  destruct (isSpace c) eqn:Ec.
  - destruct b; [apply IH; exact Hs|]. cbn [spaced].
    replace (isSpace 32) with true by reflexivity.
    rewrite (IH true Hs). reflexivity.
  - cbn [spaced]. rewrite Ec, Hc, (IH false Hs). reflexivity.
Qed.

Lemma spaced_trimEnd s : forall b,
  spaced true b s = true ->
  trimEnd s = [] \/ spaced false b (trimEnd s) = true.
Proof.
  induction s as [|c s IH]; intros b H; [left; reflexivity|].
  cbn [spaced] in H. cbn [trimEnd]. destruct (isSpace c) eqn:Ec.
  - apply andb_true_iff in H. destruct H as [H Hs].
    destruct (IH true Hs) as [E|E]; [rewrite E; left; reflexivity|].
    destruct (trimEnd s) as [|x r]; [discriminate E|].
    right. cbn [spaced]. rewrite Ec, H. exact E.
  - apply andb_true_iff in H. destruct H as [H Hs].
    right. destruct (IH false Hs) as [E|E].
    + rewrite E. cbn [spaced]. rewrite Ec, H. reflexivity.
    + destruct (trimEnd s) as [|x r]; cbn [spaced]; rewrite Ec, H;
        [reflexivity|exact E].
Qed.

Lemma stripInvisible_visible s :
  forallb (fun c => negb (isInvisible c)) (stripInvisible s) = true.
Proof.
  unfold stripInvisible. apply forallb_forall. intros c Hc.
  apply filter_In in Hc. apply Hc.
Qed.

Lemma cleaned_tidy s : tidy (cleaned s) = true.
Proof.
  unfold cleaned, collapseWhitespace. rewrite trim_trimEnd, trimStart_collapse.
  pose proof (spaced_collapse _ true (stripInvisible_visible s)) as H.
  apply spaced_trimEnd in H. unfold tidy.
  destruct H as [->|H]; [reflexivity|].
  destruct (trimEnd _); [reflexivity|exact H].
Qed.

Lemma spaced_visible s : forall b,
  spaced false b s = true -> stripInvisible s = s.
Proof.
  unfold stripInvisible.
  induction s as [|c s IH]; intros b H; [reflexivity|].
  cbn [spaced] in H. cbn [filter]. destruct (isSpace c) eqn:Ec.
  - apply andb_true_iff in H. destruct H as [H Hs].
    apply andb_true_iff in H. destruct H as [H _]. apply Z.eqb_eq in H. subst c.
    replace (isInvisible 32) with false by reflexivity. cbn [negb].
    f_equal. exact (IH true Hs).
  - apply andb_true_iff in H. destruct H as [H Hs]. rewrite H.
    f_equal. exact (IH false Hs).
Qed.

Lemma spaced_collapsed s : forall b,
  spaced false b s = true -> collapseFrom b s = s.
Proof.
  induction s as [|c s IH]; intros b H; [reflexivity|].
  cbn [spaced] in H. cbn [collapseFrom]. destruct (isSpace c) eqn:Ec.
  - apply andb_true_iff in H. destruct H as [H Hs].
    apply andb_true_iff in H. destruct H as [H Hb]. apply Z.eqb_eq in H.
    destruct b; [discriminate Hb|]. subst c. f_equal. exact (IH true Hs).
  - apply andb_true_iff in H. destruct H as [_ Hs]. f_equal. exact (IH false Hs).
Qed.

Lemma spaced_trimmedEnd s : forall b,
  spaced false b s = true -> trimEnd s = s.
Proof.
  induction s as [|c s IH]; intros b H; [reflexivity|].
  cbn [spaced] in H. cbn [trimEnd]. destruct (isSpace c) eqn:Ec.
  - apply andb_true_iff in H. destruct H as [_ Hs].
    rewrite (IH true Hs). destruct s; [discriminate Hs|reflexivity].
  - apply andb_true_iff in H. destruct H as [_ Hs].
    rewrite (IH false Hs). destruct s; reflexivity.
Qed.

Lemma tidy_cleaned t : tidy t = true -> cleaned t = t.
Proof.
  destruct t as [|c t]; [reflexivity|]. unfold tidy. intros H.
  unfold cleaned, collapseWhitespace.
  rewrite (spaced_visible _ _ H), trim_trimEnd.
  assert (Ec : isSpace c = false).
  { cbn [spaced] in H. destruct (isSpace c); [|reflexivity].
    rewrite andb_false_r in H. discriminate H. }
  assert (E : collapseFrom false (c :: t) = c :: t).
  { cbn [collapseFrom]. rewrite Ec. f_equal. apply spaced_collapsed.
    cbn [spaced] in H. rewrite Ec in H. apply andb_true_iff in H. apply H. }
  rewrite E. cbn [trimStart]. rewrite Ec. apply (spaced_trimmedEnd _ _ H).
Qed.

(** X10. The text that [normalizeText] lower-cases is tidy: it holds no
    invisible character and no white space but single spaces between two
    other characters. The cleaning keeps a tidy text as it is. *)
Theorem normalizeText_tidy :
  forall (toLowerCase : jsstring -> jsstring) (text : jsstring),
    normalizeText toLowerCase text = toLowerCase (cleaned text) /\
    tidy (cleaned text) = true /\
    cleaned (cleaned text) = cleaned text.
Proof.
  intros toLowerCase text. split; [reflexivity|].
  split; [apply cleaned_tidy|]. apply tidy_cleaned, cleaned_tidy.
Qed.

(** X11. [normalizeText] is idempotent, whenever [toLowerCase] is idempotent
    and keeps a tidy text tidy (as it does on ASCII): normalizing a
    normalized text gives it back, so that its signal has the same hash and
    length. *)
Theorem normalizeText_idempotent :
  forall (toLowerCase : jsstring -> jsstring),
    (forall t, toLowerCase (toLowerCase t) = toLowerCase t) ->
    (forall t, tidy t = true -> tidy (toLowerCase t) = true) ->
    forall text,
      let normalized := normalizeText toLowerCase text in
      normalizeText toLowerCase normalized = normalized /\
      hash (createTextSignalSync toLowerCase normalized)
      = hash (createTextSignalSync toLowerCase text) /\
      len (createTextSignalSync toLowerCase normalized)
      = len (createTextSignalSync toLowerCase text).
Proof.
  intros toLowerCase Hidem Htidy text normalized.
  assert (E : normalizeText toLowerCase normalized = normalized).
  { unfold normalized, normalizeText. fold (cleaned text).
    fold (cleaned (toLowerCase (cleaned text))).
    rewrite (tidy_cleaned _ (Htidy _ (cleaned_tidy text))). apply Hidem. }
  split; [exact E|]. unfold createTextSignalSync. cbv zeta. rewrite E.
  fold normalized. destruct (length normalized =? 0)%nat; split; reflexivity.
Qed.

Ltac decide_class :=
  repeat match goal with
         | |- context [(?a <=? ?b)%Z] =>
             destruct (Z.leb_spec a b); try lia
         | |- context [(?a =? ?b)%Z] =>
             destruct (Z.eqb_spec a b); try lia
         end; try reflexivity.

Lemma upper_classes c :
  65 <= c <= 90 ->
  isSpace c = false /\ isInvisible c = false /\
  isSpace (c + 32) = false /\ isInvisible (c + 32) = false.
Proof.
  intros Hc. unfold isSpace, isInvisible. repeat split; decide_class.
Qed.

Lemma asciiLower_spaced s : forall b,
  spaced false b s = true -> spaced false b (asciiLower s) = true.
Proof.
  induction s as [|c s IH]; intros b H; [exact H|].
  cbn [asciiLower List.map spaced] in *. fold (asciiLower s).
  destruct ((65 <=? c) && (c <=? 90)) eqn:Eu.
  - apply andb_true_iff in Eu. destruct Eu as [E1 E2].
    apply Z.leb_le in E1, E2.
    destruct (upper_classes c (conj E1 E2)) as (S1 & I1 & S2 & I2).
    rewrite S1, I1 in H. rewrite S2, I2. cbn [negb andb] in *.
    apply IH. exact H.
  - destruct (isSpace c).
    + apply andb_true_iff in H. destruct H as [H Hs]. rewrite H.
      apply IH. exact Hs.
    + apply andb_true_iff in H. destruct H as [H Hs]. rewrite H.
      apply IH. exact Hs.
Qed.

Lemma asciiLower_tidy t : tidy t = true -> tidy (asciiLower t) = true.
Proof.
  destruct t as [|c t]; [reflexivity|]. unfold tidy. intros H.
  apply asciiLower_spaced in H. cbn [asciiLower List.map] in *. exact H.
Qed.

Lemma asciiLower_idempotent t : asciiLower (asciiLower t) = asciiLower t.
Proof.
  unfold asciiLower. rewrite map_map. apply map_ext. intros c.
  destruct ((65 <=? c) && (c <=? 90)) eqn:Eu; [|rewrite Eu; reflexivity].
  apply andb_true_iff in Eu. destruct Eu as [E1 E2]. apply Z.leb_le in E1, E2.
  replace ((65 <=? c + 32) && (c + 32 <=? 90)) with false; [reflexivity|].
  symmetry. apply andb_false_iff. right. apply Z.leb_gt. lia.
Qed.

Lemma normalizeText_idempotent_witness :
  let text := lit "  Hello   World " in
  let normalized := normalizeText asciiLower text in
  normalizeText asciiLower normalized = normalized /\
  hash (createTextSignalSync asciiLower normalized)
  = hash (createTextSignalSync asciiLower text) /\
  len (createTextSignalSync asciiLower normalized)
  = len (createTextSignalSync asciiLower text).
Proof.
  apply (normalizeText_idempotent asciiLower asciiLower_idempotent
           asciiLower_tidy (lit "  Hello   World ")).
Defined.

Lemma lastBreak_lineFeeds s : forall best rest,
  lastBreak s best = Some rest ->
  best = Some rest \/ (lineFeeds rest + 1 <= lineFeeds s)%nat.
Proof.
  unfold lineFeeds.
  induction s as [|c s IH]; intros best rest H; cbn [lastBreak] in H;
    [left; exact H|].
  destruct (isSpace c); [|left; exact H].
  apply IH in H. cbn [count_occ].
  destruct (c =? 10) eqn:Ec.
  - apply Z.eqb_eq in Ec. subst c.
    destruct (Z.eq_dec 10 10) as [_|N]; [|contradiction].
    right. destruct H as [H|H]; [injection H as <-; lia|lia].
  - destruct H as [H|H]; [left; exact H|right].
    destruct (Z.eq_dec c 10); lia.
Qed.

Lemma countBreaks_lineFeeds : forall fuel s,
  (2 * countBreaks fuel s <= lineFeeds s)%nat.
Proof.
  induction fuel as [|fuel IH]; intros s; cbn [countBreaks]; [lia|].
  destruct s as [|c s]; [cbn; lia|].
  destruct (c =? 10) eqn:Ec.
  - destruct (lastBreak s None) as [rest|] eqn:El.
    + apply lastBreak_lineFeeds in El. destruct El as [El|El]; [discriminate|].
      specialize (IH rest). apply Z.eqb_eq in Ec. subst c.
      unfold lineFeeds in *. cbn [count_occ].
      destruct (Z.eq_dec 10 10) as [_|N]; [|contradiction]. lia.
    + specialize (IH s). unfold lineFeeds in *. cbn [count_occ].
      destruct (Z.eq_dec c 10); lia.
  - specialize (IH s). unfold lineFeeds in *. cbn [count_occ].
    destruct (Z.eq_dec c 10); lia.
Qed.

(** X12. A blank-line break takes two line feeds of its own: a raw text is
    mixed content only if it holds four line feeds or more (three line
    feeds in a row are one break, and carriage returns alone make none). *)
Theorem isMixedContent_line_feeds :
  forall rawText : jsstring,
    isMixedContent rawText = true -> (4 <= lineFeeds rawText)%nat.
Proof.
  intros rawText H. unfold isMixedContent in H. cbv zeta in H.
  apply Nat.leb_le in H.
  pose proof (countBreaks_lineFeeds (length rawText) rawText). lia.
Qed.

Lemma isMixedContent_line_feeds_witness :
  (4 <= lineFeeds blankLinesOnly)%nat.
Proof.
  apply (isMixedContent_line_feeds blankLinesOnly). reflexivity.
Defined.

(** X13. A text signal has a hash exactly when the normalized text is not
    empty: then the hash is the digest of the normalized text, [len] is its
    length and the kind is not [none]; otherwise the signal is
    [{ kind: "none" }]. *)
Theorem createTextSignalSync_shape :
  forall (toLowerCase : jsstring -> jsstring) (rawText : jsstring),
    let normalized := normalizeText toLowerCase rawText in
    let signal := createTextSignalSync toLowerCase rawText in
    match hash signal with
    | None => normalized = [] /\ signal = mkText None None KNone
    | Some h =>
        normalized <> [] /\ h = sha256Sync normalized /\ isDigest h /\
        len signal = Some (ofNat (length normalized)) /\
        kind signal <> KNone
    end.
Proof.
  intros toLowerCase rawText normalized signal.
  unfold signal, createTextSignalSync. cbv zeta. fold normalized.
  destruct normalized as [|c t] eqn:E; cbn [length Nat.eqb hash len kind].
  - split; reflexivity.
  - split; [discriminate|]. split; [reflexivity|].
    split; [apply sha256Sync_isDigest|]. split; [reflexivity|].
    destruct (isMixedContent rawText); [discriminate|].
    unfold classifyText. cbv zeta. cbn [length Nat.eqb].
    destruct (_ <=? _)%nat; [discriminate|].
    destruct (_ <=? _)%nat; discriminate.
Qed.

Lemma createTextSignalSync_kind_of toLowerCase text :
  existsb isAlnum (normalizeText toLowerCase text) = true ->
  kind (createTextSignalSync toLowerCase text) <> KNone.
Proof.
  intros H. unfold createTextSignalSync. cbv zeta.
  destruct (normalizeText toLowerCase text) as [|c t]; [discriminate H|].
  cbn [length Nat.eqb kind].
  destruct (isMixedContent text); [discriminate|].
  unfold classifyText. cbv zeta. cbn [length Nat.eqb].
  destruct (_ <=? _)%nat; [discriminate|].
  destruct (_ <=? _)%nat; discriminate.
Qed.

(** X14. [isMeaningfulText] holds exactly when the normalized text holds an
    ASCII letter or digit (the test of its length adds nothing), and then
    the text signal of the text has a kind other than [none]. *)
Theorem isMeaningfulText_alnum :
  forall (toLowerCase : jsstring -> jsstring) (text : jsstring),
    isMeaningfulText toLowerCase text
    = existsb isAlnum (normalizeText toLowerCase text) /\
    (isMeaningfulText toLowerCase text = true ->
     kind (createTextSignalSync toLowerCase text) <> KNone).
Proof.
  intros toLowerCase text.
  assert (E : isMeaningfulText toLowerCase text
              = existsb isAlnum (normalizeText toLowerCase text)).
  { unfold isMeaningfulText. cbv zeta.
    destruct (normalizeText toLowerCase text); reflexivity. }
  split; [exact E|]. rewrite E. intros H.
  pose proof (createTextSignalSync_kind_of toLowerCase text) as K.
  exact (K H).
Qed.

End NormalizedText.


(* ===================================================================== *)
(** * The greedy matching and the summary of a diff *)
(* ===================================================================== *)

Section Matching.

Lemma In_indexedFrom {A} (l : list A) : forall k i x,
  In (i, x) (indexedFrom k l) <-> (k <= i)%nat /\ nth_error l (i - k) = Some x.
Proof.
  induction l as [|y l IH]; intros k i x; simpl.
  - split; [tauto|]. intros [_ H]. destruct (i - k)%nat; discriminate.
  - rewrite IH. split.
    + intros [E|[Hk Hn]].
      * injection E as -> ->. rewrite Nat.sub_diag. split; [lia|reflexivity].
      * split; [lia|]. replace (i - k)%nat with (S (i - S k)) by lia. exact Hn.
    + intros [Hk Hn]. destruct (Nat.eq_dec i k) as [->|Hne].
      * rewrite Nat.sub_diag in Hn. injection Hn as ->. left. reflexivity.
      * right. split; [lia|].
        replace (i - k)%nat with (S (i - S k)) in Hn by lia. exact Hn.
Qed.

Lemma In_candidateAt o i a j b c :
  In c (candidateAt o i a j b) ->
  c = mkCandidate i j (nodeSimilarity (node a) (node b)).
Proof.
  unfold candidateAt.
  destruct (_ && _); [intros []|].
  cbv zeta. destruct (PrimFloat.leb _ _); [|intros []].
  intros [E|[]]. symmetry. exact E.
Qed.

Lemma has_In s i : has s i = true <-> In i s.
Proof.
  unfold has. rewrite existsb_exists. split.
  - intros (x & Hx & E). apply Nat.eqb_eq in E. subst. exact Hx.
  - intros H. exists i. split; [exact H|apply Nat.eqb_refl].
Qed.

Lemma has_rev s i : has (rev s) i = has s i.
Proof.
  destruct (has s i) eqn:E.
  - apply has_In. apply in_rev. rewrite rev_involutive. apply has_In. exact E.
  - destruct (has (rev s) i) eqn:E'; [|reflexivity].
    apply has_In, in_rev, has_In in E'. congruence.
Qed.

(** The greedy loop keeps the state paired with the accepted candidates,
    which it takes from the list. *)
Lemma greedy_paired nodesA nodesB l :
  forall st acc,
    paired nodesA nodesB st acc ->
    exists acc',
      paired nodesA nodesB (fold_left (greedyStep nodesA nodesB) l st) acc' /\
      incl acc' (acc ++ l).
Proof.
  induction l as [|c l IH]; intros st acc Hp; cbn [fold_left].
  - exists acc. rewrite app_nil_r in *. split; [exact Hp|apply incl_refl].
  - assert (Hskip : exists acc',
               paired nodesA nodesB (fold_left (greedyStep nodesA nodesB) l st) acc' /\
               incl acc' (acc ++ c :: l)).
    { destruct (IH st acc Hp) as (acc' & Hp' & Hi).
      exists acc'. split; [exact Hp'|].
      intros x Hx. apply Hi in Hx. apply in_app_or in Hx. apply in_or_app.
      destruct Hx; [left|right; right]; assumption. }
    unfold greedyStep at 2.
    destruct (has (usedA st) (ci c) || has (usedB st) (cj c)) eqn:Eu;
      [exact Hskip|].
    destruct (nth_error nodesA (ci c)) as [a|] eqn:Ea; [|exact Hskip].
    destruct (nth_error nodesB (cj c)) as [b|] eqn:Eb; [|exact Hskip].
    apply orb_false_iff in Eu. destruct Eu as [EuA EuB].
    destruct Hp as (Hm & HA & HB & NA & NB).
    destruct (IH (mkState (matches st ++ [mkMatch a b (sim c)])
                          (ci c :: usedA st) (cj c :: usedB st))
                 (acc ++ [c])) as (acc' & Hp' & Hi).
    + unfold paired. cbn [matches usedA usedB].
      rewrite !map_app, !rev_app_distr. cbn [List.map rev app].
      split; [apply Forall2_app; [exact Hm|]|].
      { constructor; [|constructor]. unfold matchedAt.
        cbn [m_nodeA m_nodeB m_similarity]. tauto. }
      split; [rewrite HA; reflexivity|]. split; [rewrite HB; reflexivity|].
      split.
      * rewrite <- (rev_involutive (List.map ci acc ++ [ci c])).
        apply NoDup_rev. rewrite rev_app_distr. cbn [rev app].
        constructor; [|apply NoDup_rev; exact NA].
        intros Hin. rewrite <- HA in Hin. apply has_In in Hin. congruence.
      * rewrite <- (rev_involutive (List.map cj acc ++ [cj c])).
        apply NoDup_rev. rewrite rev_app_distr. cbn [rev app].
        constructor; [|apply NoDup_rev; exact NB].
        intros Hin. rewrite <- HB in Hin. apply has_In in Hin. congruence.
    + exists acc'. split; [exact Hp'|].
      rewrite <- app_assoc in Hi. exact Hi.
Qed.

Lemma In_buildCandidates_plausible nodesA nodesB o c :
  In c (buildCandidates nodesA nodesB o) ->
  exists a b,
    nth_error nodesA (ci c) = Some a /\ nth_error nodesB (cj c) = Some b /\
    sim c = nodeSimilarity (node a) (node b) /\
    plausible o (node a) (node b).
Proof.
  unfold buildCandidates. intros H.
  apply in_flat_map in H. destruct H as ([i a] & Ha & H).
  apply in_flat_map in H. destruct H as ([j b] & Hb & H).
  apply In_indexedFrom in Ha, Hb. rewrite Nat.sub_0_r in Ha, Hb.
  cbn [fst snd] in H. pose proof (In_candidateAt _ _ _ _ _ _ H) as E.
  subst c. cbn [ci cj sim]. exists a, b.
  repeat (split; [tauto|]).
  unfold candidateAt in H.
  destruct (negb (role_eqb (role (node a)) (role (node b)))
            && (bboxSimilarity (bbox (node a)) (bbox (node b)) <? 0.3)%float)
    eqn:Ef; [destruct H|].
  cbv zeta in H.
  destruct (matchThreshold o <=? nodeSimilarity (node a) (node b))%float
    eqn:Et; [|destruct H].
  split; [exact Et|].
  apply andb_false_iff in Ef. destruct Ef as [Ef|Ef].
  - left. apply negb_false_iff in Ef.
    destruct (role (node a)), (role (node b)); (reflexivity || discriminate).
  - right. exact Ef.
Qed.

(** The accepted candidates of [findMatches]. *)
Lemma findMatches_paired nodesA nodesB o :
  exists acc,
    let st := fold_left (greedyStep nodesA nodesB)
                (js_sort (fun a b => (sim b - sim a)%float)
                         (buildCandidates nodesA nodesB o))
                (mkState [] [] []) in
    paired nodesA nodesB st acc /\
    incl acc (buildCandidates nodesA nodesB o).
Proof.
  destruct (greedy_paired nodesA nodesB
              (js_sort (fun a b => (sim b - sim a)%float)
                       (buildCandidates nodesA nodesB o))
              (mkState [] [] []) [])
    as (acc & Hp & Hi).
  - unfold paired. cbn. repeat split; constructor.
  - exists acc. cbv zeta. split; [exact Hp|].
    intros c Hc. apply Hi in Hc. cbn [app] in Hc.
    eapply Permutation_in; [apply Permutation_sym, js_sort_perm|exact Hc].
Qed.

Lemma indexedFrom_fst {A} (l : list A) : forall k,
  List.map fst (indexedFrom k l) = seq k (length l).
Proof.
  induction l as [|x l IH]; intros k; cbn; [reflexivity|].
  rewrite IH. reflexivity.
Qed.

Lemma indexedFrom_snd {A} (l : list A) : forall k,
  List.map snd (indexedFrom k l) = l.
Proof.
  induction l as [|x l IH]; intros k; cbn; [reflexivity|].
  rewrite IH. reflexivity.
Qed.

Lemma filter_split {A} (f : A -> bool) l :
  Permutation (filter f l ++ filter (fun x => negb (f x)) l) l.
Proof.
  induction l as [|x l IH]; cbn [filter app]; [constructor|].
  destruct (f x); cbn [negb app].
  - constructor. exact IH.
  - apply Permutation_sym, Permutation_cons_app, Permutation_sym. exact IH.
Qed.

Lemma NoDup_map_fst {A B} (l : list (A * B)) :
  NoDup (List.map fst l) -> NoDup l.
Proof.
  induction l as [|x l IH]; cbn [List.map]; intros H; [constructor|].
  inversion H as [|? ? Hn Hd]; subst. constructor; [|apply IH; exact Hd].
  intros Hin. apply Hn. apply in_map. exact Hin.
Qed.

(** The nodes at the indices [us], followed by the nodes at the other
    indices, are the nodes of the list. *)
Lemma used_unmatched nodes (us : list nat) (picked : list FlatNode) :
  NoDup us ->
  Forall2 (fun i a => nth_error nodes i = Some a) us picked ->
  Permutation (picked ++ unmatchedOf nodes (rev us)) nodes.
Proof.
  intros Hnd Hf. unfold unmatchedOf.
  set (f := fun ix : nat * FlatNode => has (rev us) (fst ix)).
  assert (Hp : Permutation (combine us picked) (filter f (indexedFrom O nodes))).
  { apply NoDup_Permutation.
    - apply NoDup_map_fst.
      assert (E : List.map fst (combine us picked) = us).
      { clear Hnd. induction Hf; cbn; [reflexivity|f_equal; assumption]. }
      rewrite E. exact Hnd.
    - apply NoDup_filter, NoDup_map_fst. rewrite indexedFrom_fst. apply seq_NoDup.
    - intros [i a]. rewrite filter_In, In_indexedFrom, Nat.sub_0_r.
      unfold f. cbn [fst]. rewrite has_rev, has_In. split.
      + intros Hin. pose proof (in_combine_l _ _ _ _ Hin) as Hi.
        split; [split; [lia|]|exact Hi].
        clear Hnd Hi f. induction Hf as [|j b us' picked' Hj _ IH];
          [destruct Hin|].
        destruct Hin as [E|Hin]; [injection E as -> ->; exact Hj|].
        apply IH. exact Hin.
      + intros [[_ Hn] Hi]. clear Hnd f.
        induction Hf as [|j b us' picked' Hj _ IH]; [destruct Hi|].
        destruct Hi as [->|Hi].
        * left. f_equal. congruence.
        * right. apply IH. exact Hi. }
  assert (E : picked = List.map snd (combine us picked)).
  { clear Hnd Hp. induction Hf; cbn; [reflexivity|f_equal; assumption]. }
  rewrite E at 1. rewrite <- indexedFrom_snd with (l := nodes) (k := O) at 2.
  rewrite <- map_app. apply Permutation_map.
  eapply Permutation_trans; [|apply (filter_split f)].
  apply Permutation_app_tail. exact Hp.
Qed.

Lemma paired_A nodesA nodesB st acc :
  paired nodesA nodesB st acc ->
  Forall2 (fun i a => nth_error nodesA i = Some a)
          (List.map ci acc) (List.map m_nodeA (matches st)).
Proof.
  intros (Hm & _). induction Hm as [|c m acc' ms Hc _ IH]; cbn [List.map];
    constructor; [apply Hc|exact IH].
Qed.

Lemma paired_B nodesA nodesB st acc :
  paired nodesA nodesB st acc ->
  Forall2 (fun j b => nth_error nodesB j = Some b)
          (List.map cj acc) (List.map m_nodeB (matches st)).
Proof.
  intros (Hm & _). induction Hm as [|c m acc' ms Hc _ IH]; cbn [List.map];
    constructor; [apply Hc|exact IH].
Qed.

(** X15. [findMatches] splits each of the two lists: the nodes it matched,
    together with the nodes it left unmatched, are the nodes of the list,
    each once. No node is matched twice and none is lost. *)
Theorem findMatches_partition :
  forall (nodesA nodesB : list FlatNode) (options : Options),
    let r := findMatches nodesA nodesB options in
    Permutation (List.map m_nodeA (r_matches r) ++ unmatchedA r) nodesA /\
    Permutation (List.map m_nodeB (r_matches r) ++ unmatchedB r) nodesB.
Proof.
  intros nodesA nodesB options. unfold findMatches. cbv zeta.
  cbn [r_matches unmatchedA unmatchedB].
  destruct (findMatches_paired nodesA nodesB options) as (acc & Hp & _).
  cbv zeta in Hp. set (st := fold_left _ _ _) in *.
  pose proof (paired_A _ _ _ _ Hp) as HA.
  pose proof (paired_B _ _ _ _ Hp) as HB.
  destruct Hp as (_ & EA & EB & NA & NB). rewrite EA, EB.
  split; apply used_unmatched; assumption.
Qed.

(** X16. Every match of [findMatches] pairs a node of the first list with a
    node of the second; its similarity is their [nodeSimilarity] and
    reaches [matchThreshold]; two nodes of different roles are matched only
    if the similarity of their boxes is not below 0.3. *)
Theorem findMatches_sound :
  forall (nodesA nodesB : list FlatNode) (options : Options),
    let r := findMatches nodesA nodesB options in
    Forall (fun m =>
              In (m_nodeA m) nodesA /\ In (m_nodeB m) nodesB /\
              m_similarity m
              = nodeSimilarity (node (m_nodeA m)) (node (m_nodeB m)) /\
              plausible options (node (m_nodeA m)) (node (m_nodeB m)))
           (r_matches r).
Proof.
  intros nodesA nodesB options. unfold findMatches. cbv zeta.
  cbn [r_matches].
  destruct (findMatches_paired nodesA nodesB options) as (acc & Hp & Hi).
  cbv zeta in Hp. set (st := fold_left _ _ _) in *.
  destruct Hp as (Hm & _). clearbody st.
  induction Hm as [|c m acc' ms Hc _ IH]; constructor.
  - destruct Hc as (Ha & Hb & Es).
    destruct (In_buildCandidates_plausible _ _ _ _ (Hi c (or_introl eq_refl)))
      as (a & b & Ha' & Hb' & Es' & Hpl).
    rewrite Ha in Ha'. rewrite Hb in Hb'.
    injection Ha' as <-. injection Hb' as <-.
    split; [eapply nth_error_In; exact Ha|].
    split; [eapply nth_error_In; exact Hb|].
    split; [congruence|exact Hpl].
  - apply IH. intros x Hx. apply Hi. right. exact Hx.
Qed.

End Matching.


Section Summary.

Lemma flattenTree_length n :
  forall d p, length (flattenTree n d p) = countNodes n.
Proof.
  induction n as [n IH] using UINode_tree_ind. intros d p.
  rewrite countNodes_children.
  destruct n as [i r s nh t b zv ia e v f [cs|] fl];
    cbn [flattenTree children childList length role] in *; [|reflexivity].
  f_equal. generalize O as k.
  induction IH as [|c cs Hc _ IHcs]; intros k; [reflexivity|].
  rewrite length_app, Hc, IHcs. reflexivity.
Qed.

Lemma getCount_bump c change t :
  getCount (bump c change) t
  = (getCount c t + if ctype_eqb (ctype change) t then 1 else 0)%nat.
Proof.
  unfold bump. destruct (ctype change), t; cbn; lia.
Qed.

Lemma getCount_fold l : forall c t,
  getCount (fold_left bump l c) t = (getCount c t + countType t l)%nat.
Proof.
  unfold countType.
  induction l as [|x l IH]; intros c t; cbn [fold_left filter length]; [lia|].
  rewrite IH, getCount_bump. destruct (ctype_eqb (ctype x) t); cbn [length]; lia.
Qed.

Lemma countType_app t l1 l2 :
  countType t (l1 ++ l2) = (countType t l1 + countType t l2)%nat.
Proof. unfold countType. rewrite filter_app, length_app. reflexivity. Qed.

Lemma countType_total l :
  (countType added l + countType removed l + countType moved l
   + countType resized l + countType text_changed l
   + countType interactive_changed l + countType role_changed l
   + countType children_changed l)%nat = length l.
Proof.
  unfold countType. induction l as [|x l IH]; [reflexivity|].
  cbn [filter length]. destruct (ctype x); cbn [ctype_eqb length]; lia.
Qed.

Lemma countType_none t l :
  Forall (fun c => ctype_eqb (ctype c) t = false) l -> countType t l = O.
Proof.
  unfold countType. induction 1 as [|x l Hx _ IH]; [reflexivity|].
  cbn [filter]. rewrite Hx. exact IH.
Qed.

Lemma countType_all t l :
  Forall (fun c => ctype_eqb (ctype c) t = true) l -> countType t l = length l.
Proof.
  unfold countType. induction 1 as [|x l Hx _ IH]; [reflexivity|].
  cbn [filter]. rewrite Hx. cbn [length]. f_equal. exact IH.
Qed.

(** A matched pair yields changes of the six types of a match only. *)
Lemma classifyMatchChanges_types m o :
  Forall (fun c => ctype_eqb (ctype c) added = false /\
                   ctype_eqb (ctype c) removed = false /\
                   nodeA c = Some (node (m_nodeA m)) /\
                   nodeB c = Some (node (m_nodeB m)))
         (classifyMatchChanges m o).
Proof.
  unfold classifyMatchChanges. cbv zeta.
  repeat (apply Forall_app; split);
    match goal with
    | |- Forall _ (if ?b then _ else _) => destruct b
    end; repeat constructor.
Qed.

Lemma matchChanges_count t ms o :
  (t = added \/ t = removed) ->
  countType t (flat_map (fun mt => classifyMatchChanges mt o) ms) = O.
Proof.
  intros Ht. apply countType_none. apply Forall_forall. intros c Hc.
  apply in_flat_map in Hc. destruct Hc as (m & _ & Hc).
  pose proof (classifyMatchChanges_types m o) as H.
  rewrite Forall_forall in H. destruct (H c Hc) as (H1 & H2 & _).
  destruct Ht; subst; assumption.
Qed.

Lemma findMatches_lengths nodesA nodesB o :
  let r := findMatches nodesA nodesB o in
  length nodesA = (length (r_matches r) + length (unmatchedA r))%nat /\
  length nodesB = (length (r_matches r) + length (unmatchedB r))%nat.
Proof.
  cbv zeta. unfold findMatches. cbv zeta.
  cbn [r_matches unmatchedA unmatchedB].
  destruct (findMatches_paired nodesA nodesB o) as (acc & Hp & _).
  cbv zeta in Hp. set (st := fold_left _ _ _) in *.
  pose proof (paired_A _ _ _ _ Hp) as HA.
  pose proof (paired_B _ _ _ _ Hp) as HB.
  destruct Hp as (_ & EA & EB & NA & NB). rewrite EA, EB.
  pose proof (Permutation_length (used_unmatched nodesA _ _ NA HA)) as LA.
  pose proof (Permutation_length (used_unmatched nodesB _ _ NB HB)) as LB.
  rewrite length_app, length_map in LA, LB. split; symmetry; assumption.
Qed.

(** The changes of a diff, in the three groups the source collects. *)
Lemma diff_changes a b o :
  changes (diff a b o) =
  let opts := mergeOptions o in
  let m := findMatches (flattenTree (root a) O []) (flattenTree (root b) O [])
                       opts in
  flat_map (fun mt => classifyMatchChanges mt opts) (r_matches m)
  ++ List.map addedChange (unmatchedB m)
  ++ List.map removedChange (unmatchedA m).
Proof. reflexivity. Qed.

Lemma diff_counts a b o t :
  getCount (counts (summary (diff a b o))) t = countType t (changes (diff a b o)).
Proof.
  unfold diff at 1. cbv zeta. cbn [summary counts].
  rewrite getCount_fold. destruct t; reflexivity.
Qed.

(** X17. The counts of a diff are the numbers of changes of each type: they
    add up to the number of changes, and [identical] holds exactly when all
    of them are zero. *)
Theorem diff_counts_consistent :
  forall (a b : WebSketchCapture) (options : DiffOptions),
    let r := diff a b options in
    (forall t, getCount (counts (summary r)) t = countType t (changes r)) /\
    totalCount (counts (summary r)) = length (changes r) /\
    (identical (summary r) = true <-> counts (summary r) = zeroCounts) /\
    (identical (summary r) = true <-> changes r = []).
Proof.
  intros a b options r.
  assert (Hc : forall t, getCount (counts (summary r)) t = countType t (changes r))
    by (intros t; apply diff_counts).
  assert (Ht : totalCount (counts (summary r)) = length (changes r)).
  { rewrite <- (countType_total (changes r)). unfold totalCount.
    rewrite <- !Hc. reflexivity. }
  assert (Hi : identical (summary r) = true <-> changes r = []).
  { unfold r, diff. cbv zeta. cbn [summary identical changes].
    rewrite Nat.eqb_eq. apply length_zero_iff_nil. }
  split; [exact Hc|]. split; [exact Ht|]. split; [|exact Hi].
  rewrite Hi. split.
  - intros E. destruct (counts (summary r)) eqn:Ec.
    pose proof (Hc added) as H1. pose proof (Hc removed) as H2.
    pose proof (Hc moved) as H3. pose proof (Hc resized) as H4.
    pose proof (Hc text_changed) as H5.
    pose proof (Hc interactive_changed) as H6.
    pose proof (Hc role_changed) as H7.
    pose proof (Hc children_changed) as H8.
    rewrite E in *. cbn in H1, H2, H3, H4, H5, H6, H7, H8. subst.
    reflexivity.
  - intros E. rewrite E in Ht. cbn in Ht. apply length_zero_iff_nil.
    symmetry. exact Ht.
Qed.

(** X18. A diff accounts for every node: the nodes of A that are not reported
    as removed are as many as the nodes of B that are not reported as
    added (they are the matched pairs). *)
Theorem diff_node_conservation :
  forall (a b : WebSketchCapture) (options : DiffOptions),
    let s := summary (diff a b options) in
    (n_removed (counts s) <= nodeCountA s)%nat /\
    (n_added (counts s) <= nodeCountB s)%nat /\
    (nodeCountA s - n_removed (counts s)
     = nodeCountB s - n_added (counts s))%nat /\
    nodeCountA s = countNodes (root a) /\
    nodeCountB s = countNodes (root b).
Proof.
  intros a b options s.
  pose proof (diff_counts a b options added) as Ha.
  pose proof (diff_counts a b options removed) as Hr.
  fold s in Ha, Hr. cbn [getCount] in Ha, Hr.
  rewrite diff_changes in Ha, Hr. cbv zeta in Ha, Hr.
  set (opts := mergeOptions options) in *.
  set (m := findMatches _ _ opts) in *.
  rewrite !countType_app in Ha, Hr.
  rewrite matchChanges_count in Ha by (left; reflexivity).
  rewrite matchChanges_count in Hr by (right; reflexivity).
  rewrite (countType_all added (List.map addedChange _)) in Ha
    by (apply Forall_forall; intros c Hc; apply in_map_iff in Hc;
        destruct Hc as (f & <- & _); reflexivity).
  rewrite (countType_none added (List.map removedChange _)) in Ha
    by (apply Forall_forall; intros c Hc; apply in_map_iff in Hc;
        destruct Hc as (f & <- & _); reflexivity).
  rewrite (countType_none removed (List.map addedChange _)) in Hr
    by (apply Forall_forall; intros c Hc; apply in_map_iff in Hc;
        destruct Hc as (f & <- & _); reflexivity).
  rewrite (countType_all removed (List.map removedChange _)) in Hr
    by (apply Forall_forall; intros c Hc; apply in_map_iff in Hc;
        destruct Hc as (f & <- & _); reflexivity).
  rewrite !length_map in Ha, Hr.
  destruct (findMatches_lengths (flattenTree (root a) O [])
              (flattenTree (root b) O []) opts) as (LA & LB).
  cbv zeta in LA, LB. fold m in LA, LB.
  rewrite flattenTree_length in LA, LB.
  assert (EA : nodeCountA s = countNodes (root a)) by reflexivity.
  assert (EB : nodeCountB s = countNodes (root b)) by reflexivity.
  rewrite EA, EB. repeat split; lia.
Qed.

(** [slice(0, end)] is a prefix of the list, whatever [end] is. *)
Lemma sliceTo_prefix {A} (l : list A) (e : number) :
  exists n, sliceTo l e = firstn n l.
Proof.
  unfold sliceTo. destruct (exact e) as [q|].
  - destruct (truncate q <? 0); eexists; reflexivity.
  - destruct (PrimFloat.is_nan e || signbit e).
    + exists O. reflexivity.
    + exists (length l). rewrite firstn_all. reflexivity.
Qed.


End Summary.


(* ===================================================================== *)
(** * Flattened trees and issue paths *)
(* ===================================================================== *)

Section TreesAndPaths.

Lemma flattenTree_nodes n : forall d p,
  List.map node (flattenTree n d p) = preorder n /\
  Forall (fun f => fhash f = hashNodeShallow (node f) noOptions /\
                   (d <= depth f)%nat)
         (flattenTree n d p).
Proof.
  induction n as [n IH] using UINode_tree_ind. intros d p.
  destruct n as [i r s nh t b zv ia e v f [cs|] fl];
    cbn [flattenTree preorder children childList List.map role] in *.
  2:{ split; [reflexivity|]. repeat constructor. }
  set (cp := if truthy_str p then _ else _). clearbody cp.
  assert (H : forall k,
             List.map node
               ((fix each (l : list UINode) (i0 : nat) {struct l} : list FlatNode :=
                   match l with
                   | [] => []
                   | child :: l' =>
                       flattenTree child (S d)
                         (cp ++ lit "[" ++ intToString (Z.of_nat i0) ++ lit "]")
                       ++ each l' (S i0)
                   end) cs k)
             = flat_map preorder cs /\
             Forall (fun f => fhash f = hashNodeShallow (node f) noOptions /\
                              (d <= depth f)%nat)
               ((fix each (l : list UINode) (i0 : nat) {struct l} : list FlatNode :=
                   match l with
                   | [] => []
                   | child :: l' =>
                       flattenTree child (S d)
                         (cp ++ lit "[" ++ intToString (Z.of_nat i0) ++ lit "]")
                       ++ each l' (S i0)
                   end) cs k)).
  { induction IH as [|c cs Hc _ IHcs]; intros k; [split; constructor|].
    destruct (Hc (S d) (cp ++ lit "[" ++ intToString (Z.of_nat k) ++ lit "]"))
      as [E1 F1].
    destruct (IHcs (S k)) as [E2 F2].
    cbn [flat_map]. rewrite map_app, E1, E2. split; [reflexivity|].
    apply Forall_app. split; [|exact F2].
    eapply Forall_impl; [|exact F1]. intros x [Hx Hd]. split; [exact Hx|lia]. }
  destruct (H O) as [E F]. rewrite E. split; [reflexivity|].
  constructor; [split; [reflexivity|cbn; lia]|exact F].
Qed.

(** X20. [flattenTree] lists every node of the tree once, in pre-order: a
    node, then each of its children with all below it. The list has
    [countNodes] entries; each carries the shallow hash of its node and a
    depth that is not above the depth of the root. *)
Theorem flattenTree_preorder :
  forall (n : UINode) (d : nat) (p : jsstring),
    List.map node (flattenTree n d p) = preorder n /\
    length (flattenTree n d p) = countNodes n /\
    Forall (fun f => fhash f = hashNodeShallow (node f) noOptions /\
                     (d <= depth f)%nat)
           (flattenTree n d p).
Proof.
  intros n d p. destruct (flattenTree_nodes n d p) as [E F].
  split; [exact E|]. split; [apply flattenTree_length|exact F].
Qed.

Lemma below_self path e r m : below path (issue path e r m).
Proof. exists []. cbn [i_path]. symmetry. apply app_nil_r. Qed.

Lemma below_under path x e r m : below path (issue (path ++ x) e r m).
Proof. exists x. reflexivity. Qed.

Lemma below_child path x i : below (path ++ x) i -> below path i.
Proof. intros [s E]. exists (x ++ s). rewrite E. symmetry. apply app_assoc. Qed.

Lemma grows_refl path st : grows path st st.
Proof. exists []. split; [symmetry; apply app_nil_r|constructor]. Qed.

Lemma grows_trans path st1 st2 st3 :
  grows path st1 st2 -> grows path st2 st3 -> grows path st1 st3.
Proof.
  intros (a & Ea & Fa) (b & Eb & Fb). exists (a ++ b). split.
  - rewrite Eb, Ea. symmetry. apply app_assoc.
  - apply Forall_app. split; assumption.
Qed.

Lemma grows_push path (st : VState) k i :
  below path i -> grows path st (push (k, snd st) i).
Proof. intros Hi. exists [i]. split; [reflexivity|repeat constructor; exact Hi]. Qed.

Lemma grows_child path x st st' : grows (path ++ x) st st' -> grows path st st'.
Proof.
  intros (a & Ea & Fa). exists a. split; [exact Ea|].
  eapply Forall_impl; [|exact Fa]. intros i. apply below_child.
Qed.

Lemma memberIssues_below node path : Forall (below path) (memberIssues node path).
Proof.
  unfold memberIssues, roleIssues, bboxIssues, booleanIssue, idIssues,
    textIssues.
  repeat (apply Forall_app; split).
  - destruct (getProp node (lit "role")) as [[| | |r| |]|];
      try destruct (isValidRole r); repeat constructor; apply below_under.
  - destruct (getProp node (lit "bbox")) as [[| | | |bbox|]|];
      try (repeat constructor; apply below_under).
    destruct (negb _); [repeat constructor; apply below_under|].
    cbn [flat_map]. repeat (apply Forall_app; split); try constructor;
      unfold bboxElementIssue;
      match goal with
      | |- context [nth_error bbox ?i] =>
          destruct (nth_error bbox i) as [[| | | | |]|]
      end; repeat constructor; apply below_under.
  - destruct (getProp node (lit "interactive")) as [[| | | | |]|];
      repeat constructor; apply below_under.
  - destruct (getProp node (lit "visible")) as [[| | | | |]|];
      repeat constructor; apply below_under.
  - destruct (getProp node (lit "id")) as [[| | | | |]|];
      repeat constructor; apply below_under.
  - destruct (getProp node (lit "text")) as [[| | | | |t]|];
      try (repeat constructor; apply below_under).
    destruct (getProp t (lit "kind")) as [[| | | | |]|];
      repeat constructor; apply below_under.
Qed.

Lemma eachChild_grows visit path children :
  Forall (fun child => forall q st, grows q st (visit child q st)) children ->
  forall i st, grows path st (eachChild visit path children i st).
Proof.
  induction 1 as [|c cs Hc _ IH]; intros i st; cbn [eachChild];
    [apply grows_refl|].
  cbv zeta.
  assert (H1 : grows path st (visit c (childPath path i) st))
    by (unfold childPath; eapply grows_child; apply Hc).
  destruct (tooManyIssues _); [exact H1|].
  eapply grows_trans; [exact H1|apply IH].
Qed.

Lemma validateNode_grows data :
  forall limits depth path st,
    grows path st (validateNode data limits depth path st).
Proof.
  assert (Hleaf : forall v limits depth path st,
             match v with JObj _ => False | _ => True end ->
             grows path st (validateNode v limits depth path st)).
  { intros v limits depth path st Hv. rewrite validateNode_unfold. cbv zeta.
    destruct (exceeds _ _); [apply grows_push, below_self|].
    destruct (exceeds _ _); [apply grows_push, below_self|].
    destruct v; try contradiction; apply grows_push, below_self. }
  set (P := fun v => forall limits depth path st,
                grows path st (validateNode v limits depth path st)).
  set (P' := fun v => P v /\ match v with JArr l => Forall P l | _ => True end).
  enough (H : P' data) by (apply H).
  induction data as [| | | |l IH|ms IH] using JSON_tree_ind; unfold P', P.
  - split; [|exact I]. intros. apply Hleaf. exact I.
  - split; [|exact I]. intros. apply Hleaf. exact I.
  - split; [|exact I]. intros. apply Hleaf. exact I.
  - split; [|exact I]. intros. apply Hleaf. exact I.
  - split; [intros; apply Hleaf; exact I|].
    eapply Forall_impl; [|exact IH]. intros v Hv. apply Hv.
  - split; [|exact I]. intros limits depth path st.
    rewrite validateNode_unfold. cbv zeta.
    destruct (exceeds _ _); [apply grows_push, below_self|].
    destruct (exceeds _ _); [apply grows_push, below_self|].
    cbn [fst snd].
    set (st1 := ((fst st + 1)%Z, snd st ++ memberIssues ms path)).
    assert (H1 : grows path st st1).
    { exists (memberIssues ms path). split; [reflexivity|].
      apply memberIssues_below. }
    destruct (getProp ms (lit "children")) as [v|] eqn:Ec; [|exact H1].
    destruct (getProp_In _ _ _ Ec) as [k Hin].
    rewrite Forall_forall in IH. specialize (IH _ Hin). cbn [snd] in IH.
    destruct v as [| | | |children|];
      try (eapply grows_trans; [exact H1|];
           apply (grows_push path st1), below_under).
    destruct IH as [_ IH].
    eapply grows_trans; [exact H1|].
    apply eachChild_grows.
    eapply Forall_impl; [|exact IH]. intros c Hc q st0. apply Hc.
Qed.

Ltac in_paths :=
  cbn [i_path In]; repeat (first [left; reflexivity | right]).

Ltac all_in_paths :=
  repeat (first [apply Forall_nil | apply Forall_cons; [in_paths|]]).

Lemma headerIssues_paths obj :
  Forall (fun i => In (i_path i) headerPaths) (headerIssues obj).
Proof.
  unfold headerIssues, versionIssues, stringIssue, numberIssue, viewportIssues,
    compilerIssues, stringIssue, numberIssue, headerPaths.
  repeat (apply Forall_app; split).
  - destruct (getProp obj (lit "version")) as [[| | |s| |]|];
      try destruct (str_eqb s (lit "0.1")); all_in_paths.
  - destruct (getProp obj (lit "url")) as [[| | | | |]|]; all_in_paths.
  - destruct (getProp obj (lit "timestamp_ms")) as [[| | | | |]|]; all_in_paths.
  - destruct (getProp obj (lit "viewport")) as [[| | | | |vp]|];
      try all_in_paths.
    repeat (apply Forall_app; split).
    + destruct (getProp vp (lit "w_px")) as [[| | | | |]|]; all_in_paths.
    + destruct (getProp vp (lit "h_px")) as [[| | | | |]|]; all_in_paths.
    + destruct (getProp vp (lit "aspect")) as [[| | | | |]|]; all_in_paths.
  - destruct (getProp obj (lit "compiler")) as [[| | | | |comp]|];
      try all_in_paths.
    repeat (apply Forall_app; split).
    + destruct (getProp comp (lit "name")) as [[| | | | |]|]; all_in_paths.
    + destruct (getProp comp (lit "version")) as [[| | | | |]|]; all_in_paths.
    + destruct (getProp comp (lit "options_hash")) as [[| | | | |]|];
        all_in_paths.
Qed.

(** X21. The path of an issue tells where it was found. Every issue that
    [validateNode] adds has a path that extends the path of the node it was
    given; every issue of [validateCapture] has the empty path (the value
    is no object), the path of a member of the capture, or a path that
    begins with [root]. *)
Theorem validation_issue_paths :
  (forall data limits depth path st,
      exists found,
        snd (validateNode data limits depth path st) = snd st ++ found /\
        Forall (fun i => exists suffix, i_path i = path ++ suffix) found) /\
  (forall data limits i,
      In i (validateCapture data limits) ->
      i_path i = [] \/ In (i_path i) headerPaths \/
      exists suffix, i_path i = lit "root" ++ suffix).
Proof.
  split; [intros; apply validateNode_grows|].
  intros data limits i Hin. unfold validateCapture in Hin. cbv zeta in Hin.
  destruct data as [| | | | |obj];
    try (destruct Hin as [<-|[]]; left; reflexivity).
  pose proof (headerIssues_paths obj) as Hh. rewrite Forall_forall in Hh.
  assert (Hroot : forall root,
             In i (snd (validateNode root (resolveLimits limits) 0%Z (lit "root")
                                     (0%Z, headerIssues obj))) ->
             i_path i = [] \/ In (i_path i) headerPaths \/
             exists suffix, i_path i = lit "root" ++ suffix).
  { intros root Hi.
    destruct (validateNode_grows root (resolveLimits limits) 0%Z (lit "root")
                                 (0%Z, headerIssues obj)) as (found & E & F).
    rewrite E in Hi. cbn [snd] in Hi. apply in_app_or in Hi.
    destruct Hi as [Hi|Hi]; [right; left; apply Hh; exact Hi|].
    right. right. rewrite Forall_forall in F. apply F. exact Hi. }
  destruct (getProp obj (lit "root")) as [[| | | | |]|];
    try exact (Hroot _ Hin);
    (apply in_app_or in Hin; destruct Hin as [Hin|[<-|[]]];
     [right; left; apply Hh; exact Hin|right; right; exists []; reflexivity]).
Qed.

End TreesAndPaths.

